(** * icl: inter-core latency measurement (src/icl.c)

    A shallow embedding of [icl.c] and the properties of its latency
    matrix, of its two hand-off protocols and of its output.

    The definitions come first.

    - Part I (modules [Clock], [Sampler], [Builder]) is the sequential view
      of [main]: the two nested loops over CPU positions, the pinning calls
      with their fatal error path, the minimum over the per-sample elapsed
      times and the two mirrored writes into [data].  What the operating
      system and the hardware decide (the return value of
      [sched_setaffinity], the clock readings around each sample, whether
      the spawned thread runs and whether the waits come to an end) is an
      explicit environment.

    - Part II (module [Protocol]) is the concurrent view of one pair
      measurement, with both contexts pinned: the main thread and the
      spawned thread as two program counters over the shared cells [seq1]
      and [seq2], interleaved by an arbitrary schedule, with a monotonic
      clock.  Atomic operations are indivisible steps over one shared
      store (an interleaving semantics, which is what acquire loads,
      release stores and sequentially consistent exchanges give on the
      single word each wait reads); every step that has an effect is
      recorded in a trace.

    - [Invariants] holds the invariants of the protocol machine and
      [Scenario] a few concrete runs.

    - Part III (modules [Cli], [Affinity], [Report], [Icl]) is the rest
      of [main]: the options, the enumeration of the CPUs of the
      affinity mask, the table written to [stdout], and the program as
      a whole.  What the C library decides ([getopt], [atoi],
      [sched_getaffinity]) joins the environment.  [Progress] counts
      the steps of a pair measurement, [Exchange] describes the timed
      window of the flag exchange, [Stamps] the timestamps of a trace
      and [Inputs] holds concrete command lines and processes.

    The facts follow, module by module; [Claims] states the properties
    of the specification and [Extras] further properties of the code.

    Modelling assumptions, stated once:
    - [long long], [long] and [int] values are mathematical integers; the
      program never leaves their range (sample indices stay below
      [nsamples], the cells hold values between -1 and 199, [ncpus] is at
      most [CPU_SETSIZE], the fields of a [struct timespec] and their
      differences fit in a [long]).
    - [double] is IEEE 754 binary64 and every operation is rounded once,
      to nearest with ties to even (no contraction of the product and
      the sum, no extended precision).  The values of type [double] the
      program computes are integers, so a [double] is modelled by the
      integer it holds and every operation by the exact result followed
      by [Clock.round_double].
    - The result of [pthread_create] (line 179) is not tested.  A
      thread that was not created is a thread that never runs
      ([Builder.thread_runs] false): the main thread waits for it for
      ever.  With no sample to take it does so in [pthread_join], whose
      argument was then never set, which is undefined in C. *)

From Stdlib Require Import ZArith List Lia Bool String Ascii Sorted.
From Stdlib Require Import Floats.SpecFloat.
From stdpp Require Import base list pretty sorting.


(** The two execution contexts of one pair measurement: the main thread
    (pinned to [cpus[j]], it takes the timestamps) and the spawned thread
    running [thread_func] (pinned to [cpus[i]]). *)
Inductive tid : Type := Initiator | Responder.

(* ================================================================== *)
(** * Part I: the sequential view *)
(* ================================================================== *)

Module Clock.

Local Open Scope Z_scope.

(** [struct timespec]. *)
Record timespec : Type := { tv_sec : Z; tv_nsec : Z }.

(** ** Arithmetic in [double]

    A binary64 number has 53 significant bits: every integer up to 2^53
    in absolute value is one, and between 2^k and 2^(k + 1), for
    [k >= 53], the multiples of 2^(k - 52) are. *)

(** The distance between the binary64 numbers around [z]. *)
Definition ulp (z : Z) : Z := 2 ^ Z.max 0 (Z.log2 (Z.abs z) - 52).

(** The binary64 number nearest to the integer [z]; of two that are
    equally near, the one whose significand is even. *)
Definition round_double (z : Z) : Z :=
  let u := ulp z in
  let q := z / u in
  let r := z mod u in
  if 2 * r <? u then q * u
  else if u <? 2 * r then (q + 1) * u
  else if Z.even q then q * u else (q + 1) * u.

(** The conversion of a [double] that holds the integer [d] to
    [long long], lines 212 and 241.  Outside the range of [long long]
    the conversion is undefined in C; the value given here is the one
    the conversion instruction of x86-64 delivers, -2^63. *)
Definition to_long_long (d : Z) : Z :=
  if (- 2 ^ 63 <=? d) && (d <? 2 ^ 63) then d else - 2 ^ 63.

(** [(b.tv_sec - a.tv_sec) * 1e9 + (b.tv_nsec - a.tv_nsec)],
    lines 63-64, 190-191, 213-214 and 242-243: the two differences are
    taken in [long]; the first is converted to [double] and multiplied
    by [1e9], the second is converted to [double] and added. *)
Definition elapsed_double (a b : timespec) : Z :=
  round_double
    (round_double (round_double (tv_sec b - tv_sec a) * 1000000000)
     + round_double (tv_nsec b - tv_nsec a)).

(** [long long current_rtt = ...], lines 212-214 and 241-243. *)
Definition elapsed_ns (a b : timespec) : Z :=
  to_long_long (elapsed_double a b).

Arguments round_double : simpl never.
Arguments to_long_long : simpl never.
Arguments elapsed_double : simpl never.
Arguments elapsed_ns : simpl never.

(** What [clock_gettime(CLOCK_MONOTONIC, _)] stores when the monotonic
    clock stands at [now] nanoseconds. *)
Definition clock_gettime (now : Z) : timespec :=
  {| tv_sec := now / 1000000000; tv_nsec := now mod 1000000000 |}.

(** The reading in nanoseconds. *)
Definition to_ns (t : timespec) : Z :=
  tv_sec t * 1000000000 + tv_nsec t.

(** [clock_gettime] stores less than a second in [tv_nsec]. *)
Definition normal (t : timespec) : Prop := 0 <= tv_nsec t < 1000000000.

(** [b] was read from the monotonic clock no earlier than [a]. *)
Definition not_before (a b : timespec) : Prop := to_ns a <= to_ns b.

End Clock.

(** The Standard Library's specification of binary64 ([SpecFloat] with
    53 bits of precision and exponents below 1024), to compare
    [Clock.round_double] with. *)
Module Binary64.

Local Open Scope Z_scope.

(** The conversion of an integer to [double]. *)
Definition of_Z (z : Z) : spec_float := binary_normalize 53 1024 z 0 false.

(** The integer a [double] holds, when it holds one. *)
Definition to_Z (f : spec_float) : option Z :=
  match f with
  | S754_zero _ => Some 0
  | S754_finite s m e =>
      if 0 <=? e then Some ((if s then -1 else 1) * (Z.pos m * 2 ^ e))
      else if Z.pos m mod 2 ^ (- e) =? 0
           then Some ((if s then -1 else 1) * (Z.pos m / 2 ^ (- e)))
           else None
  | _ => None
  end.

Definition mul (x y : Z) : option Z :=
  to_Z (SFmul 53 1024 (of_Z x) (of_Z y)).

Definition add (x y : Z) : option Z :=
  to_Z (SFadd 53 1024 (of_Z x) (of_Z y)).

(** Integers around the places where the rounding changes. *)
Definition samples : list Z :=
  [0; 1; -1; 200000000; 2 ^ 53 - 1; 2 ^ 53; 2 ^ 53 + 1; 2 ^ 53 + 2;
   2 ^ 53 + 3; 2 ^ 54 - 1; 2 ^ 54 + 1; 2 ^ 54 + 2; 2 ^ 54 + 3;
   2 ^ 54 + 5; 2 ^ 54 + 6; 2 ^ 54 + 7; - (2 ^ 53 + 1); - (2 ^ 53 + 3);
   - (2 ^ 54 - 1); - (2 ^ 54 + 2); - (2 ^ 54 + 6);
   80000000000000199; 80000000000000200; 80000000000000201;
   2 ^ 63 - 513; 2 ^ 63 - 512; 2 ^ 63 - 511; 2 ^ 63 - 1; 2 ^ 63;
   10 ^ 19; 10 ^ 19 + 1; 2 ^ 64 - 1; 9223372036; 80000000; 9007199;
   2 ^ 53 + 7; 9007199000000000; 9223372036000000000;
   80000000000000000;
   2 ^ 100 + 2 ^ 47; 2 ^ 100 + 2 ^ 47 + 1; 2 ^ 100 + 3 * 2 ^ 47].

Definition same (o : option Z) (z : Z) : bool :=
  match o with Some r => r =? z | None => false end.

(** The conversion, the product with [1e9] and the sum with a number of
    nanoseconds agree with [round_double] at [z]. *)
Definition agrees (z : Z) : bool :=
  same (to_Z (of_Z z)) (Clock.round_double z) &&
  same (mul z 1000000000)
       (Clock.round_double (Clock.round_double z * 1000000000)) &&
  forallb (fun n =>
             same (add z n)
                  (Clock.round_double (Clock.round_double z + n)))
          [999999999; -999999999; 200; 254740999; 854775296; 854775808].

End Binary64.

Module Sampler.

Import Clock.
Local Open Scope Z_scope.

(** Lines 215-217 and 244-246:
    [if (rtt == -1 || current_rtt < rtt) rtt = current_rtt;]. *)
Definition update_rtt (rtt current_rtt : Z) : Z :=
  if (rtt =? -1) || (current_rtt <? rtt) then current_rtt else rtt.

(** The sample loop of line 198 as the main thread sees it: [rtt] starts
    at -1 (line 182) and is updated once per sample with the elapsed
    time of that sample. *)
Definition sample_loop (elapsed : list Z) : Z :=
  fold_left update_rtt elapsed (-1).

(** [rtt / 2 / 100] of lines 252-253; C division truncates toward
    zero. *)
Definition per_hop (rtt : Z) : Z := rtt ÷ 2 ÷ 100.

(** The elapsed times of the samples [0 .. nsamples-1] as the code
    computes them, given the two clock readings of each sample.
    [for (m = 0; m < nsamples; ++m)] runs [nsamples] times, and not at
    all when [nsamples <= 0]. *)
Definition elapsed_times (stamps : nat -> timespec * timespec)
    (nsamples : Z) : list Z :=
  map (fun m => elapsed_ns (fst (stamps m)) (snd (stamps m)))
      (seq 0 (Z.to_nat nsamples)).

(** The value reported for one pair. *)
Definition pair_latency (stamps : nat -> timespec * timespec)
    (nsamples : Z) : Z :=
  per_hop (sample_loop (elapsed_times stamps nsamples)).

(** The sample loop fed with given elapsed times, [elapsed m] for
    sample [m]: the times of the first [nsamples] samples and the value
    reported for them. *)
Definition first_samples (elapsed : nat -> Z) (nsamples : Z) : list Z :=
  map elapsed (seq 0 (Z.to_nat nsamples)).

Definition reported (elapsed : nat -> Z) (nsamples : Z) : Z :=
  per_hop (sample_loop (first_samples elapsed nsamples)).

(** The specification's reading of the elapsed time of a sample: end
    minus start on the monotonic clock, in nanoseconds. *)
Definition windows (stamps : nat -> timespec * timespec)
    (nsamples : Z) : list Z :=
  map (fun m => to_ns (snd (stamps m)) - to_ns (fst (stamps m)))
      (seq 0 (Z.to_nat nsamples)).

(** The specification's reading: the least element of a list of elapsed
    times, with the first element as the start value. *)
Definition min_elapsed (elapsed : list Z) : Z :=
  match elapsed with
  | [] => -1
  | e :: es => fold_left Z.min es e
  end.

(** Both readings of every sample are as [clock_gettime] stores them
    and ordered by the monotonic clock. *)
Definition monotonic (stamps : nat -> timespec * timespec) : Prop :=
  forall m, normal (fst (stamps m)) /\ normal (snd (stamps m)) /\
            not_before (fst (stamps m)) (snd (stamps m)).

(** Every timed window is shorter than [limit] nanoseconds. *)
Definition shorter (limit : Z) (stamps : nat -> timespec * timespec)
    : Prop :=
  forall m, to_ns (snd (stamps m)) - to_ns (fst (stamps m)) < limit.

End Sampler.

Module Builder.

Import Clock Sampler.

(** ** Process outcomes

    [exit(1)] never returns, and neither does a wait that never ends: a
    computation returns a value, or has terminated the whole process
    with a status and the text written to [stderr], or hangs. *)
Inductive outcome (A : Type) : Type :=
| Returned (a : A)
| Exited (status : Z) (stderr : string)
| Hangs.
Arguments Returned {A} a.
Arguments Exited {A} status stderr.
Arguments Hangs {A}.

#[export] Instance outcome_ret : MRet outcome := fun A a => Returned a.
#[export] Instance outcome_bind : MBind outcome := fun A B f m =>
  match m with
  | Returned a => f a
  | Exited st err => Exited st err
  | Hangs => Hangs
  end.

(** ** The environment of a run *)
Record env : Type := {
  (** return value of the [sched_setaffinity] call made by the given
      context while the pair at positions [(i, j)] is measured, for the
      CPU it asks for *)
  sched_setaffinity : tid -> nat -> nat -> Z -> Z;
  (** the text [perror] derives from [errno] *)
  strerror : string;
  (** the readings [(ts1, ts2)] of sample [m] of the pair [(i, j)] *)
  stamps : nat -> nat -> nat -> timespec * timespec;
  (** [pthread_create] (line 179) has created the thread of the pair
      at [(i, j)] and the thread gets to run *)
  thread_runs : nat -> nat -> bool;
  (** every wait of the measurement of the pair at [(i, j)] comes to
      an end: the polls of the warm-up, the spins of the sample loop
      and [pthread_join]; none of them has a timeout *)
  waits_end : nat -> nat -> bool;
  (** when both pinning calls of the pair at [(i, j)] fail: the one
      that fails second still writes its line before [exit] has ended
      the process *)
  both_report : nat -> nat -> bool
}.

(** [perror(s)] writes [s], a colon, the error text and a newline. *)
Definition perror (e : env) (s : string) : string :=
  (s ++ ": " ++ strerror e ++ "
")%string.

(** ** [pinThread], lines 39-48

    [rc] is what [sched_setaffinity] returned. *)
Definition pinThread (e : env) (rc : Z) : outcome unit :=
  if (rc =? -1)%Z then Exited 1 (perror e "sched_setaffinity")
  else Returned tt.

(** The two calls of [pinThread] of a pair, made side by side: by the
    spawned thread at the start of [thread_func] (line 56) and by the
    main thread after [pthread_create] (line 184).  A call that fails
    writes its line and calls [exit(1)], which ends the process
    whatever the other context is doing.  When both fail, the line of
    the second is written as well if [second] says so.  A context that
    hangs lets the other one wait for ever. *)
Definition side_by_side (second : bool) (thread main : outcome unit)
    : outcome unit :=
  match thread, main with
  | Exited st err, Exited _ err' =>
      Exited st (if second then err ++ err' else err)
  | Exited st err, _ | _, Exited st err => Exited st err
  | Hangs, _ | _, Hangs => Hangs
  | Returned _, Returned _ => Returned tt
  end.

(** ** The loops of [main], lines 167-255 *)

(** The state of the loops: the matrix [data] (row-major, [ncpus]
    entries per row) and, as a ghost, the pairs of positions measured so
    far, most recent first. *)
Record mstate : Type := { data : list Z; measured : list (nat * nat) }.

(** [for (k = i; ...; ++k) body], run for [count] iterations. *)
Fixpoint for_loop {St : Type} (count i : nat)
    (body : nat -> St -> outcome St) (s : St) : outcome St :=
  match count with
  | O => Returned s
  | S count' => s' ← body i s; for_loop count' (i + 1) body s'
  end.

(** [for (k = lo; k < hi; ++k) body]. *)
Definition for_range {St : Type} (lo hi : nat)
    (body : nat -> St -> outcome St) (s : St) : outcome St :=
  for_loop (hi - lo) lo body s.

Section Run.

Variable e : env.
Variable cpus : list Z.
Variable nsamples : Z.

Definition ncpus : nat := length cpus.

(** [cpus[k]]. *)
Definition cpu_at (k : nat) : Z := nth k cpus 0%Z.

(** Lines 172-250 for the pair at positions [(i, j)].  The spawned
    thread, if it runs, pins itself to [cpus[i]] (line 56) while the
    main thread pins itself to [cpus[j]] (line 184); either failure
    ends the process.  A thread that does not run makes no call, and
    the main thread waits for it in vain.  With both contexts pinned
    the sample loop runs and the thread is joined, provided that every
    wait comes to an end; otherwise the measurement hangs.  The result
    is [rtt]. *)
Definition measure_pair (i j : nat) : outcome Z :=
  _ ← side_by_side (both_report e i j)
        (if thread_runs e i j
         then pinThread e (sched_setaffinity e Responder i j (cpu_at i))
         else Hangs)
        (pinThread e (sched_setaffinity e Initiator i j (cpu_at j)));
  if waits_end e i j
  then mret (sample_loop (elapsed_times (stamps e i j) nsamples))
  else Hangs.

(** The body of the inner loop, with the two writes of lines
    252-253. *)
Definition pair_body (i j : nat) (s : mstate) : outcome mstate :=
  rtt ← measure_pair i j;
  let d1 := <[(i * ncpus + j)%nat := per_hop rtt]> (data s) in
  let d2 := <[(j * ncpus + i)%nat := per_hop rtt]> d1 in
  mret {| data := d2; measured := (i, j) :: measured s |}.

(** Line 170: [for (j = i + 1; j < ncpus; ++j)]. *)
Definition inner_loop (i : nat) (s : mstate) : outcome mstate :=
  for_range (i + 1) ncpus (pair_body i) s.

(** Line 167: [calloc(ncpus * ncpus, sizeof(long long))]; nothing is
    measured yet. *)
Definition start : mstate :=
  {| data := replicate (ncpus * ncpus) 0%Z; measured := [] |}.

(** Line 169: [for (i = 0; i < ncpus; ++i)]. *)
Definition main_loops : outcome mstate :=
  for_range 0 ncpus inner_loop start.

(** The matrix entry at row [i], column [j]. *)
Definition entry (d : list Z) (i j : nat) : option Z :=
  d !! (i * ncpus + j)%nat.

(** Every pinning call of the run succeeds. *)
Definition pins_succeed : Prop :=
  forall who i j cpu, sched_setaffinity e who i j cpu <> (-1)%Z.

(** Every thread runs and every wait comes to an end. *)
Definition measurements_end : Prop :=
  forall i j, thread_runs e i j = true /\ waits_end e i j = true.

(** The value the code derives for the pair at [(i, j)]. *)
Definition latency (i j : nat) : Z :=
  pair_latency (stamps e i j) nsamples.

(** The pairs the loops visit, in order. *)
Definition pairs_from (i count : nat) : list (nat * nat) :=
  flat_map (fun a => map (pair a) (seq (a + 1) (ncpus - (a + 1))))
           (seq i count).
Definition all_pairs : list (nat * nat) := pairs_from 0 ncpus.

(** The loops as one pass over a list of pairs. *)
Fixpoint run_pairs (ps : list (nat * nat)) (s : mstate) : outcome mstate :=
  match ps with
  | [] => Returned s
  | p :: ps' => s' ← pair_body p.1 p.2 s; run_pairs ps' s'
  end.

(** The two writes for one pair, without the error path. *)
Definition write_pair (d : list Z) (p : nat * nat) : list Z :=
  <[(p.2 * ncpus + p.1)%nat := latency p.1 p.2]>
    (<[(p.1 * ncpus + p.2)%nat := latency p.1 p.2]> d).

(** The call of the given context for the pair at [p] fails. *)
Definition pin_fails (who : tid) (p : nat * nat) : bool :=
  (sched_setaffinity e who p.1 p.2
     (cpu_at match who with Responder => p.1 | Initiator => p.2 end)
   =? -1)%Z.

(** Both pinning calls of the pair at [p] succeed. *)
Definition pair_ok (p : nat * nat) : bool :=
  negb (pin_fails Responder p) && negb (pin_fails Initiator p).

(** The measurement of the pair at [p] returns. *)
Definition returns (p : nat * nat) : bool :=
  thread_runs e p.1 p.2 && pair_ok p && waits_end e p.1 p.2.

(** The loops reach the pair at [p]: the measurements of the pairs
    before it have returned. *)
Definition reached (p : nat * nat) : Prop :=
  exists before after,
    all_pairs = before ++ p :: after /\ forallb returns before = true.

(** The effect of a pair whose measurement returns. *)
Definition step_pair (s : mstate) (p : nat * nat) : mstate :=
  {| data := write_pair (data s) p;
     measured := p :: measured s |}.

(** The line [pinThread] writes before it ends the process. *)
Definition pin_line : string := perror e "sched_setaffinity".

End Run.

End Builder.

(* ================================================================== *)
(** * Part II: the concurrent view of one pair measurement *)
(* ================================================================== *)

Module Protocol.

Import Clock Sampler.
Local Open Scope Z_scope.

(** What one pair measurement reads of the options of the run
    ([thread_args_t] without the cells and the CPU). *)
Record config : Type := { nsamples : Z; use_write : bool; preheat : bool }.

(** The two shared cells of lines 172-173. *)
Inductive cell : Type := Seq1 | Seq2.

(** What a step leaves in the trace.  [m] is the sample index of the
    loop of line 70 (spawned thread) or line 198 (main thread); [now] is
    the reading of the monotonic clock in nanoseconds. *)
Inductive event : Type :=
| EvPin (t : tid)
| EvWarmStart (t : tid) (now : Z)
| EvWarmEnd (t : tid) (now : Z)
| EvStore (t : tid) (c : cell) (v : Z) (m : Z)
| EvSpinExit (t : tid) (c : cell) (v : Z) (m : Z)
| EvCas (t : tid) (old new : Z) (m : Z)
| EvTs1 (m : Z) (now : Z)
| EvTs2 (m : Z) (now : Z)
| EvJoin.

(** Program points of the main thread, lines 184-250.  Loop tests on
    local variables are folded into the step before them. *)
Inductive main_pc : Type :=
| MPin                          (* 184: pinThread(cpus[j]) *)
| MWarmStart                    (* 187: read start *)
| MWarmPoll (start : timespec)  (* 188-195: poll the clock *)
| MReset1 (m : Z)               (* 199: seq1 = -1 *)
| MReset2 (m : Z)               (* 200: seq2 = -1 *)
| MReady0 (m : Z)               (* 220: seq2 = 0 *)
| MReadyWait (m : Z)            (* 222-224: while (seq2 == 0) *)
| MReadyClear (m : Z)           (* 225: seq2 = -1 *)
| MTs1 (m : Z)                  (* 202 / 227: read ts1 *)
| MStore (m n : Z)              (* 204: seq1 = n *)
| MWait (m n : Z)               (* 206-209: while (seq2 != n) *)
| MCas (m n : Z)                (* 230-234: CAS seq1, 2n-1 -> 2n *)
| MLast (m : Z)                 (* 237-239: while (seq1 != 199) *)
| MTs2 (m : Z)                  (* 211 / 240: read ts2, update rtt *)
| MJoin                         (* 250: pthread_join *)
| MDone.

(** Program points of the spawned thread, [thread_func], lines 56-93. *)
Inductive thread_pc : Type :=
| TPin                          (* 56: pinThread(args->cpu) *)
| TWarmStart                    (* 60 *)
| TWarmPoll (start : timespec)  (* 61-67 *)
| TWait (m n : Z)               (* 73-75: while (seq1 != n) *)
| TAck (m n : Z)                (* 76: seq2 = n *)
| TReadyWait (m : Z)            (* 80-81: while (seq2 != 0) *)
| TReadySet (m : Z)             (* 82: seq2 = 1 *)
| TCas (m n : Z)                (* 86-89: CAS seq1, 2n -> 2n+1 *)
| TDone.                        (* 93: return NULL *)

(** The state of one pair measurement.  [log] is the trace, most recent
    event first. *)
Record state : Type := {
  seq1 : Z;
  seq2 : Z;
  clock : Z;
  main : main_pc;
  thread : thread_pc;
  ts1 : timespec;
  rtt : Z;
  log : list event
}.

(** Lines 172-173 and 182, with the thread just created (line 179).  The
    origin of the monotonic clock is arbitrary; it is taken as 0. *)
Definition init : state :=
  {| seq1 := -1; seq2 := -1; clock := 0; main := MPin; thread := TPin;
     ts1 := clock_gettime 0; rtt := -1; log := [] |}.

(** The updates of the state a step is made of: a store into a cell,
    a jump of either context, an event added to the trace, [ts1] and
    [rtt] of the main thread. *)
Definition store (c : cell) (v : Z) (s : state) : state :=
  {| seq1 := match c with Seq1 => v | Seq2 => seq1 s end;
     seq2 := match c with Seq1 => seq2 s | Seq2 => v end;
     clock := clock s; main := main s; thread := thread s;
     ts1 := ts1 s; rtt := rtt s; log := log s |}.

Definition main_goto (p : main_pc) (s : state) : state :=
  {| seq1 := seq1 s; seq2 := seq2 s; clock := clock s; main := p;
     thread := thread s; ts1 := ts1 s; rtt := rtt s; log := log s |}.

Definition thread_goto (p : thread_pc) (s : state) : state :=
  {| seq1 := seq1 s; seq2 := seq2 s; clock := clock s; main := main s;
     thread := p; ts1 := ts1 s; rtt := rtt s; log := log s |}.

Definition emit (e : event) (s : state) : state :=
  {| seq1 := seq1 s; seq2 := seq2 s; clock := clock s; main := main s;
     thread := thread s; ts1 := ts1 s; rtt := rtt s; log := e :: log s |}.

Definition set_ts1 (t : timespec) (s : state) : state :=
  {| seq1 := seq1 s; seq2 := seq2 s; clock := clock s; main := main s;
     thread := thread s; ts1 := t; rtt := rtt s; log := log s |}.

Definition set_rtt (r : Z) (s : state) : state :=
  {| seq1 := seq1 s; seq2 := seq2 s; clock := clock s; main := main s;
     thread := thread s; ts1 := ts1 s; rtt := r; log := log s |}.

(** The monotonic clock advances by [dt] nanoseconds. *)
Definition tick (dt : N) (s : state) : state :=
  {| seq1 := seq1 s; seq2 := seq2 s; clock := clock s + Z.of_N dt;
     main := main s; thread := thread s; ts1 := ts1 s; rtt := rtt s;
     log := log s |}.

(** Where the main thread goes when sample [m] is about to start:
    [m < nsamples] of line 198. *)
Definition main_enter (c : config) (m : Z) : main_pc :=
  if m <? nsamples c then MReset1 m else MJoin.

(** The same for the spawned thread, lines 70-71. *)
Definition thread_enter (c : config) (m : Z) : thread_pc :=
  if m <? nsamples c
  then if use_write c then TReadyWait m else TWait m 0
  else TDone.

(** The warm-up test of lines 63-64 and 190-192: the elapsed time, in
    [double], is compared with 200000000. *)
Definition warm (start now : timespec) : bool :=
  200000000 <=? elapsed_double start now.

(** One step of the main thread: one atomic operation or one clock
    reading, with the local computation that follows it.  A spin that has
    to go round again leaves the state as it is, and so does an exchange
    that fails: [cmp], overwritten with the value found, is reloaded
    before the next attempt (line 231).  Pinning succeeds here; its
    failure is the fatal path of [pinThread] in Part I. *)
Definition main_step (c : config) (s : state) : state :=
  match main s with
  | MPin =>
      emit (EvPin Initiator)
        (main_goto (if preheat c then MWarmStart else main_enter c 0) s)
  | MWarmStart =>
      emit (EvWarmStart Initiator (clock s))
        (main_goto (MWarmPoll (clock_gettime (clock s))) s)
  | MWarmPoll start =>
      if warm start (clock_gettime (clock s))
      then emit (EvWarmEnd Initiator (clock s))
             (main_goto (main_enter c 0) s)
      else s
  | MReset1 m =>
      emit (EvStore Initiator Seq1 (-1) m)
        (main_goto (MReset2 m) (store Seq1 (-1) s))
  | MReset2 m =>
      emit (EvStore Initiator Seq2 (-1) m)
        (main_goto (if use_write c then MReady0 m else MTs1 m)
           (store Seq2 (-1) s))
  | MReady0 m =>
      emit (EvStore Initiator Seq2 0 m)
        (main_goto (MReadyWait m) (store Seq2 0 s))
  | MReadyWait m =>
      if seq2 s =? 0 then s
      else emit (EvSpinExit Initiator Seq2 (seq2 s) m)
             (main_goto (MReadyClear m) s)
  | MReadyClear m =>
      emit (EvStore Initiator Seq2 (-1) m)
        (main_goto (MTs1 m) (store Seq2 (-1) s))
  | MTs1 m =>
      emit (EvTs1 m (clock s))
        (main_goto (if use_write c then MCas m 0 else MStore m 0)
           (set_ts1 (clock_gettime (clock s)) s))
  | MStore m n =>
      emit (EvStore Initiator Seq1 n m)
        (main_goto (MWait m n) (store Seq1 n s))
  | MWait m n =>
      if seq2 s =? n
      then emit (EvSpinExit Initiator Seq2 n m)
             (main_goto (if n + 1 <? 100 then MStore m (n + 1) else MTs2 m)
                s)
      else s
  | MCas m n =>
      if seq1 s =? 2 * n - 1
      then emit (EvCas Initiator (2 * n - 1) (2 * n - 1 + 1) m)
             (main_goto (if n + 1 <? 100 then MCas m (n + 1) else MLast m)
                (store Seq1 (2 * n - 1 + 1) s))
      else s
  | MLast m =>
      if seq1 s =? 199
      then emit (EvSpinExit Initiator Seq1 199 m) (main_goto (MTs2 m) s)
      else s
  | MTs2 m =>
      emit (EvTs2 m (clock s))
        (main_goto (main_enter c (m + 1))
           (set_rtt
              (update_rtt (rtt s)
                 (elapsed_ns (ts1 s) (clock_gettime (clock s)))) s))
  | MJoin =>
      match thread s with
      | TDone => emit EvJoin (main_goto MDone s)
      | _ => s
      end
  | MDone => s
  end.

(** One step of the spawned thread, in the same way (the reload of
    [cmp] is line 87). *)
Definition thread_step (c : config) (s : state) : state :=
  match thread s with
  | TPin =>
      emit (EvPin Responder)
        (thread_goto (if preheat c then TWarmStart else thread_enter c 0) s)
  | TWarmStart =>
      emit (EvWarmStart Responder (clock s))
        (thread_goto (TWarmPoll (clock_gettime (clock s))) s)
  | TWarmPoll start =>
      if warm start (clock_gettime (clock s))
      then emit (EvWarmEnd Responder (clock s))
             (thread_goto (thread_enter c 0) s)
      else s
  | TWait m n =>
      if seq1 s =? n
      then emit (EvSpinExit Responder Seq1 n m) (thread_goto (TAck m n) s)
      else s
  | TAck m n =>
      emit (EvStore Responder Seq2 n m)
        (thread_goto
           (if n + 1 <? 100 then TWait m (n + 1) else thread_enter c (m + 1))
           (store Seq2 n s))
  | TReadyWait m =>
      if seq2 s =? 0
      then emit (EvSpinExit Responder Seq2 0 m)
             (thread_goto (TReadySet m) s)
      else s
  | TReadySet m =>
      emit (EvStore Responder Seq2 1 m)
        (thread_goto (TCas m 0) (store Seq2 1 s))
  | TCas m n =>
      if seq1 s =? 2 * n
      then emit (EvCas Responder (2 * n) (2 * n + 1) m)
             (thread_goto
                (if n + 1 <? 100 then TCas m (n + 1)
                 else thread_enter c (m + 1))
                (store Seq1 (2 * n + 1) s))
      else s
  | TDone => s
  end.

(** A schedule names, step by step, the context that runs next and by
    how much the clock has advanced since the step before. *)
Definition schedule : Type := list (tid * N).

Definition step (c : config) (s : state) (x : tid * N) : state :=
  match x.1 with
  | Initiator => main_step c (tick x.2 s)
  | Responder => thread_step c (tick x.2 s)
  end.

Definition run (c : config) (sched : schedule) : state :=
  fold_left (step c) sched init.

(** The trace of a run, oldest event first. *)
Definition trace (c : config) (sched : schedule) : list event :=
  rev (log (run c sched)).

(** The value the main thread writes into [data] once it has joined. *)
Definition result (s : state) : Z := per_hop (rtt s).

(** ** The vocabulary of the properties *)

(** The exchanges of one sample of the compare-and-exchange protocol in
    the order the specification gives them: for [n = 0 .. 99] the main
    thread takes [seq1] from [2n - 1] to [2n], then the spawned thread
    from [2n] to [2n + 1]. *)
Definition cas_chain (m : Z) : list event :=
  flat_map
    (fun n => [EvCas Initiator (2 * n - 1) (2 * n) m;
               EvCas Responder (2 * n) (2 * n + 1) m])
    (map Z.of_nat (seq 0 100)).
Arguments cas_chain : simpl never.

(** The readiness barrier of one sample, from the spawned thread seeing
    the 0 of the main thread up to the start timestamp read at [t]. *)
Definition barrier (m t : Z) : list event :=
  [EvSpinExit Responder Seq2 0 m; EvStore Responder Seq2 1 m;
   EvSpinExit Initiator Seq2 1 m; EvStore Initiator Seq2 (-1) m;
   EvTs1 m t].

Definition tid_eqb (a b : tid) : bool :=
  match a, b with
  | Initiator, Initiator | Responder, Responder => true
  | _, _ => false
  end.

(** The events of the warm-up of context [t]. *)
Definition is_warm (t : tid) (e : event) : bool :=
  match e with
  | EvWarmStart t' _ | EvWarmEnd t' _ => tid_eqb t t'
  | _ => false
  end.

(** The events of the sample loop of context [t]; the timestamps are
    the main thread's. *)
Definition in_sample (t : tid) (e : event) : bool :=
  match e with
  | EvStore t' _ _ _ | EvSpinExit t' _ _ _ | EvCas t' _ _ _ => tid_eqb t t'
  | EvTs1 _ _ | EvTs2 _ _ => tid_eqb t Initiator
  | _ => false
  end.

(** The warm-up events of [t] in a trace. *)
Definition warm_events (t : tid) (tr : list event) : list event :=
  List.filter (is_warm t) tr.

(** The peer of a context. *)
Definition other (t : tid) : tid :=
  match t with Initiator => Responder | Responder => Initiator end.

(** What must stand in the trace before an event that ends a wait:
    the peer's write of the value the wait was for, in the same sample.
    - flag exchange: the spawned thread leaves its spin on [seq1 == n]
      after the main thread's store of [n] into [seq1]; the main thread
      leaves its spin on [seq2 == n] after the spawned thread's store of
      [n] into [seq2];
    - compare-and-exchange: the spawned thread leaves its spin on
      [seq2 == 0] after the main thread's store of 0; the main thread
      leaves its spin on [seq2 != 0] reading the 1 the spawned thread
      stored, and its spin on [seq1 == 199] after the spawned thread's
      exchange 198 -> 199; an exchange from [old >= 0] succeeds after
      the peer's exchange that wrote [old] (the main thread's first
      exchange finds the -1 of its own reset). *)
Definition waits_for_peer (c : config) (e : event) (pre : list event)
    : Prop :=
  match e with
  | EvSpinExit Responder Seq1 n m =>
      use_write c = false /\ In (EvStore Initiator Seq1 n m) pre
  | EvSpinExit Initiator Seq2 n m =>
      if use_write c
      then n = 1 /\ In (EvStore Responder Seq2 1 m) pre
      else In (EvStore Responder Seq2 n m) pre
  | EvSpinExit Responder Seq2 v m =>
      use_write c = true /\ v = 0 /\ In (EvStore Initiator Seq2 0 m) pre
  | EvSpinExit Initiator Seq1 v m =>
      use_write c = true /\ v = 199 /\ In (EvCas Responder 198 199 m) pre
  | EvCas t old new m =>
      use_write c = true /\ new = old + 1 /\
      (0 <= old -> In (EvCas (other t) (old - 1) old m) pre)
  | _ => True
  end.

(** The clock reading of the most recent start timestamp in a trace
    (most recent event first); 0, the origin, before the first. *)
Fixpoint last_ts1 (lg : list event) : Z :=
  match lg with
  | [] => 0
  | EvTs1 _ t :: _ => t
  | _ :: lg' => last_ts1 lg'
  end.

(** The elapsed times of the samples completed in a trace (most recent
    first): each end timestamp minus the start timestamp before it. *)
Fixpoint window_log (lg : list event) : list Z :=
  match lg with
  | [] => []
  | EvTs2 _ t :: lg' => (t - last_ts1 lg') :: window_log lg'
  | _ :: lg' => window_log lg'
  end.

(** The elapsed times a run has observed, first sample first. *)
Definition observed (c : config) (sched : schedule) : list Z :=
  rev (window_log (log (run c sched))).

(** The shape of the warm-up events of a context in any trace. *)
Definition warm_shape (t : tid) (evs : list event) : Prop :=
  evs = [] \/ (exists t0, evs = [EvWarmStart t t0]) \/
  exists t0 t1, evs = [EvWarmStart t t0; EvWarmEnd t t1] /\
                200000000 <= t1 - t0.

(** Every start timestamp of a run comes after the complete warm-up
    of both contexts. *)
Definition warmup_before_timing (c : config) (sched : schedule) : Prop :=
  forall t pre m ts post,
    trace c sched = pre ++ EvTs1 m ts :: post ->
    exists t0 t1,
      warm_events t pre = [EvWarmStart t t0; EvWarmEnd t t1] /\
      200000000 <= t1 - t0.

End Protocol.

(* ================================================================== *)
(** * Invariants of the protocols *)
(* ================================================================== *)

Module Invariants.

Import Clock Sampler Protocol.
Local Open Scope Z_scope.

(** ** Where the spawned thread can stand *)

Definition thread_starting (p : thread_pc) : Prop :=
  match p with TPin | TWarmStart | TWarmPoll _ => True | _ => False end.

(** The thread has completed the samples before [m] and none after: it
    is about to enter sample [m], or, for [m = 0], still on its way
    there. *)
Definition thread_at (c : config) (m : Z) (p : thread_pc) : Prop :=
  (m = 0 /\ thread_starting p) \/ p = thread_enter c m.

(** Where the thread goes once it has answered step [n] of sample [m]
    in the flag exchange. *)
Definition thread_next (c : config) (m n : Z) : thread_pc :=
  if n + 1 <? 100 then TWait m (n + 1) else thread_enter c (m + 1).

(** ** The flag exchange: joint invariant

    For each program point of the main thread, what [seq1] holds and
    where the spawned thread can be.  While the main thread waits for
    the answer to step [n], either the answer is still to come or it is
    in [seq2] and in the trace. *)
Definition flag_inv (c : config) (s : state) : Prop :=
  let p := thread s in
  match main s with
  | MPin | MWarmStart | MWarmPoll _ => seq1 s = -1 /\ thread_at c 0 p
  | MReset1 m => 0 <= m < nsamples c /\ seq1 s <> 0 /\ thread_at c m p
  | MReset2 m =>
      0 <= m < nsamples c /\ seq1 s = -1 /\ thread_at c m p
  | MTs1 m =>
      0 <= m < nsamples c /\ seq1 s = -1 /\ seq2 s = -1 /\ thread_at c m p
  | MStore m n =>
      0 <= m < nsamples c /\ 0 <= n < 100 /\
      seq1 s = n - 1 /\ seq2 s = n - 1 /\
      ((n = 0 /\ thread_at c m p) \/ p = TWait m n)
  | MWait m n =>
      0 <= m < nsamples c /\ 0 <= n < 100 /\ seq1 s = n /\
      In (EvStore Initiator Seq1 n m) (log s) /\
      ((seq2 s <> n /\
        ((n = 0 /\ thread_at c m p) \/ p = TWait m n \/ p = TAck m n)) \/
       (seq2 s = n /\ In (EvStore Responder Seq2 n m) (log s) /\
        p = thread_next c m n))
  | MTs2 m =>
      0 <= m < nsamples c /\ seq1 s = 99 /\ p = thread_enter c (m + 1)
  | MJoin => (nsamples c <= 0 /\ thread_starting p) \/ p = TDone
  | MDone => p = TDone
  | MReady0 _ | MReadyWait _ | MReadyClear _ | MCas _ _ | MLast _ => False
  end.

(** What the trace holds when a step of the flag exchange adds the
    event [e] to it. *)
Definition flag_before (e : event) (lg : list event) : Prop :=
  match e with
  | EvSpinExit Responder Seq1 n m => In (EvStore Initiator Seq1 n m) lg
  | EvSpinExit Initiator Seq2 n m => In (EvStore Responder Seq2 n m) lg
  | EvSpinExit _ _ _ _ | EvCas _ _ _ _ => False
  | _ => True
  end.

(** ** The compare-and-exchange protocol: the trace of a sample *)

(** The [k]-th successful exchange of sample [m] takes [seq1] from
    [k - 1] to [k]; the even ones are the main thread's. *)
Definition cas_ev (m k : Z) : event :=
  EvCas (if Z.even k then Initiator else Responder) (k - 1) k m.

(** The first [k] exchanges of sample [m], most recent first. *)
Fixpoint cas_prefix (m : Z) (k : nat) : list event :=
  match k with
  | O => []
  | S k' => cas_ev m (Z.of_nat k') :: cas_prefix m k'
  end.

Definition cas_log (m k : Z) : list event := cas_prefix m (Z.to_nat k).
Arguments cas_log : simpl never.

(** The readiness barrier of sample [m] as it stands in the trace, most
    recent first, above the rest of the trace. *)
Definition barrier_log (m : Z) (rest : list event) : list event :=
  EvStore Initiator Seq2 (-1) m :: EvSpinExit Initiator Seq2 1 m ::
  EvStore Responder Seq2 1 m :: EvSpinExit Responder Seq2 0 m :: rest.

(** The trace holds the barrier of sample [m], the start timestamp and
    the first [k] exchanges, and nothing else since. *)
Definition timed_log (m k : Z) (lg : list event) : Prop :=
  exists t rest,
    lg = cas_log m k ++ EvTs1 m t :: barrier_log m rest /\
    In (EvStore Initiator Seq2 0 m) rest.

(** What the trace holds when a step adds the event [e] to it. *)
Definition cas_before (e : event) (lg : list event) : Prop :=
  match e with
  | EvSpinExit Responder Seq2 v m =>
      v = 0 /\ In (EvStore Initiator Seq2 0 m) lg
  | EvSpinExit Initiator Seq2 v m =>
      v = 1 /\ In (EvStore Responder Seq2 1 m) lg
  | EvSpinExit Initiator Seq1 v m =>
      v = 199 /\ timed_log m 200 lg
  | EvCas t old new m =>
      new = old + 1 /\ -1 <= old < 199 /\
      t = (if Z.even new then Initiator else Responder) /\
      timed_log m new lg
  | EvTs1 m t =>
      exists rest, lg = barrier_log m rest /\
                   In (EvStore Initiator Seq2 0 m) rest
  | EvSpinExit _ Seq1 _ _ => False
  | _ => True
  end.

(** ** Joint invariant *)
Definition cas_inv (c : config) (s : state) : Prop :=
  let p := thread s in
  let lg := log s in
  -1 <= seq1 s <= 199 /\
  match main s with
  | MPin | MWarmStart | MWarmPoll _ => seq2 s = -1 /\ thread_at c 0 p
  | MReset1 m => 0 <= m < nsamples c /\ seq2 s = -1 /\ thread_at c m p
  | MReset2 m | MReady0 m =>
      0 <= m < nsamples c /\ seq1 s = -1 /\ seq2 s = -1 /\ thread_at c m p
  | MReadyWait m =>
      0 <= m < nsamples c /\ seq1 s = -1 /\
      ((seq2 s = 0 /\ thread_at c m p /\
        In (EvStore Initiator Seq2 0 m) lg) \/
       (seq2 s = 0 /\ p = TReadySet m /\
        exists rest, lg = EvSpinExit Responder Seq2 0 m :: rest /\
                     In (EvStore Initiator Seq2 0 m) rest) \/
       (seq2 s = 1 /\ p = TCas m 0 /\
        exists rest, lg = EvStore Responder Seq2 1 m ::
                          EvSpinExit Responder Seq2 0 m :: rest /\
                     In (EvStore Initiator Seq2 0 m) rest))
  | MReadyClear m =>
      0 <= m < nsamples c /\ seq1 s = -1 /\ p = TCas m 0 /\
      exists rest, lg = EvSpinExit Initiator Seq2 1 m ::
                        EvStore Responder Seq2 1 m ::
                        EvSpinExit Responder Seq2 0 m :: rest /\
                   In (EvStore Initiator Seq2 0 m) rest
  | MTs1 m =>
      0 <= m < nsamples c /\ seq1 s = -1 /\ seq2 s = -1 /\ p = TCas m 0 /\
      exists rest, lg = barrier_log m rest /\
                   In (EvStore Initiator Seq2 0 m) rest
  | MCas m n =>
      0 <= m < nsamples c /\ 0 <= n < 100 /\ seq2 s = -1 /\
      timed_log m (seq1 s + 1) lg /\
      ((seq1 s = 2 * n - 1 /\ p = TCas m n) \/
       (0 < n /\ seq1 s = 2 * (n - 1) /\ p = TCas m (n - 1)))
  | MLast m =>
      0 <= m < nsamples c /\ seq2 s = -1 /\
      timed_log m (seq1 s + 1) lg /\
      ((seq1 s = 2 * 99 /\ p = TCas m 99) \/
       (seq1 s = 199 /\ p = thread_enter c (m + 1)))
  | MTs2 m =>
      0 <= m < nsamples c /\ seq1 s = 199 /\ seq2 s = -1 /\
      p = thread_enter c (m + 1) /\
      exists lg', lg = EvSpinExit Initiator Seq1 199 m :: lg' /\
                  timed_log m 200 lg'
  | MJoin => (nsamples c <= 0 /\ thread_starting p) \/ p = TDone
  | MDone => p = TDone
  | MStore _ _ | MWait _ _ => False
  end.

(** ** The warm-up in the trace *)

(** The trace of a context that has left its prologue (most recent
    event first): with [-H] one complete warm-up of at least 200 ms,
    without it none. *)
Definition warmed (c : config) (t : tid) (lg : list event) : Prop :=
  if preheat c
  then exists t0 t1,
         List.filter (is_warm t) lg = [EvWarmEnd t t1; EvWarmStart t t0] /\
         200000000 <= t1 - t0
  else List.filter (is_warm t) lg = [].

(** A context still polling the clock has started its warm-up and not
    entered its sample loop. *)
Definition warming (c : config) (t : tid) (start : timespec)
    (lg : list event) : Prop :=
  preheat c = true /\
  exists t0, start = clock_gettime t0 /\
             List.filter (is_warm t) lg = [EvWarmStart t t0] /\
             List.filter (in_sample t) lg = [].

Definition fresh (t : tid) (lg : list event) : Prop :=
  List.filter (is_warm t) lg = [] /\ List.filter (in_sample t) lg = [].

(** What the trace must hold for the main thread standing at [p]. *)
Definition main_warm (c : config) (p : main_pc) (lg : list event) : Prop :=
  match p with
  | MPin => fresh Initiator lg
  | MWarmStart => preheat c = true /\ fresh Initiator lg
  | MWarmPoll start => warming c Initiator start lg
  | _ => warmed c Initiator lg
  end.

(** The same for the spawned thread. *)
Definition thread_warm (c : config) (p : thread_pc) (lg : list event)
    : Prop :=
  match p with
  | TPin => fresh Responder lg
  | TWarmStart => preheat c = true /\ fresh Responder lg
  | TWarmPoll start => warming c Responder start lg
  | _ => warmed c Responder lg
  end.

Definition warm_inv (c : config) (s : state) : Prop :=
  main_warm c (main s) (log s) /\ thread_warm c (thread s) (log s).

(** The main thread gets past [pthread_join] only when the spawned
    thread has returned. *)
Definition joined_inv (s : state) : Prop :=
  main s = MDone -> thread s = TDone.

(** ** Timing

    The clock never runs backwards, the start timestamp the main thread
    holds is the last one in the trace and no window in the trace is
    negative.  While the clock is below 2^53 ns, [rtt] is the running
    minimum of the windows in the trace; while it is more than 2048 ns
    short of 2^63 ns,
    [rtt] is -1 or the elapsed time of a sample, which is not
    negative. *)
Definition timing_inv (s : state) : Prop :=
  0 <= last_ts1 (log s) <= clock s /\
  ts1 s = clock_gettime (last_ts1 (log s)) /\
  Forall (fun e => 0 <= e) (window_log (log s)) /\
  (clock s < 2 ^ 53 ->
   rtt s = fold_right (fun e r => update_rtt r e) (-1)
             (window_log (log s))) /\
  (clock s < 2 ^ 63 - 2048 -> -1 <= rtt s).

(** With no sample to take, both contexts only pass through their
    prologue. *)
Definition idle_inv (s : state) : Prop :=
  rtt s = -1 /\
  match main s with
  | MPin | MWarmStart | MWarmPoll _ | MJoin | MDone => True
  | _ => False
  end /\
  match thread s with
  | TPin | TWarmStart | TWarmPoll _ | TDone => True
  | _ => False
  end /\
  Forall (fun e => in_sample Initiator e = false /\
                   in_sample Responder e = false) (log s).

End Invariants.

(* ================================================================== *)
(** * Concrete runs *)
(* ================================================================== *)

Module Scenario.

Import Clock Sampler Builder Protocol.

(** Three CPUs, three samples per pair.  Every pinning call succeeds;
    sample [m] of the pair at [(i, j)] takes
    [20000 + 1000 (i + j) + 400 ((m + 1) mod 3)] nanoseconds, so the
    fastest sample of each pair is its last. *)
Definition env3 : env :=
  {| sched_setaffinity := fun _ _ _ _ => 0%Z;
     strerror := "Invalid argument";
     stamps := fun i j m =>
       ({| tv_sec := 5; tv_nsec := 999990000 |},
        {| tv_sec := 6;
           tv_nsec := 10000 + 1000 * Z.of_nat (i + j)
                      + 400 * Z.of_nat ((m + 1) mod 3) |});
     thread_runs := fun _ _ => true;
     waits_end := fun _ _ => true;
     both_report := fun _ _ => false |}%Z.

Definition cpus3 : list Z := [0; 1; 2]%Z.

(** The elapsed times of the samples of the pair at [(0, 1)]. *)
Definition elapsed3 (m : nat) : Z :=
  (21000 + 400 * Z.of_nat ((m + 1) mod 3))%Z.

(** The state [main_loops] returns for [env3], [cpus3] and 3 samples. *)
Definition final3 : mstate :=
  {| data := [0; 105; 110; 105; 0; 115; 110; 115; 0]%Z;
     measured := [(1, 2); (0, 2); (0, 1)] |}.

(** The same with no sample at all ([-s 0]). *)
Definition final3_nosample : mstate :=
  {| data := [0; 0; 0; 0; 0; 0; 0; 0; 0]%Z;
     measured := [(1, 2); (0, 2); (0, 1)] |}.

(** As [env3], but the main thread cannot be pinned to [cpus[2]] for
    the pair at [(0, 2)]. *)
Definition env3_unpinned : env :=
  {| sched_setaffinity := fun who i j _ =>
       match who, i, j with
       | Initiator, 0, 2 => (-1)%Z
       | _, _, _ => 0%Z
       end;
     strerror := "Invalid argument";
     stamps := stamps env3;
     thread_runs := fun _ _ => true;
     waits_end := fun _ _ => true;
     both_report := fun _ _ => false |}.

(** As [env3], but neither context can be pinned for the pair at
    [(0, 2)], and both calls write their line. *)
Definition env3_both_unpinned : env :=
  {| sched_setaffinity := fun who i j _ =>
       match i, j with
       | 0, 2 => (-1)%Z
       | _, _ => 0%Z
       end;
     strerror := "Invalid argument";
     stamps := stamps env3;
     thread_runs := fun _ _ => true;
     waits_end := fun _ _ => true;
     both_report := fun _ _ => true |}.


(** Two CPUs and one sample, whose window is of [sec] seconds and
    [nsec] nanoseconds. *)
Definition env_window (sec nsec : Z) : env :=
  {| sched_setaffinity := fun _ _ _ _ => 0%Z;
     strerror := "Invalid argument";
     stamps := fun _ _ _ =>
       ({| tv_sec := 0; tv_nsec := 0 |},
        {| tv_sec := sec; tv_nsec := nsec |});
     thread_runs := fun _ _ => true;
     waits_end := fun _ _ => true;
     both_report := fun _ _ => false |}.

Definition cpus2 : list Z := [0; 1]%Z.

(** A window of 2^53 + 7 ns: the sum is rounded to a multiple of 2. *)
Definition env_first : env := env_window 9007199 254740999.

Definition final_first : mstate :=
  {| data := [0; 45035996273705; 45035996273705; 0]%Z;
     measured := [(0, 1)] |}.

(** A window of 80000000000000200 ns, beyond 2^53: the sum is rounded
    to a multiple of 16. *)
Definition env_long : env := env_window 80000000 200.

Definition final_long : mstate :=
  {| data := [0; 400000000000000; 400000000000000; 0]%Z;
     measured := [(0, 1)] |}.

(** A window of 2^63 ns: the conversion to [long long] is out of
    range. *)
Definition env_overflow : env := env_window 9223372036 854775808.

(** A window of 2^63 - 512 ns: the sum is rounded up to 2^63. *)
Definition env_edge : env := env_window 9223372036 854775296.

Definition final_overflow : mstate :=
  {| data := [0; -46116860184273879; -46116860184273879; 0]%Z;
     measured := [(0, 1)] |}.

(** Both contexts take turns, the clock advancing by [dt] before each
    step. *)
Definition round_robin (rounds : nat) (dt : N) : schedule :=
  concat (replicate rounds [(Initiator, dt); (Responder, dt)]).

(** One sample of the flag exchange, with warm-up. *)
Definition flag1 : config :=
  {| nsamples := 1; use_write := false; preheat := true |}.

(** One sample of the compare-and-exchange protocol, with warm-up. *)
Definition cas1 : config :=
  {| nsamples := 1; use_write := true; preheat := true |}.

(** A run to completion of either protocol: 50 ms between steps let
    the warm-up end with the fifth poll. *)
Definition fair : schedule := round_robin 450 50000000.

(** The spawned thread is scheduled 50 ms after the main thread has
    started its warm-up: the main thread ends its warm-up and opens the
    timed window of sample 0 while the spawned thread is still polling
    the clock. *)
Definition late_thread : schedule :=
  [(Initiator, 0); (Initiator, 0);
   (Responder, 50000000); (Responder, 0);
   (Initiator, 150000000); (Initiator, 10); (Initiator, 10);
   (Initiator, 10); (Initiator, 10);
   (Responder, 49999960)]%N
  ++ round_robin 450 10.

End Scenario.

(* ================================================================== *)
(** * Part III: the rest of [main] *)
(* ================================================================== *)

(** ** The command line, lines 99-147 *)

Module Cli.

Import Builder.
Local Open Scope Z_scope.

(** The local variables of [main] the options set.  The four [int]
    flags only ever hold 0 or 1. *)
Record options : Type := {
  nsamples : Z;
  plot : bool;
  smt : bool;
  use_write : bool;
  preheat : bool;
  name : option string
}.

(** Their initial values, lines 99-104. *)
Definition defaults : options :=
  {| nsamples := 1000; plot := false; smt := false; use_write := false;
     preheat := false; name := None |}.

(** One call of [getopt(argc, argv, "Hn:ps:tw")] that did not return
    -1: the character returned, [optarg], and what the call itself
    wrote to [stderr] (its diagnostic for an option it rejects). *)
Record getopt_call : Type := {
  opt : ascii;
  optarg : string;
  diagnostic : string
}.

(** What the C library contributes to the parsing of one command line:
    the calls of [getopt] in order, [optind] when it has returned -1,
    [argc], and [atoi]. *)
Record command_line : Type := {
  calls : list getopt_call;
  optind : Z;
  argc : Z;
  atoi : string -> Z
}.

Definition nl : string := String "010"%char EmptyString.

(** The six [fprintf(stderr, ...)] of lines 134-145. *)
Definition usage : string :=
  ("usage: icl [-Hptw] [-n name] [-s number_of_samples]" ++ nl ++
   "Use -t to interleave hardware threads with cores." ++ nl ++
   "The name passed using -n appears in the graph's title." ++ nl ++
   "Use write cycles instead of read cycles with -w." ++ nl ++
   "Use -H to preheat each core for 200ms before measuring." ++ nl ++
   nl ++ "Plot results using gnuplot:" ++ nl ++
   "icl -p | gnuplot -p" ++ nl)%string.

(** The [switch] of lines 108-129; [None] is [goto usage]. *)
Definition switch (cl : command_line) (o : options) (g : getopt_call)
    : option options :=
  match opt g with
  | "H"%char =>
      Some {| nsamples := nsamples o; plot := plot o; smt := smt o;
              use_write := use_write o; preheat := true; name := name o |}
  | "n"%char =>
      Some {| nsamples := nsamples o; plot := plot o; smt := smt o;
              use_write := use_write o; preheat := preheat o;
              name := Some (optarg g) |}
  | "p"%char =>
      Some {| nsamples := nsamples o; plot := true; smt := smt o;
              use_write := use_write o; preheat := preheat o;
              name := name o |}
  | "s"%char =>
      Some {| nsamples := atoi cl (optarg g); plot := plot o; smt := smt o;
              use_write := use_write o; preheat := preheat o;
              name := name o |}
  | "t"%char =>
      Some {| nsamples := nsamples o; plot := plot o; smt := true;
              use_write := use_write o; preheat := preheat o;
              name := name o |}
  | "w"%char =>
      Some {| nsamples := nsamples o; plot := plot o; smt := smt o;
              use_write := true; preheat := preheat o; name := name o |}
  | _ => None
  end.

(** The loop of line 107 over the calls still to come; [err] is what
    [getopt] has written to [stderr] so far.  At the usage label the six
    lines follow and the process exits with status 1. *)
Fixpoint getopt_loop (cl : command_line) (gs : list getopt_call)
    (err : string) (o : options) : outcome options :=
  match gs with
  | [] =>
      if optind cl =? argc cl then Returned o
      else Exited 1 (err ++ usage)
  | g :: gs' =>
      let err' := (err ++ diagnostic g)%string in
      match switch cl o g with
      | Some o' => getopt_loop cl gs' err' o'
      | None => Exited 1 (err' ++ usage)
      end
  end.

(** Lines 99-147. *)
Definition parse_options (cl : command_line) : outcome options :=
  getopt_loop cl (calls cl) EmptyString defaults.

(** The option characters of the [switch]. *)
Definition known (c : ascii) : bool :=
  match c with
  | "H"%char | "n"%char | "p"%char | "s"%char | "t"%char | "w"%char => true
  | _ => false
  end.

(** Whether a call returned the character [c]. *)
Definition returned (c : ascii) (g : getopt_call) : bool :=
  Ascii.eqb (opt g) c.

(** The argument of the last call that returned [c]. *)
Definition last_arg (c : ascii) (gs : list getopt_call) : option string :=
  match List.filter (returned c) gs with
  | [] => None
  | g :: gs' => Some (optarg (List.last gs' g))
  end.

(** The options a loop over known characters leaves. *)
Definition after (cl : command_line) (gs : list getopt_call) (o : options)
    : options :=
  {| nsamples := match last_arg "s" gs with
                 | Some a => atoi cl a
                 | None => nsamples o
                 end;
     plot := plot o || existsb (returned "p") gs;
     smt := smt o || existsb (returned "t") gs;
     use_write := use_write o || existsb (returned "w") gs;
     preheat := preheat o || existsb (returned "H") gs;
     name := match last_arg "n" gs with
             | Some a => Some a
             | None => name o
             end |}.

End Cli.

(** ** The CPUs of the process, lines 149-165 *)

Module Affinity.

Import Builder.

(** [CPU_SETSIZE] of glibc's [<sched.h>]. *)
Definition CPU_SETSIZE : nat := 1024.

(** A [cpu_set_t] is a bit mask, CPU [i] at bit [i]. *)
Definition CPU_ISSET (i : nat) (set : N) : bool :=
  N.testbit set (N.of_nat i).

(** Lines 151-154: [rc] is what [sched_getaffinity] returned and [set]
    the mask it filled in. *)
Definition get_affinity (e : env) (rc : Z) (set : N) : outcome N :=
  if (rc =? -1)%Z then Exited 1 (perror e "sched_getaffinity")
  else Returned set.

(** The array [cpus] and its length [ncpus], lines 157-158. *)
Record cpu_array : Type := { cpus : list Z; ncpus : nat }.

(** [realloc(cpus, n * sizeof(int))]: the first [n] entries are kept;
    an entry that is new holds no defined value until it is written
    (0 here, overwritten by the next statement). *)
Definition realloc (a : list Z) (n : nat) : list Z := resize n 0%Z a.

(** Lines 160-164, for one [i]. *)
Definition enumerate_step (set : N) (a : cpu_array) (i : nat)
    : cpu_array :=
  if CPU_ISSET i set
  then let n := S (ncpus a) in
       {| cpus := <[(n - 1)%nat := Z.of_nat i]> (realloc (cpus a) n);
          ncpus := n |}
  else a.

(** Lines 157-165 for the CPU numbers below [size]. *)
Definition enumerate_upto (size : nat) (set : N) : cpu_array :=
  fold_left (enumerate_step set) (seq 0 size) {| cpus := []; ncpus := 0 |}.

Definition enumerate (set : N) : cpu_array :=
  enumerate_upto CPU_SETSIZE set.

(** The mask as a set of CPU numbers, in increasing order. *)
Definition members (size : nat) (set : N) : list nat :=
  List.filter (fun i => CPU_ISSET i set) (seq 0 size).

End Affinity.

(** ** The output, lines 257-308 *)

Module Report.

Local Open Scope Z_scope.

Definition nl : string := Cli.nl.

(** The double quote. *)
Definition dq : string := String "034"%char EmptyString.

Fixpoint spaces (k : nat) : string :=
  match k with
  | O => EmptyString
  | S k' => String " "%char (spaces k')
  end.

(** A conversion with minimum field width [w] and no flag: padded with
    spaces on the left, never cut. *)
Definition pad (w : nat) (s : string) : string :=
  (spaces (w - String.length s) ++ s)%string.

(** ["%4d"] and ["%4lld"]. *)
Definition fmt4 (v : Z) : string := pad 4 (pretty v).

(** The title of the graph, lines 260-262. *)
Definition title (name : option string) (use_write : bool) : string :=
  ("set title " ++ dq ++
   match name with Some s => s | None => EmptyString end ++
   match name with Some _ => " : " | None => EmptyString end ++
   "Inter-core one-way " ++
   (if use_write then "write" else "data") ++
   " latency between CPU cores" ++ dq ++ nl)%string.

(** One line of text. *)
Definition line (fields : string) : string := (fields ++ nl)%string.

(** Lines 258-266: the settings of the graph. *)
Definition settings (name : option string) (use_write : bool) : string :=
  ("set terminal pngcairo size 800,600 enhanced font " ++ dq ++
     "Verdana,10" ++ dq ++ nl ++
   title name use_write ++
   "set xlabel " ++ dq ++ "CPU" ++ dq ++ nl ++
   "set ylabel " ++ dq ++ "CPU" ++ dq ++ nl ++
   "set cblabel " ++ dq ++ "Latency (ns)" ++ dq ++ nl ++
   "set output 'heatmap.png'" ++ nl)%string.

(** Lines 258-267: the settings, then the line that opens the data
    block. *)
Definition preamble (name : option string) (use_write : bool) : string :=
  (settings name use_write ++ line "$data << EOD")%string.

(** Lines 295-307: the palette and the plot command. *)
Definition plotting : string :=
  ("set palette defined (0 '#80e0e0', 1 '#54e0eb', " ++
   "2 '#34d4f3', 3 '#26baf9', 4 '#40a0ff', 5 '#5888e7', " ++
   "6 '#6e72d1', 7 '#845cbb', 8 '#9848a7', 9 '#ac3493', " ++
   "10 '#c0207f', 11 '#d20e6d', 12 '#e60059', 13 '#f80047', " ++
   "14 '#ff0035', 15 '#ff0625', 16 '#ff2113', 17 '#ff3903', " ++
   "18 '#ff5400', 19 '#ff6c00', 20 '#ff8400', 21 '#ff9c00', " ++
   "22 '#ffb400', 23 '#ffcc00', 24 '#ffe400', 25 '#fffc00')" ++ nl ++
   "#set tics font " ++ dq ++ ",7" ++ dq ++ nl ++
   "plot '$data' matrix rowheaders columnheaders using 2:1:3 " ++
   "notitle with image, " ++
   "'$data' matrix rowheaders columnheaders using " ++
   "2:1:(sprintf(" ++ dq ++ "%g" ++ dq ++ ",$3)) notitle with labels #font " ++
   dq ++ ",5" ++ dq ++ nl)%string.

(** Lines 294-307: the line that closes the data block, then the
    plot. *)
Definition epilogue : string := (line "EOD" ++ plotting)%string.

Section Table.

Variable smt : bool.
Variable cpus : list Z.
Variable data : list Z.

(** [int ncpus]. *)
Definition ncpus : Z := Z.of_nat (length cpus).

(** [cpus[k]] and [data[k]]. *)
Definition cpu (k : Z) : Z := nth (Z.to_nat k) cpus 0.
Definition datum (k : Z) : Z := nth (Z.to_nat k) data 0.

(** Lines 272, 277 and 280:
    [smt ? (i >> 1) + (i & 1) * ncpus / 2 : i]. *)
Definition interleave (i : Z) : Z :=
  if smt then Z.shiftr i 1 + (Z.land i 1 * ncpus) ÷ 2 else i.

(** The loop variable of [for (int k = 0; k < ncpus; ++k)]. *)
Definition positions : list Z := map Z.of_nat (seq 0 (length cpus)).

(** Lines 283-286 for one [k]. *)
Definition search_step (c0 c1 : Z) (idx : Z * Z) (k : Z) : Z * Z :=
  (if cpu k =? cpu c0 then k else idx.1,
   if cpu k =? cpu c1 then k else idx.2).

(** Lines 281-287: [idx0] and [idx1] after the loop. *)
Definition search (c0 c1 : Z) : Z * Z :=
  fold_left (search_step c0 c1) positions (-1, -1).

(** Lines 280-288 for one [j]: what is appended to [stdout]. *)
Definition print_cell (c0 : Z) (out : string) (j : Z) : string :=
  let c1 := interleave j in
  let idx := search c0 c1 in
  (out ++ " " ++ fmt4 (datum (idx.1 * ncpus + idx.2)))%string.

(** Lines 277-290 for one [i]. *)
Definition print_row (out : string) (i : Z) : string :=
  let c0 := interleave i in
  let out1 := (out ++ fmt4 (cpu c0))%string in
  let out2 := fold_left (print_cell c0) positions out1 in
  (out2 ++ nl)%string.

(** Lines 271-274 for one [i]. *)
Definition print_head (out : string) (i : Z) : string :=
  (out ++ " " ++ fmt4 (cpu (interleave i)))%string.

(** Lines 270-291. *)
Definition print_table (out : string) : string :=
  let out1 := (out ++ pad 4 "CPU")%string in
  let out2 := fold_left print_head positions out1 in
  let out3 := (out2 ++ nl)%string in
  fold_left print_row positions out3.

End Table.

(** Lines 257-308: everything [main] writes to [stdout]. *)
Definition report (o : Cli.options) (cpus data : list Z) : string :=
  let out1 :=
    if Cli.plot o then preamble (Cli.name o) (Cli.use_write o)
    else EmptyString in
  let out2 := print_table (Cli.smt o) cpus data out1 in
  if Cli.plot o then (out2 ++ epilogue)%string else out2.

(** ** The table read as lines of fields *)

(** The fields of a line after the first. *)
Definition cells (vs : list Z) : string :=
  String.concat EmptyString (map (fun v => (" " ++ fmt4 v)%string) vs).

Definition header_line (labels : list Z) : string :=
  line (pad 4 "CPU" ++ cells labels).

Definition row_line (label : Z) (values : list Z) : string :=
  line (fmt4 label ++ cells values).

(** The positions of [cpus] the table shows, in the order of its rows
    and columns. *)
Definition shown (smt : bool) (cpus : list Z) : list Z :=
  map (interleave smt cpus) (positions cpus).

(** The lines of the table that shows the positions [order]: the
    header with their CPU numbers, then for each of them its CPU number
    and the entries of its row of the matrix at the columns [order]. *)
Definition lines_at (cpus data order : list Z) : list string :=
  header_line (map (cpu cpus) order) ::
  map (fun r =>
         row_line (cpu cpus r)
           (map (fun k => datum data (r * ncpus cpus + k)) order))
      order.

(** Row [i] of a matrix stored row-major with [n] entries per row. *)
Definition matrix_row (n : nat) (data : list Z) (i : nat) : list Z :=
  take n (drop (i * n) data).

(** The lines of the table of a matrix whose rows and columns are
    labelled by [cpus], row by row. *)
Definition table_lines (cpus data : list Z) : list string :=
  header_line cpus ::
  map (fun i => row_line (nth i cpus 0) (matrix_row (length cpus) data i))
      (seq 0 (length cpus)).

(** Text made of lines. *)
Definition text (lines : list string) : string :=
  String.concat EmptyString lines.

End Report.

(** ** The whole program *)

Module Icl.

Import Builder.

(** Everything outside the program that one execution depends on. *)
Record process : Type := {
  command : Cli.command_line;
  (** the return value of [sched_getaffinity] and the mask it fills *)
  getaffinity_rc : Z;
  affinity : N;
  (** pinning, error text, clock readings and scheduling *)
  machine : env
}.

(** [main]: a run that returns has exit status 0 (line 313) and yields
    what it wrote to [stdout].  Every [exit(1)] and every wait come
    before the first [printf]: a run that exits or hangs has written
    nothing to [stdout]. *)
Definition main (p : process) : outcome string :=
  o ← Cli.parse_options (command p);
  set ← Affinity.get_affinity (machine p) (getaffinity_rc p) (affinity p);
  let cpus := Affinity.cpus (Affinity.enumerate set) in
  s ← main_loops (machine p) cpus (Cli.nsamples o);
  mret (Report.report o cpus (data s)).

End Icl.

(* ================================================================== *)
(** * Counting the steps of a pair measurement *)
(* ================================================================== *)

Module Progress.

Import Clock Sampler Protocol.
Local Open Scope Z_scope.

(** ** The indices a program point carries

    The sample index [m] is below [nsamples] (the tests of lines 70 and
    198) and the step index [n] below 100 (lines 72, 84, 203, 228); the
    barrier belongs to the compare-and-exchange protocol (line 218). *)
Definition main_wf (c : config) (p : main_pc) : Prop :=
  match p with
  | MPin | MWarmStart | MWarmPoll _ | MJoin | MDone => True
  | MReset1 m | MReset2 m | MTs1 m | MLast m | MTs2 m =>
      0 <= m < nsamples c
  | MReady0 m | MReadyWait m | MReadyClear m =>
      0 <= m < nsamples c /\ use_write c = true
  | MStore m n | MWait m n | MCas m n =>
      0 <= m < nsamples c /\ 0 <= n < 100
  end.

Definition thread_wf (c : config) (p : thread_pc) : Prop :=
  match p with
  | TPin | TWarmStart | TWarmPoll _ | TDone => True
  | TReadyWait m | TReadySet m => 0 <= m < nsamples c
  | TWait m n | TAck m n | TCas m n => 0 <= m < nsamples c /\ 0 <= n < 100
  end.

(** The cells hold what the loops can store. *)
Definition cells_inv (c : config) (s : state) : Prop :=
  main_wf c (main s) /\ thread_wf c (thread s) /\
  -1 <= seq1 s <= 199 /\ -1 <= seq2 s <= 99.

(** ** Steps still to take

    The steps of one sample: the main thread takes two resets, the two
    timestamps and 100 stores and waits in the flag exchange; two
    resets, the three steps of the barrier, the two timestamps, 100
    exchanges and the last wait in the compare-and-exchange protocol.
    The spawned thread takes 100 waits and stores, or the two steps of
    the barrier and 100 exchanges. *)
Definition main_sample (c : config) : Z := if use_write c then 108 else 204.
Definition thread_sample (c : config) : Z :=
  if use_write c then 102 else 200.

(** From the start of sample [m]: the samples from [m] on, then
    [pthread_join] for the main thread. *)
Definition main_from (c : config) (m : Z) : Z :=
  Z.max 0 (nsamples c - m) * main_sample c + 1.
Definition thread_from (c : config) (m : Z) : Z :=
  Z.max 0 (nsamples c - m) * thread_sample c.

(** The steps the main thread has still to take from a program point
    (a wait counts once, when it ends). *)
Definition main_todo (c : config) (p : main_pc) : Z :=
  match p with
  | MPin => main_from c 0 + (if preheat c then 3 else 1)
  | MWarmStart => main_from c 0 + 2
  | MWarmPoll _ => main_from c 0 + 1
  | MReset1 m => main_from c (m + 1) + main_sample c
  | MReset2 m => main_from c (m + 1) + main_sample c - 1
  | MReady0 m => main_from c (m + 1) + 106
  | MReadyWait m => main_from c (m + 1) + 105
  | MReadyClear m => main_from c (m + 1) + 104
  | MTs1 m => main_from c (m + 1) + (if use_write c then 103 else 202)
  | MStore m n => main_from c (m + 1) + 2 * (100 - n) + 1
  | MWait m n => main_from c (m + 1) + 2 * (100 - n)
  | MCas m n => main_from c (m + 1) + (100 - n) + 2
  | MLast m => main_from c (m + 1) + 2
  | MTs2 m => main_from c (m + 1) + 1
  | MJoin => 1
  | MDone => 0
  end.

Definition thread_todo (c : config) (p : thread_pc) : Z :=
  match p with
  | TPin => thread_from c 0 + (if preheat c then 3 else 1)
  | TWarmStart => thread_from c 0 + 2
  | TWarmPoll _ => thread_from c 0 + 1
  | TWait m n => thread_from c (m + 1) + 2 * (100 - n)
  | TAck m n => thread_from c (m + 1) + 2 * (100 - n) - 1
  | TReadyWait m => thread_from c (m + 1) + 102
  | TReadySet m => thread_from c (m + 1) + 101
  | TCas m n => thread_from c (m + 1) + (100 - n)
  | TDone => 0
  end.

Definition todo (c : config) (s : state) : Z :=
  main_todo c (main s) + thread_todo c (thread s).

(** The length of the trace of a complete pair measurement: both
    prologues, the samples and the join. *)
Definition complete_length (c : config) : Z :=
  Z.max 0 (nsamples c) * (main_sample c + thread_sample c) + 3
  + (if preheat c then 4 else 0).

(** The steps taken so far and those still to take add up. *)
Definition count_inv (c : config) (s : state) : Prop :=
  Z.of_nat (length (log s)) + todo c s = complete_length c.

(** A step that does something adds an event to the trace. *)
Definition moves (c : config) (s : state) (x : tid * N) : Prop :=
  length (log (step c s x)) = S (length (log s)).

(** Every step of a schedule run from [s] does something. *)
Fixpoint all_move (c : config) (s : state) (more : schedule) : Prop :=
  match more with
  | [] => True
  | x :: more' => moves c s x /\ all_move c (step c s x) more'
  end.

(** The clock advance after which a poll started at [t0] ends the
    warm-up. *)
Definition until_warm (t0 now : Z) : N := Z.to_N (200000000 + t0 - now).

(** ** The timed windows of the main thread *)

(** The samples the main thread has completed at a program point. *)
Definition completed (c : config) (p : main_pc) : Z :=
  match p with
  | MPin | MWarmStart | MWarmPoll _ => 0
  | MReset1 m | MReset2 m | MReady0 m | MReadyWait m | MReadyClear m
  | MTs1 m | MStore m _ | MWait m _ | MCas m _ | MLast m | MTs2 m => m
  | MJoin | MDone => Z.max 0 (nsamples c)
  end.

Definition windows_inv (c : config) (s : state) : Prop :=
  Z.of_nat (length (window_log (log s))) = completed c (main s).

End Progress.

(* ================================================================== *)
(** * Concrete command lines and processes *)
(* ================================================================== *)

Module Inputs.

Import Builder Scenario.
Local Open Scope Z_scope.

(** A call of [getopt] that accepts an option. *)
Definition accepted (c : ascii) (arg : string) : Cli.getopt_call :=
  {| Cli.opt := c; Cli.optarg := arg; Cli.diagnostic := EmptyString |}.

(** [atoi] on the arguments used below. *)
Definition atoi_digit (s : string) : Z :=
  match s with
  | String c EmptyString => Z.of_nat (nat_of_ascii c) - 48
  | _ => 0
  end.

(** [icl -H -s 5 -w -s 7 -n box]. *)
Definition cl_options : Cli.command_line :=
  {| Cli.calls := [accepted "H" EmptyString; accepted "s" "5";
                   accepted "w" EmptyString; accepted "s" "7";
                   accepted "n" "box"];
     Cli.optind := 8; Cli.argc := 8; Cli.atoi := atoi_digit |}.

(** [icl -p -x]: [getopt] reports the option it does not know and
    returns ['?']. *)
Definition cl_unknown : Cli.command_line :=
  {| Cli.calls := [accepted "p" EmptyString;
                   {| Cli.opt := "?"; Cli.optarg := EmptyString;
                      Cli.diagnostic :=
                        "icl: invalid option -- 'x'" ++ Cli.nl |}];
     Cli.optind := 3; Cli.argc := 3; Cli.atoi := atoi_digit |}.

(** [icl -s 3]. *)
Definition cl_three : Cli.command_line :=
  {| Cli.calls := [accepted "s" "3"];
     Cli.optind := 3; Cli.argc := 3; Cli.atoi := atoi_digit |}.

(** CPUs 0, 1 and 3. *)
Definition mask_013 : N := 11.

(** [icl -s 3] on the CPUs 0, 1 and 2, with the machine [env3]. *)
Definition process3 : Icl.process :=
  {| Icl.command := cl_three; Icl.getaffinity_rc := 0;
     Icl.affinity := 7; Icl.machine := env3 |}.

(** The same when neither context can be pinned for the pair at
    [(0, 2)]. *)
Definition process3_both_unpinned : Icl.process :=
  {| Icl.command := cl_three; Icl.getaffinity_rc := 0;
     Icl.affinity := 7; Icl.machine := env3_both_unpinned |}.


(** [icl -p -x] on the same machine. *)
Definition process_unknown : Icl.process :=
  {| Icl.command := cl_unknown; Icl.getaffinity_rc := 0;
     Icl.affinity := 7; Icl.machine := env3 |}.

(** The options [cl_three] and [cl_options] leave. *)
Definition options_three : Cli.options :=
  {| Cli.nsamples := 3; Cli.plot := false; Cli.smt := false;
     Cli.use_write := false; Cli.preheat := false; Cli.name := None |}.

Definition options_box : Cli.options :=
  {| Cli.nsamples := 7; Cli.plot := false; Cli.smt := false;
     Cli.use_write := true; Cli.preheat := true; Cli.name := Some "box" |}.

(** The options of [icl -p -t -n box]. *)
Definition options_plot : Cli.options :=
  {| Cli.nsamples := 1000; Cli.plot := true; Cli.smt := true;
     Cli.use_write := false; Cli.preheat := false;
     Cli.name := Some "box" |}.

(** One sample of the flag exchange without warm-up. *)
Definition cold1 : Protocol.config :=
  {| Protocol.nsamples := 1; Protocol.use_write := false;
     Protocol.preheat := false |}.

(** What [process3] prints. *)
Definition table3 : string :=
  " CPU    0    1    2" ++ Cli.nl ++
  "   0    0  105  110" ++ Cli.nl ++
  "   1  105    0  115" ++ Cli.nl ++
  "   2  110  115    0" ++ Cli.nl.

(** Four CPUs, numbered 0, 1, 4 and 5. *)
Definition cpus4 : list Z := [0; 1; 4; 5].

(** The first 40 steps of the fair schedule: the measurement is under
    way. *)
Definition under_way : Protocol.schedule := firstn 40 fair.

End Inputs.

(* ================================================================== *)
(** * The timed window of the flag exchange *)
(* ================================================================== *)

Module Exchange.

Import Clock Sampler Protocol Invariants.
Local Open Scope Z_scope.

(** One round trip of sample [m], lines 204-209 and 73-77: the main
    thread stores [n] into [seq1], the spawned thread sees it and
    stores [n] into [seq2], the main thread sees that. *)
Definition round_trip (m n : Z) : list event :=
  [EvStore Initiator Seq1 n m; EvSpinExit Responder Seq1 n m;
   EvStore Responder Seq2 n m; EvSpinExit Initiator Seq2 n m].

(** The 100 round trips of a sample, in order. *)
Definition flag_chain (m : Z) : list event :=
  flat_map (round_trip m) (map Z.of_nat (seq 0 100)).
Arguments flag_chain : simpl never.

(** The events of the exchange of sample [m]: the stores of a step
    index (the resets store -1) and the ends of the waits. *)
Definition in_exchange (m : Z) (e : event) : bool :=
  match e with
  | EvStore _ _ v m' => (m' =? m) && (0 <=? v)
  | EvSpinExit _ _ _ m' => m' =? m
  | _ => false
  end.

(** The events of the prologue of the spawned thread. *)
Definition in_prologue (e : event) : bool :=
  match e with
  | EvPin Responder | EvWarmStart Responder _ | EvWarmEnd Responder _ => true
  | _ => false
  end.

(** The [k]-th event of the exchange of sample [m], from 0. *)
Definition flag_ev (m k : Z) : event :=
  let n := k / 4 in
  match k mod 4 with
  | 0 => EvStore Initiator Seq1 n m
  | 1 => EvSpinExit Responder Seq1 n m
  | 2 => EvStore Responder Seq2 n m
  | _ => EvSpinExit Initiator Seq2 n m
  end.

(** The first [k] events of the exchange, most recent first. *)
Fixpoint flag_prefix (m : Z) (k : nat) : list event :=
  match k with
  | O => []
  | S k' => flag_ev m (Z.of_nat k') :: flag_prefix m k'
  end.

Definition flag_log (m k : Z) : list event := flag_prefix m (Z.to_nat k).
Arguments flag_log : simpl never.

(** The trace holds no event of the exchange of sample [m]. *)
Definition none_of (m : Z) (lg : list event) : Prop :=
  List.filter (in_exchange m) lg = [].

(** Nor of any sample after [m]. *)
Definition later_none (m : Z) (lg : list event) : Prop :=
  forall m', m < m' -> none_of m' lg.

(** The trace (most recent event first) since the start timestamp of
    sample [m] holds the first [k] events of its exchange in order and
    besides them only events of the prologue of the spawned thread;
    before the timestamp it holds none of them. *)
Definition window (m k : Z) (lg : list event) : Prop :=
  exists t1 mid rest,
    lg = mid ++ EvTs1 m t1 :: rest /\
    List.filter (in_exchange m) mid = flag_log m k /\
    Forall (fun e => in_exchange m e = true \/ in_prologue e = true) mid /\
    none_of m rest.

(** How far the answer to step [n] has come: the spawned thread has
    not seen [n] yet, has seen it, or has answered. *)
Definition phase (s : state) (n : Z) : Z :=
  if seq2 s =? n then 3
  else match thread s with TAck _ _ => 2 | _ => 1 end.

(** What the trace holds for the main thread at each program point of
    the flag exchange. *)
Definition window_inv (s : state) : Prop :=
  let lg := log s in
  match main s with
  | MPin | MWarmStart | MWarmPoll _ => later_none (-1) lg
  | MReset1 m | MReset2 m | MTs1 m => later_none (m - 1) lg
  | MStore m n => window m (4 * n) lg /\ later_none m lg
  | MWait m n => window m (4 * n + phase s n) lg /\ later_none m lg
  | MTs2 m => window m 400 lg /\ later_none m lg
  | _ => True
  end.

End Exchange.

(* ================================================================== *)
(** * The timestamps of a pair measurement *)
(* ================================================================== *)

Module Stamps.

Import Clock Sampler Protocol Progress.
Local Open Scope Z_scope.

(** A timestamp of the trace: start or end, the sample, the reading. *)
Inductive stamp : Type :=
| Start (m : Z) (now : Z)
| End_ (m : Z) (now : Z).

Definition reading (x : stamp) : Z :=
  match x with Start _ t | End_ _ t => t end.

(** The timestamps of a trace, in the order of the trace. *)
Fixpoint stamps_of (lg : list event) : list stamp :=
  match lg with
  | [] => []
  | EvTs1 m t :: lg' => Start m t :: stamps_of lg'
  | EvTs2 m t :: lg' => End_ m t :: stamps_of lg'
  | _ :: lg' => stamps_of lg'
  end.

(** Without its reading. *)
Definition kind (x : stamp) : bool * Z :=
  match x with Start m _ => (false, m) | End_ m _ => (true, m) end.

(** The timestamps of the first [k] samples, most recent first: for
    each sample its start, then its end. *)
Fixpoint kinds_upto (k : nat) : list (bool * Z) :=
  match k with
  | O => []
  | S k' => (true, Z.of_nat k') :: (false, Z.of_nat k') :: kinds_upto k'
  end.

(** The same, first sample first. *)
Definition kinds_in_order (k : nat) : list (bool * Z) :=
  flat_map (fun m => [(false, Z.of_nat m); (true, Z.of_nat m)]) (seq 0 k).

(** The main thread stands between the two timestamps of a sample. *)
Definition timing (p : main_pc) : bool :=
  match p with
  | MStore _ _ | MWait _ _ | MCas _ _ | MLast _ | MTs2 _ => true
  | _ => false
  end.

(** The readings of a list of timestamps, most recent first, never
    increase and none is later than [now]. *)
Fixpoint not_after (now : Z) (xs : list stamp) : Prop :=
  match xs with
  | [] => True
  | x :: xs' => reading x <= now /\ not_after (reading x) xs'
  end.

(** What the trace holds of timestamps, for each program point of the
    main thread. *)
Definition stamps_inv (c : config) (s : state) : Prop :=
  map kind (stamps_of (log s)) =
  (if timing (main s) then [(false, completed c (main s))] else [])
  ++ kinds_upto (Z.to_nat (completed c (main s))) /\
  not_after (clock s) (stamps_of (log s)).

End Stamps.
Module ClockFacts.
Import Clock.
Local Open Scope Z_scope.

Lemma ulp_pos z : 0 < ulp z.
Proof. unfold ulp. apply Z.pow_pos_nonneg; lia. Qed.

Lemma ulp_small z : Z.abs z < 2 ^ 53 -> ulp z = 1.
Proof.
  intros Hz. unfold ulp.
  destruct (Z.eq_dec (Z.abs z) 0) as [E|E].
  - rewrite E. reflexivity.
  - assert (Z.log2 (Z.abs z) < 53) by (apply Z.log2_lt_pow2; lia).
    rewrite Z.max_l by lia. reflexivity.
Qed.

(** From 2^53 on the unit is at most [|z| / 2^52]. *)
Lemma ulp_large z : 2 ^ 53 <= Z.abs z -> 2 ^ 52 * ulp z <= Z.abs z.
Proof.
  intros Hz. unfold ulp.
  assert (53 <= Z.log2 (Z.abs z)) by (apply Z.log2_le_pow2; lia).
  rewrite Z.max_r by lia. rewrite <- Z.pow_add_r by lia.
  replace (52 + (Z.log2 (Z.abs z) - 52)) with (Z.log2 (Z.abs z)) by lia.
  apply Z.log2_spec. lia.
Qed.

(** [round_double z] is a multiple of the unit, at most half a unit
    away from [z]. *)
Lemma round_double_near z :
  (round_double z) mod (ulp z) = 0 /\
  2 * Z.abs (round_double z - z) <= ulp z.
Proof.
  pose proof (ulp_pos z) as Hu. unfold round_double. cbv zeta.
  pose proof (Z.div_mod z (ulp z) ltac:(lia)) as Hdm.
  pose proof (Z.mod_pos_bound z (ulp z) Hu) as Hr.
  destruct (Z.ltb_spec (2 * (z mod ulp z)) (ulp z));
    [|destruct (Z.ltb_spec (ulp z) (2 * (z mod ulp z)));
      [|destruct (Z.even (z / ulp z))]].
  all: split; [apply Z.mod_mul; lia|nia].
Qed.

Lemma round_double_small z : Z.abs z < 2 ^ 53 -> round_double z = z.
Proof.
  intros Hz. destruct (round_double_near z) as [_ H].
  rewrite (ulp_small z Hz) in H. lia.
Qed.

(** The relative error of a rounding is at most 2^-53. *)
Lemma round_double_error z :
  2 ^ 53 * Z.abs (round_double z - z) <= Z.abs z.
Proof.
  destruct (Z_lt_le_dec (Z.abs z) (2 ^ 53)) as [Hz|Hz].
  - rewrite (round_double_small z Hz). lia.
  - destruct (round_double_near z) as [_ H].
    pose proof (ulp_large z Hz). lia.
Qed.

(** A multiple of the unit is a binary64 number. *)
Lemma round_double_exact z : z mod ulp z = 0 -> round_double z = z.
Proof.
  intros H. pose proof (ulp_pos z) as Hu.
  pose proof (Z.div_mod z (ulp z) ltac:(lia)) as Hdm.
  unfold round_double. cbv zeta. rewrite H.
  destruct (Z.ltb_spec (2 * 0) (ulp z)); lia.
Qed.

(** The product of the seconds with [1e9] is a multiple of 2^9: below
    2^62 it is not rounded. *)
Lemma round_double_giga d :
  Z.abs (d * 1000000000) < 2 ^ 62 ->
  round_double (d * 1000000000) = d * 1000000000.
Proof.
  intros Hd. apply round_double_exact. unfold ulp.
  set (x := d * 1000000000) in *.
  destruct (Z.eq_dec (Z.abs x) 0) as [E|E].
  - rewrite E. simpl. apply Z.mod_1_r.
  - assert (Hl : Z.log2 (Z.abs x) < 62) by (apply Z.log2_lt_pow2; lia).
    pose proof (Z.log2_nonneg (Z.abs x)) as Hl0.
    set (k := Z.max 0 (Z.log2 (Z.abs x) - 52)).
    assert (Hk : 0 <= k <= 9) by lia.
    subst x.
    replace (d * 1000000000) with (d * 1953125 * 2 ^ (9 - k) * 2 ^ k).
    + apply Z.mod_mul. apply Z.pow_nonzero; lia.
    + rewrite <- !Z.mul_assoc, <- Z.pow_add_r by lia.
      replace (9 - k + k) with 9 by lia. reflexivity.
Qed.

Section Elapsed.

Variables a b : timespec.
Hypothesis Ha : normal a.
Hypothesis Hb : normal b.

(** While the window is shorter than 2^53 ns the code computes it
    exactly. *)
Lemma elapsed_double_exact :
  Z.abs (to_ns b - to_ns a) < 2 ^ 53 ->
  elapsed_double a b = to_ns b - to_ns a.
Proof.
  unfold normal, to_ns in *. intros Hw. unfold elapsed_double.
  set (d := tv_sec b - tv_sec a) in *.
  assert (Hd : Z.abs d < 2 ^ 24) by lia.
  rewrite (round_double_small d) by lia.
  rewrite round_double_giga by lia.
  rewrite (round_double_small (tv_nsec b - tv_nsec a)) by lia.
  rewrite round_double_small by lia. lia.
Qed.

Lemma elapsed_ns_exact :
  Z.abs (to_ns b - to_ns a) < 2 ^ 53 ->
  elapsed_ns a b = to_ns b - to_ns a.
Proof.
  intros Hw. unfold elapsed_ns. rewrite elapsed_double_exact by exact Hw.
  unfold to_long_long.
  destruct (Z.leb_spec (- 2 ^ 63) (to_ns b - to_ns a)); [|lia].
  destruct (Z.ltb_spec (to_ns b - to_ns a) (2 ^ 63)); [reflexivity|lia].
Qed.

(** A window more than 2048 ns short of 2^63 ns is converted within
    the range of [long long] and is not negative. *)
Lemma elapsed_double_range :
  0 <= to_ns b - to_ns a < 2 ^ 63 - 2048 ->
  0 <= elapsed_double a b < 2 ^ 63.
Proof.
  unfold normal, to_ns in *. intros Hw. unfold elapsed_double.
  set (d := tv_sec b - tv_sec a) in *.
  set (nd := tv_nsec b - tv_nsec a) in *.
  assert (Hd : 0 <= d < 2 ^ 34) by lia.
  rewrite (round_double_small d) by lia.
  rewrite (round_double_small nd) by lia.
  pose proof (round_double_error (d * 1000000000)) as Hp.
  set (p := round_double (d * 1000000000)) in *.
  pose proof (round_double_error (p + nd)) as Hs.
  set (s := round_double (p + nd)) in *.
  lia.
Qed.

Lemma elapsed_ns_nonneg :
  0 <= to_ns b - to_ns a < 2 ^ 63 - 2048 -> 0 <= elapsed_ns a b.
Proof.
  intros Hw. pose proof (elapsed_double_range Hw) as H.
  unfold elapsed_ns, to_long_long.
  destruct (Z.leb_spec (- 2 ^ 63) (elapsed_double a b)); [|lia].
  destruct (Z.ltb_spec (elapsed_double a b) (2 ^ 63)); simpl; lia.
Qed.

(** The comparison of lines 63-64 and 190-192, made in [double],
    decides as the exact one does. *)
Lemma elapsed_double_warm :
  (200000000 <=? elapsed_double a b) =
  (200000000 <=? to_ns b - to_ns a).
Proof.
  unfold normal, to_ns in *.
  destruct (Z_lt_le_dec (Z.abs (tv_sec b - tv_sec a)) (2 ^ 22)) as [Hd|Hd].
  - rewrite elapsed_double_exact; [reflexivity|]. unfold to_ns. lia.
  - unfold elapsed_double.
    set (d := tv_sec b - tv_sec a) in *.
    set (nd := tv_nsec b - tv_nsec a) in *.
    rewrite (round_double_small nd) by lia.
    pose proof (round_double_error d) as Hdd.
    set (dd := round_double d) in *.
    pose proof (round_double_error (dd * 1000000000)) as Hp.
    set (p := round_double (dd * 1000000000)) in *.
    pose proof (round_double_error (p + nd)) as Hs.
    set (s := round_double (p + nd)) in *.
    destruct (Z.leb_spec 200000000 s);
      destruct (Z.leb_spec 200000000
                  (tv_sec b * 1000000000 + tv_nsec b
                   - (tv_sec a * 1000000000 + tv_nsec a)));
      try reflexivity; exfalso; lia.
Qed.

End Elapsed.

Lemma normal_clock_gettime now : normal (clock_gettime now).
Proof. unfold normal, clock_gettime; simpl. apply Z.mod_pos_bound. lia. Qed.

Lemma to_ns_clock_gettime now : to_ns (clock_gettime now) = now.
Proof.
  unfold to_ns, clock_gettime; simpl.
  pose proof (Z.div_mod now 1000000000 ltac:(lia)). lia.
Qed.

Lemma elapsed_ns_clock a b :
  Z.abs (b - a) < 2 ^ 53 ->
  elapsed_ns (clock_gettime a) (clock_gettime b) = b - a.
Proof.
  intros H. rewrite elapsed_ns_exact;
    rewrite ?to_ns_clock_gettime; auto using normal_clock_gettime.
Qed.

Lemma elapsed_ns_clock_nonneg a b :
  0 <= b - a < 2 ^ 63 - 2048 ->
  0 <= elapsed_ns (clock_gettime a) (clock_gettime b).
Proof.
  intros H. apply elapsed_ns_nonneg;
    rewrite ?to_ns_clock_gettime; auto using normal_clock_gettime.
Qed.

Lemma elapsed_double_clock a b :
  (200000000 <=? elapsed_double (clock_gettime a) (clock_gettime b)) =
  (200000000 <=? b - a).
Proof.
  rewrite elapsed_double_warm by apply normal_clock_gettime.
  rewrite !to_ns_clock_gettime. reflexivity.
Qed.

(** [round_double] is the rounding of binary64 at the places where the
    rounding changes, for the conversion, the product and the sum. *)
Lemma round_double_binary64 :
  forallb Binary64.agrees Binary64.samples = true.
Proof. vm_compute. reflexivity. Qed.

End ClockFacts.

Module SamplerFacts.

Import Clock ClockFacts Sampler.
Local Open Scope Z_scope.

Lemma per_hop_200 rtt : per_hop rtt = rtt ÷ 200.
Proof. unfold per_hop. rewrite Z.quot_quot by lia. reflexivity. Qed.

Lemma fold_update_rtt_nonneg es : forall r,
  0 <= r -> Forall (fun e => 0 <= e) es ->
  fold_left update_rtt es r = fold_left Z.min es r.
Proof.
  induction es as [|e es IH]; intros r Hr Hes; simpl; [reflexivity|].
  inversion Hes as [|? ? He Hes']; subst.
  assert (Hstep : update_rtt r e = Z.min r e).
  { unfold update_rtt.
    destruct (Z.eqb_spec r (-1)); [lia|].
    destruct (Z.ltb_spec e r); simpl; lia. }
  rewrite Hstep. apply IH; [lia|assumption].
Qed.

Lemma sample_loop_min es :
  es <> [] -> Forall (fun e => 0 <= e) es ->
  sample_loop es = min_elapsed es.
Proof.
  destruct es as [|e es]; [congruence|]. intros _ Hes.
  inversion Hes; subst. unfold sample_loop; simpl.
  apply fold_update_rtt_nonneg; assumption.
Qed.

Lemma fold_min_le es : forall r, fold_left Z.min es r <= r.
Proof.
  induction es as [|e es IH]; intros r; simpl; [lia|].
  specialize (IH (Z.min r e)). lia.
Qed.

Lemma fold_min_nonneg es : forall r,
  0 <= r -> Forall (fun e => 0 <= e) es -> 0 <= fold_left Z.min es r.
Proof.
  induction es as [|e es IH]; intros r Hr Hes; simpl; [lia|].
  inversion Hes; subst. apply IH; [lia|assumption].
Qed.

Lemma sample_loop_nonneg es :
  es <> [] -> Forall (fun e => 0 <= e) es -> 0 <= sample_loop es.
Proof.
  intros Hne Hes. rewrite sample_loop_min by assumption.
  destruct es as [|e es]; [congruence|]. inversion Hes; subst.
  simpl. apply fold_min_nonneg; assumption.
Qed.

(** Up to 2^53 ns the elapsed times the code computes are the
    windows themselves. *)
Lemma elapsed_times_exact stamps nsamples :
  monotonic stamps -> shorter (2 ^ 53) stamps ->
  elapsed_times stamps nsamples = windows stamps nsamples.
Proof.
  intros Hm Hs. unfold elapsed_times, windows. apply map_ext.
  intros m. destruct (Hm m) as (Ha & Hb & Hab). specialize (Hs m).
  unfold not_before in Hab. apply elapsed_ns_exact; [assumption..|lia].
Qed.

Lemma windows_nonneg stamps nsamples :
  monotonic stamps -> Forall (fun e => 0 <= e) (windows stamps nsamples).
Proof.
  intros Hm. unfold windows. apply Forall_map, Forall_forall.
  intros m _. simpl. destruct (Hm m) as (_ & _ & Hab).
  unfold not_before in Hab. lia.
Qed.

Lemma elapsed_times_nonneg stamps nsamples :
  monotonic stamps -> shorter (2 ^ 63 - 2048) stamps ->
  Forall (fun e => 0 <= e) (elapsed_times stamps nsamples).
Proof.
  intros Hm Hs. unfold elapsed_times. apply Forall_map, Forall_forall.
  intros m _. simpl. destruct (Hm m) as (Ha & Hb & Hab). specialize (Hs m).
  unfold not_before in Hab. apply elapsed_ns_nonneg; [assumption..|lia].
Qed.

Lemma elapsed_times_nonempty stamps nsamples :
  0 < nsamples -> elapsed_times stamps nsamples <> [].
Proof.
  intros Hn. unfold elapsed_times.
  destruct (Z.to_nat nsamples) eqn:E; [lia|]. simpl. discriminate.
Qed.

Lemma elapsed_times_none stamps nsamples :
  nsamples <= 0 -> elapsed_times stamps nsamples = [].
Proof.
  intros Hn. unfold elapsed_times.
  replace (Z.to_nat nsamples) with 0%nat by lia. reflexivity.
Qed.

(** More samples extend the list of elapsed times at its end. *)
Lemma elapsed_times_extend stamps n1 n2 :
  0 <= n1 <= n2 ->
  exists more, elapsed_times stamps n2 = elapsed_times stamps n1 ++ more.
Proof.
  intros Hn. unfold elapsed_times.
  replace (Z.to_nat n2)
    with (Z.to_nat n1 + (Z.to_nat n2 - Z.to_nat n1))%nat by lia.
  rewrite seq_app, map_app. eexists; reflexivity.
Qed.

Lemma pair_latency_nonneg stamps nsamples :
  monotonic stamps -> shorter (2 ^ 63 - 2048) stamps ->
  0 <= pair_latency stamps nsamples.
Proof.
  intros Hm Hs. unfold pair_latency. rewrite per_hop_200.
  destruct (Z_lt_le_dec 0 nsamples) as [Hpos|Hnpos].
  - apply Z.quot_pos; [|lia].
    apply sample_loop_nonneg;
      auto using elapsed_times_nonempty, elapsed_times_nonneg.
  - rewrite elapsed_times_none by assumption. simpl. reflexivity.
Qed.

Lemma first_samples_nonempty elapsed nsamples :
  0 < nsamples -> first_samples elapsed nsamples <> [].
Proof.
  intros Hn. unfold first_samples.
  destruct (Z.to_nat nsamples) eqn:E; [lia|]. simpl. discriminate.
Qed.

(** The sample loop computes the minimum as long as no elapsed time
    is the sentinel. *)
Lemma fold_update_rtt_min es : forall r,
  r <> -1 -> Forall (fun e => e <> -1) es ->
  fold_left update_rtt es r = fold_left Z.min es r.
Proof.
  induction es as [|e es IH]; intros r Hr Hes; simpl; [reflexivity|].
  inversion Hes as [|? ? He Hes']; subst.
  assert (Hstep : update_rtt r e = Z.min r e).
  { unfold update_rtt.
    destruct (Z.eqb_spec r (-1)); [contradiction|].
    destruct (Z.ltb_spec e r); simpl; lia. }
  rewrite Hstep. apply IH; [lia|assumption].
Qed.

Lemma sample_loop_min_sentinel es :
  es <> [] -> Forall (fun e => e <> -1) es ->
  sample_loop es = min_elapsed es.
Proof.
  destruct es as [|e es]; [congruence|]. intros _ Hes.
  inversion Hes; subst. unfold sample_loop; simpl.
  apply fold_update_rtt_min; assumption.
Qed.

Lemma first_samples_sentinel elapsed nsamples :
  (forall m, elapsed m <> -1) ->
  Forall (fun e => e <> -1) (first_samples elapsed nsamples).
Proof.
  intros H. unfold first_samples. apply Forall_map, Forall_forall.
  intros m _. apply H.
Qed.

(** The value the code reports is the sample loop fed with the
    elapsed times it computes. *)
Lemma pair_latency_reported stamps nsamples :
  pair_latency stamps nsamples =
  reported (fun m => elapsed_ns (fst (stamps m)) (snd (stamps m))) nsamples.
Proof. reflexivity. Qed.

(** More samples extend the list of elapsed times at its end. *)
Lemma first_samples_extend elapsed n1 n2 :
  0 <= n1 <= n2 ->
  exists more,
    first_samples elapsed n2 = first_samples elapsed n1 ++ more.
Proof.
  intros Hn. unfold first_samples.
  replace (Z.to_nat n2)
    with (Z.to_nat n1 + (Z.to_nat n2 - Z.to_nat n1))%nat by lia.
  rewrite seq_app, map_app. eexists; reflexivity.
Qed.

Lemma windows_nonempty stamps nsamples :
  0 < nsamples -> windows stamps nsamples <> [].
Proof.
  intros Hn. unfold windows.
  destruct (Z.to_nat nsamples) eqn:E; [lia|]. simpl. discriminate.
Qed.


Lemma fold_min_spec es : forall r,
  In (fold_left Z.min es r) (r :: es) /\
  Forall (fun x => fold_left Z.min es r <= x) (r :: es).
Proof.
  induction es as [|e es IH]; intros r; simpl.
  - split; [auto|]. repeat constructor. lia.
  - destruct (IH (Z.min r e)) as [Hin Hall]. split.
    + destruct Hin as [Hin|Hin]; [|auto]. rewrite <- Hin.
      destruct (Z.min_spec r e) as [[_ ->]|[_ ->]]; auto.
    + inversion Hall as [|? ? Hhd Htl]; subst.
      pose proof (fold_min_le es (Z.min r e)).
      repeat constructor; try assumption; lia.
Qed.

(** [min_elapsed] is the least element of a list that has one. *)
Lemma min_elapsed_spec es :
  es <> [] ->
  In (min_elapsed es) es /\ Forall (fun x => min_elapsed es <= x) es.
Proof.
  destruct es as [|e es]; [congruence|]. intros _. apply fold_min_spec.
Qed.

Lemma fold_min_app es more : forall r,
  fold_left Z.min (es ++ more) r <= fold_left Z.min es r.
Proof. intros r. rewrite fold_left_app. apply fold_min_le. Qed.

(** More samples never raise the minimum. *)
Lemma sample_loop_extend es more :
  es <> [] -> Forall (fun e => 0 <= e) (es ++ more) ->
  sample_loop (es ++ more) <= sample_loop es.
Proof.
  intros Hne Hall.
  assert (Forall (fun e => 0 <= e) es) by (apply Forall_app in Hall; tauto).
  rewrite !sample_loop_min; try assumption.
  - destruct es as [|e es]; [congruence|]. simpl. apply fold_min_app.
  - destruct es; [congruence|discriminate].
Qed.

(** More samples never raise the least elapsed time either. *)
Lemma min_elapsed_extend es more :
  es <> [] -> min_elapsed (es ++ more) <= min_elapsed es.
Proof.
  destruct es as [|e es]; [congruence|]. intros _. simpl.
  apply fold_min_app.
Qed.

End SamplerFacts.
Module BuilderFacts.

Import Clock ClockFacts Sampler SamplerFacts Builder.

Lemma fold_left_flat_map {A B St : Type} (f : St -> B -> St) (g : A -> list B)
    (l : list A) : forall s,
  fold_left f (flat_map g l) s =
  fold_left (fun s a => fold_left f (g a) s) l s.
Proof.
  induction l as [|a l IH]; intros s; simpl; [reflexivity|].
  rewrite fold_left_app. apply IH.
Qed.

Section Run.

Variable e : env.
Variable cpus : list Z.
Variable nsamples : Z.

Abbreviation n := (ncpus cpus).
Abbreviation lat := (latency e nsamples).
Abbreviation ok := (returns e cpus).
Abbreviation write := (step_pair e cpus nsamples).
Abbreviation blank := (start cpus).
Abbreviation measure := (measure_pair e cpus nsamples).
Abbreviation line := (pin_line e).

(** ** One pair *)

Lemma measure_pair_returns p :
  ok p = true ->
  measure p.1 p.2 =
  Returned (sample_loop (elapsed_times (stamps e p.1 p.2) nsamples)).
Proof.
  unfold returns, pair_ok, pin_fails, measure_pair, pinThread.
  destruct p as [i j]; simpl. intros H.
  apply andb_true_iff in H as [H Hw]. apply andb_true_iff in H as [Hr H].
  apply andb_true_iff in H as [H1 H2]. apply negb_true_iff in H1, H2.
  rewrite Hr, H1, H2, Hw. reflexivity.
Qed.

Lemma measure_pair_returned i j r :
  measure i j = Returned r ->
  ok (i, j) = true /\
  r = sample_loop (elapsed_times (stamps e i j) nsamples).
Proof.
  unfold returns, pair_ok, pin_fails, measure_pair, pinThread; simpl.
  destruct (thread_runs e i j);
    destruct (sched_setaffinity e Responder i j (cpu_at cpus i) =? -1)%Z;
    destruct (sched_setaffinity e Initiator i j (cpu_at cpus j) =? -1)%Z;
    destruct (both_report e i j); destruct (waits_end e i j);
    simpl; intros H; try discriminate H; injection H as <-; auto.
Qed.

(** How a pair ends the process: with status 1 and the line of
    [pinThread], once or, when both calls have failed, twice. *)
Lemma measure_pair_exited i j st err :
  measure i j = Exited st err ->
  st = 1%Z /\ pair_ok e cpus (i, j) = false /\
  (err = line \/
   err = (line ++ line)%string /\
   pin_fails e cpus Responder (i, j) = true /\
   pin_fails e cpus Initiator (i, j) = true /\
   thread_runs e i j = true /\ both_report e i j = true).
Proof.
  unfold pair_ok, pin_fails, measure_pair, pinThread, pin_line; simpl.
  destruct (thread_runs e i j);
    destruct (sched_setaffinity e Responder i j (cpu_at cpus i) =? -1)%Z;
    destruct (sched_setaffinity e Initiator i j (cpu_at cpus j) =? -1)%Z;
    destruct (both_report e i j); destruct (waits_end e i j);
    simpl; intros H; try discriminate H; injection H as <- <-;
    auto 10.
Qed.

(** A call that is made and fails ends the process. *)
Lemma measure_pair_fails who i j :
  pin_fails e cpus who (i, j) = true ->
  (who = Responder -> thread_runs e i j = true) ->
  exists err,
    measure i j = Exited 1 err /\
    (err = line \/ err = (line ++ line)%string).
Proof.
  unfold pin_fails, measure_pair, pinThread, pin_line; simpl.
  intros Hf Hr. destruct who.
  - rewrite Hf. destruct (thread_runs e i j);
      destruct (sched_setaffinity e Responder i j (cpu_at cpus i) =? -1)%Z;
      destruct (both_report e i j); simpl; eauto.
  - rewrite (Hr eq_refl), Hf.
    destruct (sched_setaffinity e Initiator i j (cpu_at cpus j) =? -1)%Z;
      destruct (both_report e i j); simpl; eauto.
Qed.


Lemma pair_body_returns p s :
  ok p = true -> pair_body e cpus nsamples p.1 p.2 s = Returned (write s p).
Proof.
  intros H. unfold pair_body. rewrite (measure_pair_returns p H).
  destruct p as [i j]. reflexivity.
Qed.

Lemma pair_body_returned i j s s' :
  pair_body e cpus nsamples i j s = Returned s' ->
  ok (i, j) = true /\ s' = write s (i, j).
Proof.
  unfold pair_body. destruct (measure i j) as [r| |] eqn:E;
    simpl; intros H; try discriminate H.
  apply measure_pair_returned in E as [Hok ->].
  injection H as <-. auto.
Qed.

(** A pair that does not return decides the outcome of the loops. *)
Lemma pair_body_stops i j s :
  ok (i, j) = false ->
  forall rest : mstate -> outcome mstate,
    (s' ← pair_body e cpus nsamples i j s; rest s') =
    match measure i j with
    | Returned _ => Hangs
    | Exited st err => Exited st err
    | Hangs => Hangs
    end.
Proof.
  intros Hok rest. unfold pair_body.
  destruct (measure i j) as [r| |] eqn:E; simpl; try reflexivity.
  apply measure_pair_returned in E as [Hok' _]. congruence.
Qed.

(** ** The loops as a pass over the pairs *)

Lemma run_pairs_app ps qs : forall s,
  run_pairs e cpus nsamples (ps ++ qs) s =
  (s' ← run_pairs e cpus nsamples ps s; run_pairs e cpus nsamples qs s').
Proof.
  induction ps as [|p ps IH]; intros s; simpl; [reflexivity|].
  destruct (pair_body e cpus nsamples p.1 p.2 s); simpl;
    [apply IH|reflexivity|reflexivity].
Qed.

Lemma inner_loop_pairs i count : forall j s,
  for_loop count j (pair_body e cpus nsamples i) s =
  run_pairs e cpus nsamples (map (pair i) (seq j count)) s.
Proof.
  induction count as [|count IH]; intros j s; simpl; [reflexivity|].
  destruct (pair_body e cpus nsamples i j s); simpl;
    [|reflexivity|reflexivity].
  replace (j + 1) with (S j) by lia. apply IH.
Qed.

Lemma outer_loop_pairs count : forall i s,
  for_loop count i (inner_loop e cpus nsamples) s =
  run_pairs e cpus nsamples (pairs_from cpus i count) s.
Proof.
  induction count as [|count IH]; intros i s; [reflexivity|].
  change (pairs_from cpus i (S count))
    with (map (pair i) (seq (i + 1) (n - (i + 1)))
          ++ pairs_from cpus (S i) count).
  rewrite run_pairs_app. cbn [for_loop].
  replace (inner_loop e cpus nsamples i s)
    with (run_pairs e cpus nsamples
            (map (pair i) (seq (i + 1) (n - (i + 1)))) s)
    by (symmetry; apply inner_loop_pairs).
  destruct (run_pairs e cpus nsamples _ s); simpl;
    [|reflexivity|reflexivity].
  replace (i + 1) with (S i) by lia. apply IH.
Qed.

Lemma main_loops_pairs :
  main_loops e cpus nsamples =
  run_pairs e cpus nsamples (all_pairs cpus) blank.
Proof.
  unfold main_loops, for_range, all_pairs.
  replace (n - 0) with n by lia. apply outer_loop_pairs.
Qed.

Lemma run_pairs_all ps : forall s,
  forallb ok ps = true ->
  run_pairs e cpus nsamples ps s = Returned (fold_left write ps s).
Proof.
  induction ps as [|p ps IH]; intros s H; simpl in *; [reflexivity|].
  apply andb_true_iff in H as [Hp Hps].
  rewrite (pair_body_returns p s Hp). simpl. apply IH, Hps.
Qed.

Lemma run_pairs_returned ps : forall s s',
  run_pairs e cpus nsamples ps s = Returned s' ->
  forallb ok ps = true /\ s' = fold_left write ps s.
Proof.
  induction ps as [|[i j] ps IH]; intros s s'; simpl.
  - intros H. injection H as <-. auto.
  - destruct (pair_body e cpus nsamples i j s) as [s1| |] eqn:E;
      simpl; intros H; try discriminate H.
    apply pair_body_returned in E as [Hok ->].
    apply IH in H as [Hps ->]. rewrite Hok, Hps. auto.
Qed.

(** The first pair that does not return decides. *)
Lemma run_pairs_stop before p after s :
  forallb ok before = true -> ok p = false ->
  run_pairs e cpus nsamples (before ++ p :: after) s =
  match measure p.1 p.2 with
  | Returned _ => Hangs
  | Exited st err => Exited st err
  | Hangs => Hangs
  end.
Proof.
  intros Hb Hp. rewrite run_pairs_app, (run_pairs_all before s Hb).
  destruct p as [i j]. simpl.
  apply (pair_body_stops i j _ Hp (run_pairs e cpus nsamples after)).
Qed.

Lemma first_stop ps :
  forallb ok ps = false ->
  exists before p after,
    ps = before ++ p :: after /\ forallb ok before = true /\ ok p = false.
Proof.
  induction ps as [|p ps IH]; simpl; intros H; [discriminate H|].
  destruct (ok p) eqn:Hp.
  - destruct (IH H) as (before & q & after & -> & Hb & Hq).
    exists (p :: before), q, after. simpl. rewrite Hp. auto.
  - exists [], p, ps. auto.
Qed.

(** [main_loops] in closed form: the run stops at the first pair whose
    measurement does not return, and otherwise every pair is written
    in turn. *)
Lemma main_loops_decide :
  (forallb ok (all_pairs cpus) = true /\
   main_loops e cpus nsamples =
   Returned (fold_left write (all_pairs cpus) blank)) \/
  (exists before p after,
     all_pairs cpus = before ++ p :: after /\
     forallb ok before = true /\ ok p = false /\
     main_loops e cpus nsamples =
     match measure p.1 p.2 with
     | Returned _ => Hangs
     | Exited st err => Exited st err
     | Hangs => Hangs
     end).
Proof.
  rewrite main_loops_pairs.
  destruct (forallb ok (all_pairs cpus)) eqn:Hall.
  - left. split; [reflexivity|]. apply run_pairs_all, Hall.
  - right. destruct (first_stop _ Hall) as (before & p & after & E & Hb & Hp).
    exists before, p, after. rewrite E at 2.
    rewrite (run_pairs_stop before p after _ Hb Hp). auto.
Qed.

Lemma main_loops_returned s :
  main_loops e cpus nsamples = Returned s ->
  forallb ok (all_pairs cpus) = true /\
  s = fold_left write (all_pairs cpus) blank.
Proof.
  rewrite main_loops_pairs. apply run_pairs_returned.
Qed.

Lemma returns_all :
  pins_succeed e -> measurements_end e -> forall p, ok p = true.
Proof.
  intros Hp Hm p. unfold returns, pair_ok, pin_fails.
  destruct (Hm p.1 p.2) as [-> ->].
  rewrite !andb_true_iff, !negb_true_iff, !Z.eqb_neq.
  repeat split; apply Hp.
Qed.

Lemma main_loops_total :
  pins_succeed e -> measurements_end e ->
  main_loops e cpus nsamples =
  Returned (fold_left write (all_pairs cpus) blank).
Proof.
  intros Hp Hm. rewrite main_loops_pairs. apply run_pairs_all.
  apply forallb_forall. intros p _. apply returns_all; assumption.
Qed.

(** ** The pairs visited *)

Lemma in_pairs_from a b i count :
  In (a, b) (pairs_from cpus i count) <-> i <= a < i + count /\ a < b < n.
Proof.
  unfold pairs_from. rewrite in_flat_map. split.
  - intros (x & Hx & Hab). apply in_seq in Hx. apply in_map_iff in Hab.
    destruct Hab as (y & Heq & Hy). apply in_seq in Hy.
    injection Heq as -> ->. lia.
  - intros [Ha Hb]. exists a. split; [apply in_seq; lia|].
    apply in_map_iff. exists b. split; [reflexivity|apply in_seq; lia].
Qed.

Lemma in_all_pairs a b : In (a, b) (all_pairs cpus) <-> a < b < n.
Proof. unfold all_pairs. rewrite in_pairs_from. lia. Qed.

Lemma NoDup_pairs_from count : forall i, NoDup (pairs_from cpus i count).
Proof.
  induction count as [|count IH]; intros i.
  - apply NoDup_nil_2.
  - change (pairs_from cpus i (S count))
      with (map (pair i) (seq (i + 1) (n - (i + 1)))
            ++ pairs_from cpus (S i) count).
    apply NoDup_app. split; [|split].
    + apply (NoDup_fmap_2 (pair i)), NoDup_seq.
    + intros [a b] Hin Hin'. apply list_elem_of_In in Hin, Hin'.
      apply in_map_iff in Hin.
      destruct Hin as (y & Heq & _). injection Heq as <- <-.
      apply in_pairs_from in Hin'. lia.
    + apply IH.
Qed.

Lemma length_pairs_from count : forall i,
  i + count = n -> 2 * length (pairs_from cpus i count) = count * (count - 1).
Proof.
  induction count as [|count IH]; intros i Hn; [reflexivity|].
  change (pairs_from cpus i (S count))
    with (map (pair i) (seq (i + 1) (n - (i + 1)))
          ++ pairs_from cpus (S i) count).
  rewrite length_app, length_map, length_seq.
  specialize (IH (S i) ltac:(lia)). nia.
Qed.

Lemma length_all_pairs : length (all_pairs cpus) = n * (n - 1) / 2.
Proof.
  pose proof (length_pairs_from n 0 ltac:(lia)) as H.
  unfold all_pairs. apply Nat.div_unique_exact; lia.
Qed.

(** ** The writes *)

Lemma measured_fold ps : forall s,
  measured (fold_left write ps s) = rev ps ++ measured s.
Proof.
  induction ps as [|p ps IH]; intros s; simpl; [reflexivity|].
  rewrite IH. simpl. rewrite <- app_assoc. reflexivity.
Qed.

Lemma data_fold ps : forall s,
  data (fold_left write ps s) =
  fold_left (write_pair e cpus nsamples) ps (data s).
Proof.
  induction ps as [|p ps IH]; intros s; simpl; [reflexivity|apply IH].
Qed.

Lemma length_write_fold ps : forall d,
  length (fold_left (write_pair e cpus nsamples) ps d) = length d.
Proof.
  induction ps as [|p ps IH]; intros d; simpl; [reflexivity|].
  rewrite IH. unfold write_pair. rewrite !length_insert. reflexivity.
Qed.

(** A position no pair of the list writes keeps its value. *)
Lemma write_fold_other ps k : forall d,
  (forall a b, In (a, b) ps -> k <> a * n + b /\ k <> b * n + a) ->
  fold_left (write_pair e cpus nsamples) ps d !! k = d !! k.
Proof.
  induction ps as [|[a b] ps IH]; intros d Hk; simpl; [reflexivity|].
  rewrite IH by (intros; apply Hk; right; assumption).
  destruct (Hk a b (or_introl eq_refl)) as [H1 H2].
  unfold write_pair; simpl.
  rewrite !list_lookup_insert_ne by congruence. reflexivity.
Qed.

(** Row-major positions of in-range columns determine row and column. *)
Lemma position_inj a b x y :
  b < n -> y < n -> a * n + b = x * n + y -> a = x /\ b = y.
Proof.
  intros Hb Hy H.
  destruct (lt_eq_lt_dec a x) as [[Hlt|Heq]|Hgt].
  - pose proof (Nat.mul_le_mono_r (a + 1) x n ltac:(lia)). lia.
  - subst. lia.
  - pose proof (Nat.mul_le_mono_r (x + 1) a n ltac:(lia)). lia.
Qed.

(** A pair of the list leaves its value in both mirror positions,
    whatever is written after it. *)
Lemma write_fold_pair ps : forall d a b,
  length d = n * n ->
  (forall x y, In (x, y) ps -> x < y < n) ->
  In (a, b) ps ->
  fold_left (write_pair e cpus nsamples) ps d !! (a * n + b) = Some (lat a b)
  /\ fold_left (write_pair e cpus nsamples) ps d !! (b * n + a)
     = Some (lat a b).
Proof.
  induction ps as [|[x y] ps IH]; intros d a b Hlen Hps Hin; [destruct Hin|].
  simpl.
  assert (Hab : a < b < n).
  { apply Hps. assumption. }
  destruct (in_dec (fun p q : nat * nat => decide (p = q)) (a, b) ps)
    as [Hlater|Hnot].
  - apply IH; [|intros; apply Hps; right; assumption|assumption].
    unfold write_pair. rewrite !length_insert. assumption.
  - destruct Hin as [Heq|Hin]; [|contradiction]. injection Heq as -> ->.
    assert (Hfree : forall u v, In (u, v) ps ->
              (a * n + b <> u * n + v /\ a * n + b <> v * n + u) /\
              (b * n + a <> u * n + v /\ b * n + a <> v * n + u)).
    { intros u v Huv.
      assert (u < v < n) by (apply Hps; right; assumption).
      assert ((u, v) <> (a, b)) by (intros E; apply Hnot; congruence).
      repeat split; intros E; apply position_inj in E; try lia;
        destruct E; subst; try lia; congruence. }
    rewrite !write_fold_other by (intros u v Huv; apply (Hfree u v Huv)).
    unfold write_pair; simpl. split.
    + rewrite list_lookup_insert_ne by nia.
      apply list_lookup_insert_eq. nia.
    + apply list_lookup_insert_eq. rewrite length_insert. nia.
Qed.

(** The final matrix, entry by entry. *)
Lemma final_entries s :
  main_loops e cpus nsamples = Returned s ->
  length (data s) = n * n /\
  (forall i j, i < j < n ->
     entry cpus (data s) i j = Some (lat i j) /\
     entry cpus (data s) j i = Some (lat i j)) /\
  (forall i, i < n -> entry cpus (data s) i i = Some 0%Z).
Proof.
  intros Hs. apply main_loops_returned in Hs as [_ ->].
  rewrite data_fold. unfold start, entry; simpl.
  split; [|split].
  - rewrite length_write_fold, length_replicate. reflexivity.
  - intros i j Hij. apply write_fold_pair.
    + apply length_replicate.
    + intros x y. apply in_all_pairs.
    + apply in_all_pairs. assumption.
  - intros i Hi. rewrite write_fold_other.
    + apply lookup_replicate_2. nia.
    + intros a b Hab. apply in_all_pairs in Hab.
      split; intros E; apply position_inj in E; lia.
Qed.

Lemma final_measured s :
  main_loops e cpus nsamples = Returned s ->
  rev (measured s) = all_pairs cpus.
Proof.
  intros Hs. apply main_loops_returned in Hs as [_ ->].
  rewrite measured_fold. simpl. rewrite app_nil_r. apply rev_involutive.
Qed.

End Run.

End BuilderFacts.

Module ProtocolFacts.

Import Clock ClockFacts Sampler SamplerFacts Protocol Invariants.
Local Open Scope Z_scope.

(** The elapsed time stays folded in the proofs about the steps. *)
#[local] Opaque elapsed_ns elapsed_double.

(** ** Runs, step by step *)

Lemma run_snoc c sched x : run c (sched ++ [x]) = step c (run c sched) x.
Proof. unfold run. rewrite fold_left_app. reflexivity. Qed.

(** Turn the boolean tests of the code into facts. *)
Ltac tests :=
  repeat match goal with
  | H : (_ =? _) = true |- _ => apply Z.eqb_eq in H
  | H : (_ =? _) = false |- _ => apply Z.eqb_neq in H
  | H : (_ <? _) = true |- _ => apply Z.ltb_lt in H
  | H : (_ <? _) = false |- _ => apply Z.ltb_ge in H
  | H : (_ <=? _) = true |- _ => apply Z.leb_le in H
  | H : (_ <=? _) = false |- _ => apply Z.leb_gt in H
  end.

(** Decide the next test of the code in the goal. *)
Ltac branch :=
  match goal with
  | |- context [if ?b then _ else _] => destruct b eqn:?
  end.

Ltac branch_in H :=
  match type of H with
  | context [if ?b then _ else _] => destruct b eqn:?
  end.

(** An equation between traces that cannot hold. *)
Ltac impossible H :=
  first [ discriminate H
        | exfalso; apply (f_equal (@length event)) in H; simpl in H; lia ].

(** Take the hypotheses apart, deciding the tests they contain. *)
Ltac unpack :=
  repeat match goal with
  | H : _ /\ _ |- _ => destruct H
  | H : _ \/ _ |- _ => destruct H
  | H : exists _, _ |- _ => destruct H
  | H : False |- _ => destruct H
  | H : context [if ?b then _ else _] |- _ => destruct b eqn:?
  end.

(** Close a case of an invariant proof. *)
Ltac settle_with tac :=
  unpack; tests; simplify_eq; simpl in *; try lia;
  intuition (first [ lia | congruence | solve [eauto] | tac ]).

Ltac settle := settle_with fail.

(** A step leaves the trace alone or adds one event to it. *)
Lemma step_log c s x :
  log (step c s x) = log s \/ exists e, log (step c s x) = e :: log s.
Proof.
  destruct x as [[|] dt]; unfold step; simpl.
  - unfold main_step; simpl. destruct (main s); repeat branch; simpl; eauto.
    destruct (thread s); simpl; eauto.
  - unfold thread_step; simpl.
    destruct (thread s); repeat branch; simpl; eauto.
Qed.

(** Every event of a trace was added by one step of the run, taken from
    a state the run reaches and whose trace is what precedes the event. *)
Lemma emitted_by_step c sched : forall pre e post,
  trace c sched = pre ++ e :: post ->
  exists sched1 x,
    log (run c sched1) = rev pre /\
    log (step c (run c sched1) x) = e :: rev pre.
Proof.
  unfold trace.
  induction sched as [|x sched IH] using rev_ind; intros pre e post Htr.
  - destruct pre; discriminate.
  - rewrite run_snoc in Htr.
    destruct (step_log c (run c sched) x) as [Hsame|[e' Hnew]].
    + rewrite Hsame in Htr. eauto.
    + rewrite Hnew in Htr. simpl in Htr.
      induction post as [|e'' post' _] using rev_ind.
      * apply app_inj_tail in Htr as [Hpre ->].
        exists sched, x. rewrite Hnew, <- Hpre, rev_involutive. auto.
      * rewrite app_comm_cons, app_assoc in Htr.
        apply app_inj_tail in Htr as [Hpre ->]. eauto.
Qed.


Section Flag.

Variable c : config.
Hypothesis Hflag : use_write c = false.

Lemma flag_inv_init : flag_inv c init.
Proof. simpl. split; [reflexivity|]. left. simpl. auto. Qed.

Lemma flag_inv_step s x : flag_inv c s -> flag_inv c (step c s x).
Proof.
  destruct s as [a b clk mp tp t1 r lg].
  unfold flag_inv, thread_at, thread_next, thread_enter.
  destruct x as [[|] dt]; unfold step; simpl.
  - unfold main_step, main_enter; simpl. intros H.
    destruct mp; simpl in *; rewrite ?Hflag in *;
      try (destruct tp; simpl in * );
      repeat (branch; simpl); try solve [settle].
  - unfold thread_step, thread_enter; simpl. intros H.
    destruct tp; simpl in *; rewrite ?Hflag in *;
      try (destruct mp; simpl in * );
      repeat (branch; simpl); settle.
Qed.

Lemma flag_inv_run sched : flag_inv c (run c sched).
Proof.
  induction sched as [|x sched IH] using rev_ind.
  - apply flag_inv_init.
  - rewrite run_snoc. apply flag_inv_step, IH.
Qed.

(** What the step that adds a given event finds in the trace. *)
Lemma flag_emitted s x e :
  flag_inv c s -> log (step c s x) = e :: log s -> flag_before e (log s).
Proof.
  intros Hinv Hstep. unfold flag_before.
  destruct s as [a b clk mp tp t1 r lg].
  unfold flag_inv, thread_at, thread_next, thread_enter in Hinv.
  rewrite Hflag in Hinv.
  destruct x as [[|] dt]; unfold step in Hstep; simpl in *.
  - unfold main_step in Hstep; simpl in Hstep.
    destruct mp; simpl in *; try tauto;
      try (destruct tp; simpl in * );
      repeat (branch_in Hstep; simpl in Hstep); try impossible Hstep;
      injection Hstep as <-; rewrite ?Hflag; try exact I.
    all: settle.
  - unfold thread_step in Hstep; simpl in Hstep.
    destruct tp; simpl in *;
      repeat (branch_in Hstep; simpl in Hstep); try impossible Hstep;
      injection Hstep as <-; rewrite ?Hflag in *; try exact I.
    all: destruct mp; simpl in *; settle.
Qed.

Lemma flag_trace sched pre e post :
  trace c sched = pre ++ e :: post -> flag_before e (rev pre).
Proof.
  intros Htr. apply emitted_by_step in Htr as (sched1 & x & Hlog & Hstep).
  rewrite <- Hlog in *.
  eapply flag_emitted; [apply flag_inv_run|eassumption].
Qed.

End Flag.

End ProtocolFacts.

Module CasFacts.

Import Clock ClockFacts Sampler SamplerFacts Protocol Invariants ProtocolFacts.
Local Open Scope Z_scope.

(** The elapsed time stays folded in the proofs about the steps. *)
#[local] Opaque elapsed_ns elapsed_double.

Lemma cas_log_succ m k :
  0 <= k -> cas_log m (k + 1) = cas_ev m k :: cas_log m k.
Proof.
  intros Hk. unfold cas_log.
  rewrite Z2Nat.inj_add by lia. rewrite Nat.add_comm.
  simpl. rewrite Z2Nat.id by assumption. reflexivity.
Qed.

Lemma cas_ev_main m n :
  cas_ev m (2 * n - 1 + 1) = EvCas Initiator (2 * n - 1) (2 * n - 1 + 1) m.
Proof.
  unfold cas_ev. replace (2 * n - 1 + 1) with (2 * n) by lia.
  rewrite Z.even_mul. reflexivity.
Qed.

Lemma cas_ev_thread m n :
  cas_ev m (2 * n + 1) = EvCas Responder (2 * n) (2 * n + 1) m.
Proof.
  unfold cas_ev. rewrite Z.even_add, Z.even_mul. simpl.
  replace (2 * n + 1 - 1) with (2 * n) by lia. reflexivity.
Qed.

Lemma even_main n : Z.even (2 * n - 1 + 1) = true.
Proof.
  replace (2 * n - 1 + 1) with (2 * n) by lia.
  rewrite Z.even_mul. reflexivity.
Qed.

Lemma even_thread n : Z.even (2 * n + 1) = false.
Proof. rewrite Z.even_add, Z.even_mul. reflexivity. Qed.

Lemma timed_log_main m n lg :
  0 <= n -> timed_log m (2 * n - 1 + 1) lg ->
  timed_log m (2 * n - 1 + 1 + 1)
    (EvCas Initiator (2 * n - 1) (2 * n - 1 + 1) m :: lg).
Proof.
  intros Hn (t & rest & -> & Hin). exists t, rest. split; [|assumption].
  rewrite (cas_log_succ m (2 * n - 1 + 1)) by lia.
  rewrite cas_ev_main. reflexivity.
Qed.

Lemma timed_log_thread m n lg :
  0 <= n -> timed_log m (2 * n + 1) lg ->
  timed_log m (2 * n + 1 + 1) (EvCas Responder (2 * n) (2 * n + 1) m :: lg).
Proof.
  intros Hn (t & rest & -> & Hin). exists t, rest. split; [|assumption].
  rewrite (cas_log_succ m (2 * n + 1)) by lia.
  rewrite cas_ev_thread. reflexivity.
Qed.

Lemma timed_log_last m k lg :
  0 < k -> timed_log m k lg -> In (cas_ev m (k - 1)) lg.
Proof.
  intros Hk (t & rest & -> & _).
  assert (cas_log m k = cas_ev m (k - 1) :: cas_log m (k - 1)) as ->.
  { rewrite <- cas_log_succ by lia. f_equal. lia. }
  left. reflexivity.
Qed.

(** Extend or start the trace of the timed window. *)
Ltac timed :=
  solve [ apply timed_log_main; [lia|assumption]
        | apply timed_log_thread; [lia|assumption]
        | eexists _, _; split; [reflexivity|eassumption]
        | f_equal; lia ].

Section Cas.

Variable c : config.
Hypothesis Hcas : use_write c = true.

Lemma cas_inv_init : cas_inv c init.
Proof.
  unfold cas_inv; simpl. split; [lia|]. split; [reflexivity|].
  left. simpl. auto.
Qed.

Lemma cas_inv_step s x : cas_inv c s -> cas_inv c (step c s x).
Proof.
  destruct s as [a b clk mp tp t1 r lg].
  unfold cas_inv, thread_at.
  destruct x as [[|] dt]; unfold step; simpl.
  - unfold main_step, main_enter, thread_enter; simpl. intros H.
    destruct mp; simpl in *; rewrite ?Hcas in *;
      try (destruct tp; simpl in * );
      repeat (branch; simpl); settle_with timed.
  - unfold thread_step, thread_enter; simpl. intros H.
    destruct tp; simpl in *; rewrite ?Hcas in *;
      try (destruct mp; simpl in * );
      repeat (branch; simpl); settle_with timed.
Qed.

Lemma cas_inv_run sched : cas_inv c (run c sched).
Proof.
  induction sched as [|x sched IH] using rev_ind.
  - apply cas_inv_init.
  - rewrite run_snoc. apply cas_inv_step, IH.
Qed.

Lemma rev_cas_log_200 m : rev (cas_log m 200) = cas_chain m.
Proof. reflexivity. Qed.

(** The step that reads the end timestamp of sample [m] finds the
    timed window complete in the trace. *)
Lemma ts2_emitted s x m t2 :
  cas_inv c s -> log (step c s x) = EvTs2 m t2 :: log s ->
  exists lg', log s = EvSpinExit Initiator Seq1 199 m :: lg' /\
              timed_log m 200 lg'.
Proof.
  intros Hinv Hstep.
  destruct s as [a b clk mp tp t1 r lg].
  unfold cas_inv in Hinv.
  destruct x as [[|] dt]; unfold step in Hstep; simpl in *.
  - unfold main_step in Hstep; simpl in Hstep.
    destruct mp; simpl in *; try tauto;
      try (destruct tp; simpl in *; impossible Hstep);
      repeat (branch_in Hstep; simpl in Hstep); try impossible Hstep.
    injection Hstep as -> _. tauto.
  - unfold thread_step in Hstep; simpl in Hstep.
    destruct tp; simpl in *;
      repeat (branch_in Hstep; simpl in Hstep); impossible Hstep.
Qed.

(** Up to its end timestamp a sample is, in this order and with
    nothing in between: the barrier, the start timestamp, the 200
    exchanges and the last read of [seq1]. *)
Lemma cas_sample_trace sched pre post m t2 :
  trace c sched = pre ++ EvTs2 m t2 :: post ->
  exists before t1,
    pre = before ++ barrier m t1 ++ cas_chain m ++
          [EvSpinExit Initiator Seq1 199 m] /\
    In (EvStore Initiator Seq2 0 m) before.
Proof.
  intros Htr. apply emitted_by_step in Htr as (sched1 & x & Hlog & Hstep).
  rewrite <- Hlog in Hstep.
  apply ts2_emitted in Hstep as (lg' & Hlg & t & rest & -> & Hin);
    [|apply cas_inv_run].
  exists (rev rest), t. split; [|apply in_rev in Hin; exact Hin].
  rewrite <- (rev_involutive pre), <- Hlog, Hlg, <- rev_cas_log_200.
  unfold barrier_log, barrier.
  rewrite (app_comm_cons (cas_log m 200)).
  change (EvTs1 m t :: EvStore Initiator Seq2 (-1) m ::
          EvSpinExit Initiator Seq2 1 m :: EvStore Responder Seq2 1 m ::
          EvSpinExit Responder Seq2 0 m :: rest)
    with ([EvTs1 m t; EvStore Initiator Seq2 (-1) m;
           EvSpinExit Initiator Seq2 1 m; EvStore Responder Seq2 1 m;
           EvSpinExit Responder Seq2 0 m] ++ rest).
  rewrite !rev_app_distr. rewrite <- !app_assoc. reflexivity.
Qed.

(** What the step that adds a given event finds in the trace. *)
Lemma cas_emitted s x e :
  cas_inv c s -> log (step c s x) = e :: log s -> cas_before e (log s).
Proof.
  intros Hinv Hstep. unfold cas_before.
  destruct s as [a b clk mp tp t1 r lg].
  unfold cas_inv, thread_at, thread_enter in Hinv. rewrite Hcas in Hinv.
  destruct x as [[|] dt]; unfold step in Hstep; simpl in *.
  - unfold main_step in Hstep; simpl in Hstep.
    destruct mp; simpl in *; try tauto;
      try (destruct tp; simpl in * );
      repeat (branch_in Hstep; simpl in Hstep); try impossible Hstep;
      injection Hstep as <-; rewrite ?Hcas; try exact I.
    all: unpack; tests; simplify_eq; simpl in *;
      rewrite ?even_main; repeat split; try lia; eauto.
  - unfold thread_step in Hstep; simpl in Hstep.
    destruct tp; simpl in *;
      repeat (branch_in Hstep; simpl in Hstep); try impossible Hstep;
      injection Hstep as <-; rewrite ?Hcas in *; try exact I.
    all: destruct mp; simpl in *; try tauto.
    all: unpack; tests; simplify_eq; simpl in *;
      rewrite ?even_thread; repeat split; try lia; eauto.
Qed.

Lemma cas_trace sched pre e post :
  trace c sched = pre ++ e :: post -> cas_before e (rev pre).
Proof.
  intros Htr. apply emitted_by_step in Htr as (sched1 & x & Hlog & Hstep).
  rewrite <- Hlog in *. eapply cas_emitted; [apply cas_inv_run|eassumption].
Qed.

(** A step changes [seq1] by one exchange or resets it. *)
Lemma cas_counter_step s x :
  cas_inv c s ->
  seq1 (step c s x) = seq1 s \/ seq1 (step c s x) = seq1 s + 1 \/
  (seq1 (step c s x) = -1 /\ exists m, main s = MReset1 m).
Proof.
  intros Hinv. destruct s as [a b clk mp tp t1 r lg].
  unfold cas_inv in Hinv.
  destruct x as [[|] dt]; unfold step; simpl in *.
  - unfold main_step; simpl.
    destruct mp; simpl in *; try tauto; try (destruct tp; simpl);
      repeat (branch; simpl); tests; eauto; try lia.
  - unfold thread_step; simpl.
    destruct tp; simpl in *; repeat (branch; simpl); tests; eauto; lia.
Qed.

End Cas.

End CasFacts.

Module WarmFacts.

Import Clock ClockFacts Sampler SamplerFacts Protocol Invariants ProtocolFacts.
Local Open Scope Z_scope.

(** The elapsed time stays folded in the proofs about the steps. *)
#[local] Opaque elapsed_ns elapsed_double.

Lemma warm_elapsed t0 now :
  warm (clock_gettime t0) (clock_gettime now) = true ->
  200000000 <= now - t0.
Proof.
  unfold warm. rewrite elapsed_double_clock. intros H. tests. assumption.
Qed.

(** An event of the other context changes nothing. *)
Lemma main_warm_other c p lg e :
  is_warm Initiator e = false -> in_sample Initiator e = false ->
  main_warm c p lg -> main_warm c p (e :: lg).
Proof.
  intros Hw Hs. unfold main_warm, warmed, warming, fresh; simpl.
  rewrite Hw, Hs. trivial.
Qed.

Lemma thread_warm_other c p lg e :
  is_warm Responder e = false -> in_sample Responder e = false ->
  thread_warm c p lg -> thread_warm c p (e :: lg).
Proof.
  intros Hw Hs. unfold thread_warm, warmed, warming, fresh; simpl.
  rewrite Hw, Hs. trivial.
Qed.

Ltac warm_settle :=
  unfold warmed, warming, fresh in *; unpack; simplify_eq; simpl in *;
  repeat match goal with
  | H : warm (clock_gettime _) (clock_gettime _) = true |- _ =>
      apply warm_elapsed in H
  | H : preheat _ = _ |- _ => rewrite H in *
  | H : List.filter _ _ = _ |- _ => rewrite H in *; clear H
  end;
  unpack; simplify_eq;
  try solve [ intuition (first [ congruence | solve [eauto 8] ]) ].

Section Warm.

Variable c : config.

Lemma warm_inv_init : warm_inv c init.
Proof. repeat split. Qed.

(** The main thread adds only events of its own. *)
Lemma main_step_log s :
  main (main_step c s) = main s /\ log (main_step c s) = log s \/
  exists e, log (main_step c s) = e :: log s /\
            is_warm Responder e = false /\ in_sample Responder e = false.
Proof.
  unfold main_step. destruct (main s) eqn:Hm; try destruct (thread s);
    repeat (branch; simpl); rewrite ?Hm; eauto.
Qed.

Lemma thread_step_log s :
  thread (thread_step c s) = thread s /\ log (thread_step c s) = log s \/
  exists e, log (thread_step c s) = e :: log s /\
            is_warm Initiator e = false /\ in_sample Initiator e = false.
Proof.
  unfold thread_step. destruct (thread s) eqn:Hm;
    repeat (branch; simpl); rewrite ?Hm; eauto.
Qed.

Lemma main_step_thread s : thread (main_step c s) = thread s.
Proof.
  unfold main_step. destruct (main s); try destruct (thread s) eqn:?;
    repeat (branch; simpl); auto.
Qed.

Lemma thread_step_main s : main (thread_step c s) = main s.
Proof.
  unfold thread_step. destruct (thread s); repeat (branch; simpl); auto.
Qed.

Lemma main_step_warm s :
  main_warm c (main s) (log s) ->
  main_warm c (main (main_step c s)) (log (main_step c s)).
Proof.
  destruct s as [a b clk mp tp t1 r lg].
  unfold main_warm, main_step, main_enter; simpl. intros H.
  destruct mp; simpl in *; try (destruct tp; simpl in * );
    repeat (branch; simpl); warm_settle.
Qed.

Lemma thread_step_warm s :
  thread_warm c (thread s) (log s) ->
  thread_warm c (thread (thread_step c s)) (log (thread_step c s)).
Proof.
  destruct s as [a b clk mp tp t1 r lg].
  unfold thread_warm, thread_step, thread_enter; simpl. intros H.
  destruct tp; simpl in *; repeat (branch; simpl); warm_settle.
Qed.

Lemma warm_inv_step s x : warm_inv c s -> warm_inv c (step c s x).
Proof.
  intros [Hm Ht]. destruct x as [[|] dt]; unfold step, warm_inv; simpl.
  - split.
    + apply (main_step_warm (tick dt s)). exact Hm.
    + rewrite main_step_thread.
      destruct (main_step_log (tick dt s)) as [[_ ->]|(e & -> & Hw & Hs)].
      * exact Ht.
      * apply thread_warm_other; assumption.
  - split.
    + rewrite thread_step_main.
      destruct (thread_step_log (tick dt s)) as [[_ ->]|(e & -> & Hw & Hs)].
      * exact Hm.
      * apply main_warm_other; assumption.
    + apply (thread_step_warm (tick dt s)). exact Ht.
Qed.

Lemma warm_inv_run sched : warm_inv c (run c sched).
Proof.
  induction sched as [|x sched IH] using rev_ind.
  - apply warm_inv_init.
  - rewrite run_snoc. apply warm_inv_step, IH.
Qed.

(** A context adds an event of its sample loop only after its prologue. *)
Lemma sample_emitted s x t e :
  warm_inv c s -> log (step c s x) = e :: log s ->
  in_sample t e = true -> warmed c t (log s).
Proof.
  intros [Hm Ht] Hstep Hs.
  destruct s as [a b clk mp tp t1 r lg].
  destruct x as [[|] dt]; unfold step in Hstep; simpl in *.
  - unfold main_step in Hstep; simpl in Hstep.
    destruct mp; simpl in *; try (destruct tp; simpl in * );
      repeat (branch_in Hstep; simpl in Hstep); try impossible Hstep;
      injection Hstep as <-; destruct t; try discriminate Hs; assumption.
  - unfold thread_step in Hstep; simpl in Hstep.
    destruct tp; simpl in *;
      repeat (branch_in Hstep; simpl in Hstep); try impossible Hstep;
      injection Hstep as <-; destruct t; try discriminate Hs; assumption.
Qed.

Lemma warm_events_rev t lg :
  warm_events t (rev lg) = rev (List.filter (is_warm t) lg).
Proof. apply filter_rev. Qed.

Lemma warmed_shape t lg :
  warmed c t lg ->
  if preheat c
  then exists t0 t1,
         warm_events t (rev lg) = [EvWarmStart t t0; EvWarmEnd t t1] /\
         200000000 <= t1 - t0
  else warm_events t (rev lg) = [].
Proof.
  unfold warmed. rewrite warm_events_rev. destruct (preheat c).
  - intros (t0 & t1 & -> & H). eauto.
  - intros ->. reflexivity.
Qed.

Lemma warm_trace_shape sched t : warm_shape t (warm_events t (trace c sched)).
Proof.
  destruct (warm_inv_run sched) as [Hm Ht]. unfold trace.
  rewrite warm_events_rev. unfold warm_shape.
  destruct t.
  - unfold main_warm, warmed, warming, fresh in Hm.
    destruct (main (run c sched)); destruct (preheat c); unpack;
      match goal with H : List.filter _ _ = _ |- _ => rewrite H end;
      simpl; eauto 8.
  - unfold thread_warm, warmed, warming, fresh in Ht.
    destruct (thread (run c sched)); destruct (preheat c); unpack;
      match goal with H : List.filter _ _ = _ |- _ => rewrite H end;
      simpl; eauto 8.
Qed.

(** The warm-up of a context is complete before the first event of its
    sample loop, and no part of it comes after. *)
Lemma warm_before_sample sched t pre e post :
  preheat c = true ->
  trace c sched = pre ++ e :: post -> in_sample t e = true ->
  exists t0 t1,
    warm_events t pre = [EvWarmStart t t0; EvWarmEnd t t1] /\
    200000000 <= t1 - t0 /\ warm_events t post = [].
Proof.
  intros Hpre Htr Hs.
  pose proof (warm_trace_shape sched t) as Hall.
  pose proof Htr as Htr'.
  apply emitted_by_step in Htr as (sched1 & x & Hlog & Hstep).
  rewrite <- Hlog in Hstep.
  eapply sample_emitted in Hstep; [|apply warm_inv_run|exact Hs].
  apply warmed_shape in Hstep. rewrite Hpre, Hlog, rev_involutive in Hstep.
  destruct Hstep as (t0 & t1 & Hw & Hlen). exists t0, t1.
  split; [assumption|]. split; [assumption|].
  rewrite Htr' in Hall. unfold warm_events in *.
  rewrite List.filter_app, Hw in Hall. simpl in Hall.
  assert (is_warm t e = false) as He.
  { destruct e; try reflexivity; discriminate Hs. }
  rewrite He in Hall.
  destruct Hall as [H|[(? & H)|(? & ? & H & _)]];
    first [ discriminate H | injection H as _ _ H; exact H ].
Qed.

Lemma joined_inv_step s x : joined_inv s -> joined_inv (step c s x).
Proof.
  destruct s as [a b clk mp tp t1 r lg]. unfold joined_inv.
  destruct x as [[|] dt]; unfold step; simpl.
  - unfold main_step, main_enter; simpl.
    destruct mp; simpl; try (destruct tp; simpl);
      repeat (branch; simpl); intros H H'; try discriminate H'; auto.
  - unfold thread_step; simpl.
    destruct tp; simpl; repeat (branch; simpl); intros H H';
      try discriminate (H H'); auto.
Qed.

Lemma joined_inv_run sched : joined_inv (run c sched).
Proof.
  induction sched as [|x sched IH] using rev_ind.
  - intros H. discriminate H.
  - rewrite run_snoc. apply joined_inv_step, IH.
Qed.

(** When the measurement of the pair is complete each context has
    warmed up exactly once. *)
Lemma warm_complete sched t :
  preheat c = true -> main (run c sched) = MDone ->
  exists t0 t1,
    warm_events t (trace c sched) = [EvWarmStart t t0; EvWarmEnd t t1] /\
    200000000 <= t1 - t0.
Proof.
  intros Hheat Hdone.
  pose proof (joined_inv_run sched Hdone) as Hret.
  destruct (warm_inv_run sched) as [Hm Ht].
  rewrite Hdone in Hm. rewrite Hret in Ht. simpl in Hm, Ht.
  assert (Hw : warmed c t (log (run c sched))) by (destruct t; assumption).
  apply warmed_shape in Hw. rewrite Hheat in Hw. exact Hw.
Qed.

End Warm.

End WarmFacts.

Module TimingFacts.

Import Clock ClockFacts Sampler SamplerFacts Protocol Invariants ProtocolFacts.
Local Open Scope Z_scope.

(** The elapsed time stays folded in the proofs about the steps. *)
#[local] Opaque elapsed_ns elapsed_double.

Section Timing.

Variable c : config.

Lemma timing_inv_init : timing_inv init.
Proof. unfold timing_inv; simpl. repeat split; try lia. constructor. Qed.

Lemma timing_inv_step s x : timing_inv s -> timing_inv (step c s x).
Proof.
  destruct s as [a b clk mp tp t1 r lg].
  unfold timing_inv. intros (Hclk & Hts & Hall & Hrtt & Hlow).
  assert (0 <= Z.of_N x.2) by lia.
  destruct x as [[|] dt]; unfold step; simpl in *.
  - unfold main_step; simpl.
    destruct mp; simpl in *; repeat (branch; simpl);
      try (destruct tp; simpl); repeat split; auto; try lia.
    all: try (intros; first [apply Hrtt | apply Hlow]; lia).
    all: try (constructor; [lia|assumption]).
    all: intros Hb; subst t1.
    all: first
      [ rewrite elapsed_ns_clock by lia; rewrite Hrtt by lia; reflexivity
      | pose proof (elapsed_ns_clock_nonneg (last_ts1 lg)
                      (clk + Z.of_N dt) ltac:(lia)) as He;
        specialize (Hlow ltac:(lia)); unfold update_rtt;
        destruct ((r =? -1) || _); lia ].
  - unfold thread_step; simpl.
    destruct tp; simpl in *; repeat (branch; simpl);
      repeat split; auto; try lia.
    all: intros; first [apply Hrtt | apply Hlow]; lia.
Qed.

Lemma timing_inv_run sched : timing_inv (run c sched).
Proof.
  induction sched as [|x sched IH] using rev_ind.
  - apply timing_inv_init.
  - rewrite run_snoc. apply timing_inv_step, IH.
Qed.

(** No window of a trace is negative, and while the clock is below
    2^53 ns the [rtt] of the main thread is the sample loop of Part I
    run over the windows. *)
Lemma rtt_observed sched :
  Forall (fun e => 0 <= e) (observed c sched) /\
  (clock (run c sched) < 2 ^ 53 ->
   rtt (run c sched) = sample_loop (observed c sched)).
Proof.
  destruct (timing_inv_run sched) as (_ & _ & Hall & Hrtt & _).
  unfold observed, sample_loop. split.
  - apply List.Forall_rev, Hall.
  - intros Hb. rewrite (Hrtt Hb).
    rewrite <- (rev_involutive (window_log (log (run c sched)))) at 1.
    rewrite fold_left_rev_right. reflexivity.
Qed.

(** While the clock is below 2^63 - 2048 ns the value the main thread derives
    is not negative. *)
Lemma result_nonneg sched :
  clock (run c sched) < 2 ^ 63 - 2048 -> 0 <= result (run c sched).
Proof.
  intros Hb. destruct (timing_inv_run sched) as (_ & _ & _ & _ & Hlow).
  specialize (Hlow Hb). unfold result. rewrite per_hop_200.
  destruct (Z.eq_dec (rtt (run c sched)) (-1)) as [->|Hne];
    [reflexivity|].
  apply Z.quot_pos; lia.
Qed.

(** ** No sample to take *)

Hypothesis Hnone : nsamples c <= 0.

Lemma idle_inv_init : idle_inv init.
Proof. unfold idle_inv; simpl. repeat split. constructor. Qed.

Lemma idle_inv_step s x : idle_inv s -> idle_inv (step c s x).
Proof.
  destruct s as [a b clk mp tp t1 r lg].
  unfold idle_inv. intros (Hrtt & Hm & Ht & Hall).
  destruct x as [[|] dt]; unfold step; simpl in *.
  - unfold main_step, main_enter; simpl.
    destruct mp; simpl in *; try tauto; repeat (branch; simpl);
      try (destruct tp; simpl in * ); tests; try lia;
      repeat split; auto; constructor; auto.
  - unfold thread_step, thread_enter; simpl.
    destruct tp; simpl in *; try tauto; repeat (branch; simpl);
      tests; try lia; repeat split; auto; constructor; auto.
Qed.

Lemma idle_inv_run sched : idle_inv (run c sched).
Proof.
  induction sched as [|x sched IH] using rev_ind.
  - apply idle_inv_init.
  - rewrite run_snoc. apply idle_inv_step, IH.
Qed.

End Timing.

End TimingFacts.

Module BarrierFacts.

Import Clock ClockFacts Sampler SamplerFacts Protocol Invariants.
Import ProtocolFacts CasFacts WarmFacts.
Local Open Scope Z_scope.

(** The elapsed time stays folded in the proofs about the steps. *)
#[local] Opaque elapsed_ns elapsed_double.

Section Barrier.

Variable c : config.
Hypothesis Hcas : use_write c = true.
Hypothesis Hheat : preheat c = true.

(** Behind the readiness barrier the warm-up of the spawned thread is
    over before the main thread reads a start timestamp. *)
Lemma thread_warm_before_ts1 sched pre m ts post :
  trace c sched = pre ++ EvTs1 m ts :: post ->
  exists t0 t1,
    warm_events Responder pre =
      [EvWarmStart Responder t0; EvWarmEnd Responder t1] /\
    200000000 <= t1 - t0.
Proof.
  intros Htr.
  destruct (cas_trace c Hcas sched pre _ post Htr) as (rest & Hpre & _).
  apply (f_equal (@rev event)) in Hpre. rewrite rev_involutive in Hpre.
  unfold barrier_log in Hpre. simpl in Hpre.
  rewrite <- !app_assoc in Hpre. simpl in Hpre. subst pre.
  rewrite <- app_assoc in Htr. simpl in Htr.
  apply (warm_before_sample c sched Responder) in Htr;
    [|assumption|reflexivity].
  destruct Htr as (t0 & t1 & Hw & Hlen & _). exists t0, t1.
  split; [|assumption].
  unfold warm_events in *. rewrite List.filter_app, Hw. reflexivity.
Qed.

End Barrier.

End BarrierFacts.

(* ================================================================== *)
(** * The claims *)
(* ================================================================== *)

Module Claims.

Import Clock ClockFacts Sampler SamplerFacts Builder BuilderFacts.
Import Protocol Invariants ProtocolFacts CasFacts WarmFacts TimingFacts.
Import BarrierFacts Scenario.

Lemma env3_monotonic i j : i + j < 1000 -> monotonic (stamps env3 i j).
Proof.
  intros Hij m. pose proof (Nat.mod_upper_bound (m + 1) 3 ltac:(lia)).
  unfold normal, not_before, to_ns; simpl. lia.
Qed.

Lemma env3_shorter i j limit :
  i + j < 1000 -> (2 ^ 53 <= limit)%Z -> shorter limit (stamps env3 i j).
Proof.
  intros Hij Hl m. pose proof (Nat.mod_upper_bound (m + 1) 3 ltac:(lia)).
  unfold to_ns; simpl. lia.
Qed.

Lemma env_window_monotonic sec nsec i j :
  (0 <= sec)%Z -> (0 <= nsec < 1000000000)%Z ->
  monotonic (stamps (env_window sec nsec) i j).
Proof.
  intros Hs Hn m. unfold normal, not_before, to_ns; simpl. lia.
Qed.

(** Both protocols run to completion under the fair schedule, and the
    loops of [main] return when every pinning call succeeds. *)
Example fair_runs_complete :
  main (run flag1 fair) = MDone /\ main (run cas1 fair) = MDone /\
  main_loops env3 cpus3 3 = Returned final3.
Proof. vm_compute. repeat split. Qed.

(** C1.  With at least one sample, a monotonic clock and timed windows
    shorter than 2^53 ns, the elapsed times the code computes in
    [double] are the windows themselves; the [rtt] the sample loop
    leaves is the least of them; [rtt / 2 / 100] is that minimum divided
    by 200 (truncating), and it is the value stored in both
    [data[i][j]] and [data[j][i]]. *)
Theorem C1_pair_value_is_min_elapsed_over_200
    (e : env) (cpus : list Z) (nsamples : Z) (s : mstate) (i j : nat) :
  (0 < nsamples)%Z ->
  monotonic (stamps e i j) ->
  shorter (2 ^ 53) (stamps e i j) ->
  main_loops e cpus nsamples = Returned s ->
  i < j < ncpus cpus ->
  let elapsed := windows (stamps e i j) nsamples in
  let least := min_elapsed elapsed in
  elapsed_times (stamps e i j) nsamples = elapsed /\
  In least elapsed /\
  Forall (fun x => (least <= x)%Z) elapsed /\
  sample_loop (elapsed_times (stamps e i j) nsamples) = least /\
  per_hop least = (least ÷ 200)%Z /\
  entry cpus (data s) i j = Some (least ÷ 200)%Z /\
  entry cpus (data s) j i = Some (least ÷ 200)%Z.
Proof.
  intros Hn Hmono Hshort Hs Hij elapsed least.
  assert (Hex : elapsed_times (stamps e i j) nsamples = elapsed)
    by (apply elapsed_times_exact; assumption).
  assert (Hne : elapsed <> []) by (apply windows_nonempty, Hn).
  assert (Hloop : sample_loop elapsed = least).
  { apply sample_loop_min; [assumption|]. apply windows_nonneg, Hmono. }
  destruct (min_elapsed_spec elapsed Hne) as [Hin Hall].
  destruct (final_entries e cpus nsamples s Hs) as (_ & Hpair & _).
  destruct (Hpair i j Hij) as [Hup Hlow].
  unfold latency, pair_latency in Hup, Hlow.
  rewrite Hex, Hloop, per_hop_200 in Hup, Hlow. rewrite Hex.
  repeat split; try assumption. apply per_hop_200.
Qed.

Lemma C1_witness :
  elapsed_times (stamps env3 0 1) 3 = windows (stamps env3 0 1) 3 /\
  In 21000%Z (windows (stamps env3 0 1) 3) /\
  Forall (fun x => (21000 <= x)%Z) (windows (stamps env3 0 1) 3) /\
  sample_loop (elapsed_times (stamps env3 0 1) 3) = 21000%Z /\
  per_hop 21000 = (21000 ÷ 200)%Z /\
  entry cpus3 (data final3) 0 1 = Some 105%Z /\
  entry cpus3 (data final3) 1 0 = Some 105%Z.
Proof.
  apply (C1_pair_value_is_min_elapsed_over_200 env3 cpus3 3 final3 0 1).
  - lia.
  - apply env3_monotonic. lia.
  - apply env3_shorter; lia.
  - reflexivity.
  - vm_compute. lia.
Defined.

(** C1, as the claim states it, at the first window whose entry
    differs, 2^53 + 7 ns: the sum of lines 213-214, rounded to a
    multiple of 2, is 2^53 + 8, and the entry is 45035996273705 where
    the window divided by 200 is 45035996273704.  At a window of
    80000000000000200 ns the sum is rounded to a multiple of 16,
    80000000000000192, and the entry is 400000000000000 where the
    window divided by 200 is 400000000000001. *)
Lemma C1_counterexample :
  (monotonic (stamps env_first 0 1) /\
   main_loops env_first cpus2 1 = Returned final_first /\
   windows (stamps env_first 0 1) 1 = [(2 ^ 53 + 7)%Z] /\
   (min_elapsed (windows (stamps env_first 0 1) 1) ÷ 200)%Z
   = 45035996273704%Z /\
   elapsed_times (stamps env_first 0 1) 1 = [(2 ^ 53 + 8)%Z] /\
   entry cpus2 (data final_first) 0 1 = Some 45035996273705%Z /\
   entry cpus2 (data final_first) 1 0 = Some 45035996273705%Z) /\
  (monotonic (stamps env_long 0 1) /\
   main_loops env_long cpus2 1 = Returned final_long /\
   windows (stamps env_long 0 1) 1 = [80000000000000200%Z] /\
   (min_elapsed (windows (stamps env_long 0 1) 1) ÷ 200)%Z
   = 400000000000001%Z /\
   elapsed_times (stamps env_long 0 1) 1 = [80000000000000192%Z] /\
   entry cpus2 (data final_long) 0 1 = Some 400000000000000%Z /\
   entry cpus2 (data final_long) 1 0 = Some 400000000000000%Z).
Proof.
  split; (split; [apply env_window_monotonic; lia|]);
    vm_compute; repeat split.
Qed.

(** C2.  In the matrix a completed run leaves, the entries at [(i, j)]
    and [(j, i)] of any two distinct positions are present and equal. *)
Theorem C2_matrix_symmetric
    (e : env) (cpus : list Z) (nsamples : Z) (s : mstate) (i j : nat) :
  main_loops e cpus nsamples = Returned s ->
  i < ncpus cpus -> j < ncpus cpus -> i <> j ->
  is_Some (entry cpus (data s) i j) /\
  entry cpus (data s) i j = entry cpus (data s) j i.
Proof.
  intros Hs Hi Hj Hne.
  destruct (final_entries e cpus nsamples s Hs) as (_ & Hpair & _).
  destruct (Nat.lt_ge_cases i j) as [Hlt|Hge].
  - destruct (Hpair i j ltac:(lia)) as [-> ->]. eauto.
  - destruct (Hpair j i ltac:(lia)) as [-> ->]. eauto.
Qed.

Lemma C2_witness :
  is_Some (entry cpus3 (data final3) 0 2) /\
  entry cpus3 (data final3) 0 2 = entry cpus3 (data final3) 2 0.
Proof.
  apply (C2_matrix_symmetric env3 cpus3 3 final3 0 2).
  - reflexivity.
  - vm_compute. lia.
  - vm_compute. lia.
  - lia.
Defined.

(** C3.  A completed run has measured each pair of positions [a < b]
    exactly once and nothing else, which makes [n (n - 1) / 2]
    measurements for [n] CPUs; no pair [(i, i)] is measured and every
    diagonal entry still holds the 0 of [calloc]. *)
Theorem C3_each_pair_measured_once
    (e : env) (cpus : list Z) (nsamples : Z) (s : mstate) :
  main_loops e cpus nsamples = Returned s ->
  NoDup (measured s) /\
  (forall a b, In (a, b) (measured s) <-> a < b < ncpus cpus) /\
  length (measured s) = ncpus cpus * (ncpus cpus - 1) / 2 /\
  (forall i, i < ncpus cpus ->
     ~ In (i, i) (measured s) /\ entry cpus (data s) i i = Some 0%Z).
Proof.
  intros Hs.
  pose proof (final_measured e cpus nsamples s Hs) as Hm.
  destruct (final_entries e cpus nsamples s Hs) as (_ & _ & Hdiag).
  assert (Hin : forall p, In p (measured s) <-> In p (all_pairs cpus)).
  { intros p. rewrite <- Hm. apply in_rev. }
  split; [|split; [|split]].
  - rewrite <- (rev_involutive (measured s)), Hm.
    apply NoDup_ListNoDup, List.NoDup_rev, NoDup_ListNoDup.
    apply NoDup_pairs_from.
  - intros a b. rewrite Hin. apply in_all_pairs.
  - rewrite <- length_rev, Hm. apply length_all_pairs.
  - intros i Hi. split; [|apply Hdiag, Hi].
    rewrite Hin, in_all_pairs. lia.
Qed.

Lemma C3_witness :
  NoDup (measured final3) /\
  (forall a b, In (a, b) (measured final3) <-> a < b < ncpus cpus3) /\
  length (measured final3) = 3 /\
  (forall i, i < ncpus cpus3 ->
     ~ In (i, i) (measured final3) /\
     entry cpus3 (data final3) i i = Some 0%Z).
Proof.
  apply (C3_each_pair_measured_once env3 cpus3 3 final3). reflexivity.
Defined.

(** C4.  With a positive sample count, a monotonic clock and timed
    windows shorter than 2^63 - 2048 ns, the matrix of a completed run
    has [ncpus * ncpus] entries, none of them negative; in particular
    none is the sentinel -1.  The same holds for the value the main
    thread derives in any run of the protocol in which the clock stays
    below 2^63 - 2048 ns. *)
Theorem C4_entries_nonnegative
    (e : env) (cpus : list Z) (nsamples : Z) (s : mstate) :
  (0 < nsamples)%Z ->
  (forall i j, i < j < ncpus cpus ->
     monotonic (stamps e i j) /\ shorter (2 ^ 63 - 2048) (stamps e i j)) ->
  main_loops e cpus nsamples = Returned s ->
  length (data s) = ncpus cpus * ncpus cpus /\
  Forall (fun v => (0 <= v)%Z /\ v <> (-1)%Z) (data s) /\
  (forall c sched,
     (clock (run c sched) < 2 ^ 63 - 2048)%Z -> (0 <= result (run c sched))%Z).
Proof.
  intros _ Hmono Hs.
  destruct (final_entries e cpus nsamples s Hs) as (Hlen & Hpair & Hdiag).
  split; [assumption|]. split; [|intros c sched; apply result_nonneg].
  apply Forall_lookup. intros k v Hk.
  assert (Hv : (0 <= v)%Z); [|split; [assumption|lia]].
  pose proof (lookup_lt_Some _ _ _ Hk) as Hklt. rewrite Hlen in Hklt.
  set (n := ncpus cpus) in *.
  assert (Hn : n <> 0) by lia.
  pose proof (Nat.div_mod k n Hn) as Hdm.
  pose proof (Nat.mod_upper_bound k n Hn) as Hj.
  assert (Hi : k / n < n) by (apply Nat.Div0.div_lt_upper_bound; lia).
  assert (Hpos : k = k / n * n + k mod n) by lia.
  unfold entry in Hpair, Hdiag. fold n in Hpair, Hdiag.
  rewrite Hpos in Hk.
  destruct (lt_eq_lt_dec (k / n) (k mod n)) as [[Hlt|Heq]|Hgt].
  - destruct (Hpair (k / n) (k mod n) ltac:(lia)) as [Hup _].
    rewrite Hup in Hk. injection Hk as <-.
    destruct (Hmono (k / n) (k mod n) ltac:(lia)).
    apply pair_latency_nonneg; assumption.
  - rewrite <- Heq in Hk. rewrite (Hdiag (k / n) Hi) in Hk.
    injection Hk as <-. lia.
  - destruct (Hpair (k mod n) (k / n) ltac:(lia)) as [_ Hlow].
    rewrite Hlow in Hk. injection Hk as <-.
    destruct (Hmono (k mod n) (k / n) ltac:(lia)).
    apply pair_latency_nonneg; assumption.
Qed.

Lemma C4_witness :
  length (data final3) = ncpus cpus3 * ncpus cpus3 /\
  Forall (fun v => (0 <= v)%Z /\ v <> (-1)%Z) (data final3) /\
  (forall c sched,
     (clock (run c sched) < 2 ^ 63 - 2048)%Z -> (0 <= result (run c sched))%Z).
Proof.
  apply (C4_entries_nonnegative env3 cpus3 3 final3).
  - lia.
  - intros i j Hij. simpl in Hij.
    split; [apply env3_monotonic|apply env3_shorter]; lia.
  - reflexivity.
Defined.

(** C4, as the claim states it, at a window of 2^63 ns: the sum of
    lines 213-214 is 2^63, which is out of the range of [long long];
    the conversion leaves -2^63 in [rtt] and both entries of the pair
    are negative.  The same happens 512 ns earlier, where the sum is
    rounded up to 2^63. *)
Lemma C4_counterexample :
  (monotonic (stamps env_overflow 0 1) /\
   main_loops env_overflow cpus2 1 = Returned final_overflow /\
   windows (stamps env_overflow 0 1) 1 = [(2 ^ 63)%Z] /\
   elapsed_double (fst (stamps env_overflow 0 1 0))
                  (snd (stamps env_overflow 0 1 0)) = (2 ^ 63)%Z /\
   entry cpus2 (data final_overflow) 0 1 = Some (-46116860184273879)%Z /\
   entry cpus2 (data final_overflow) 1 0 = Some (-46116860184273879)%Z /\
   (-46116860184273879 < 0)%Z) /\
  (monotonic (stamps env_edge 0 1) /\
   main_loops env_edge cpus2 1 = Returned final_overflow /\
   windows (stamps env_edge 0 1) 1 = [(2 ^ 63 - 512)%Z] /\
   elapsed_double (fst (stamps env_edge 0 1 0))
                  (snd (stamps env_edge 0 1 0)) = (2 ^ 63)%Z).
Proof.
  split; (split; [apply env_window_monotonic; lia|]);
    vm_compute; repeat split.
Qed.

(** C5.  The sample loop fed with given elapsed times, none of them
    the sentinel -1 (no elapsed time of a monotonic clock is negative):
    with a positive number of samples the value reported is the least
    of the elapsed times of these samples divided by 200, so the value
    reported for [n2] samples is at most the value reported for
    [n1 <= n2] samples, for any positive [n1]. *)
Theorem C5_more_samples_never_increase
    (elapsed : nat -> Z) (n1 n2 : Z) :
  (forall m, elapsed m <> (-1)%Z) -> (0 < n1)%Z -> (n1 <= n2)%Z ->
  reported elapsed n1 = (min_elapsed (first_samples elapsed n1) ÷ 200)%Z /\
  reported elapsed n2 = (min_elapsed (first_samples elapsed n2) ÷ 200)%Z /\
  (min_elapsed (first_samples elapsed n2)
   <= min_elapsed (first_samples elapsed n1))%Z /\
  (reported elapsed n2 <= reported elapsed n1)%Z.
Proof.
  intros Hel Hpos Hle.
  assert (Hrep : forall n, (0 < n)%Z ->
            reported elapsed n
            = (min_elapsed (first_samples elapsed n) ÷ 200)%Z).
  { intros n Hn. unfold reported. rewrite per_hop_200.
    rewrite sample_loop_min_sentinel;
      auto using first_samples_nonempty, first_samples_sentinel. }
  assert (Hmin : (min_elapsed (first_samples elapsed n2)
                  <= min_elapsed (first_samples elapsed n1))%Z).
  { destruct (first_samples_extend elapsed n1 n2 ltac:(lia))
      as [more ->].
    apply min_elapsed_extend, first_samples_nonempty, Hpos. }
  rewrite !Hrep by lia. repeat split; try assumption.
  apply Z.quot_le_mono; [lia|exact Hmin].
Qed.

Lemma C5_witness :
  reported elapsed3 1 = (min_elapsed (first_samples elapsed3 1) ÷ 200)%Z /\
  reported elapsed3 3 = (min_elapsed (first_samples elapsed3 3) ÷ 200)%Z /\
  (min_elapsed (first_samples elapsed3 3)
   <= min_elapsed (first_samples elapsed3 1))%Z /\
  (reported elapsed3 3 <= reported elapsed3 1)%Z.
Proof.
  apply (C5_more_samples_never_increase elapsed3 1 3).
  - intros m. unfold elapsed3. lia.
  - lia.
  - lia.
Defined.

(** C5, as the claim states it, from no sample to one: with
    [nsamples = 0] the value reported is 0, and one sample of 21400 ns
    makes it 107. *)
Lemma C5_counterexample :
  (0 <= 1)%Z /\
  reported elapsed3 0 = 0%Z /\
  reported elapsed3 1 = 107%Z /\
  (reported elapsed3 0 < reported elapsed3 1)%Z.
Proof. repeat split; vm_compute; (reflexivity || discriminate). Qed.

(** C6.  In the compare-and-exchange protocol, whatever the schedule,
    the trace up to the end timestamp of a sample ends with, in this
    order and with no other event in between: the readiness barrier on
    [seq2] (after the main thread's store of 0 the spawned thread sees
    it and stores 1, the main thread sees a non-zero value and stores
    -1), the start timestamp, the 200 exchanges that take [seq1] from -1
    to 199 one by one (for [n = 0 .. 99] the main thread's from [2n - 1]
    to [2n], then the spawned thread's from [2n] to [2n + 1]), and the
    main thread's read of 199.  [seq1] stays between -1 and 199, and a
    step leaves it alone, adds 1 to it or is the reset to -1 that
    starts a sample. *)
Theorem C6_cas_sample_steps
    (c : config) (sched : schedule)
    (pre : list event) (m t2 : Z) (post : list event) :
  use_write c = true ->
  trace c sched = pre ++ EvTs2 m t2 :: post ->
  (exists before t1,
     pre = before ++ barrier m t1 ++ cas_chain m ++
           [EvSpinExit Initiator Seq1 199 m] /\
     In (EvStore Initiator Seq2 0 m) before) /\
  (forall sched',
     let s := run c sched' in
     (-1 <= seq1 s <= 199)%Z /\
     forall x,
       seq1 (step c s x) = seq1 s \/
       seq1 (step c s x) = (seq1 s + 1)%Z \/
       (seq1 (step c s x) = (-1)%Z /\ exists m', main s = MReset1 m')).
Proof.
  intros Hcas Htr. split.
  - exact (cas_sample_trace c Hcas sched pre post m t2 Htr).
  - intros sched' s. pose proof (cas_inv_run c Hcas sched') as Hinv.
    split.
    + destruct Hinv as [Hrange _]. exact Hrange.
    + intros x. apply cas_counter_step; assumption.
Qed.

Lemma C6_witness :
  (exists before t1,
     firstn 215 (trace cas1 fair) =
       before ++ barrier 0 t1 ++ cas_chain 0 ++
       [EvSpinExit Initiator Seq1 199 0] /\
     In (EvStore Initiator Seq2 0 0) before) /\
  (forall sched',
     let s := run cas1 sched' in
     (-1 <= seq1 s <= 199)%Z /\
     forall x,
       seq1 (step cas1 s x) = seq1 s \/
       seq1 (step cas1 s x) = (seq1 s + 1)%Z \/
       (seq1 (step cas1 s x) = (-1)%Z /\ exists m', main s = MReset1 m')).
Proof.
  apply (C6_cas_sample_steps cas1 fair (firstn 215 (trace cas1 fair))
           0 11250000000 (skipn 216 (trace cas1 fair))).
  - reflexivity.
  - vm_compute. reflexivity.
Defined.

(** C7.  In both protocols and under every schedule, an event that ends
    a wait is preceded in the trace by the peer's write of the value the
    wait was for, in the same sample ([waits_for_peer]): in the flag
    exchange the spawned thread leaves its spin on [seq1 == n] only
    after the main thread's store of [n] into [seq1], and the main
    thread leaves its spin on [seq2 == n] only after the spawned
    thread's store of [n] into [seq2]. *)
Theorem C7_waits_end_after_peer_write
    (c : config) (sched : schedule)
    (pre : list event) (e : event) (post : list event) :
  trace c sched = pre ++ e :: post -> waits_for_peer c e pre.
Proof.
  intros Htr. unfold waits_for_peer. destruct (use_write c) eqn:Hw.
  - pose proof (cas_trace c Hw sched pre e post Htr) as H.
    unfold cas_before in H.
    destruct e as [| | | |t cl v m|t old new m| | |]; try exact I.
    + destruct t, cl; try contradiction.
      * destruct H as [-> H]. split; [reflexivity|]. split; [reflexivity|].
        apply in_rev. apply (timed_log_last m 200); [lia|exact H].
      * destruct H as [-> H]. split; [reflexivity|]. apply in_rev, H.
      * destruct H as [-> H]. repeat split. apply in_rev, H.
    + destruct H as (-> & Hold & -> & H). repeat split. intros Hpos.
      apply in_rev. apply timed_log_last in H; [|lia].
      replace (old + 1 - 1)%Z with old in H by lia.
      unfold cas_ev in H. rewrite Z.even_add. simpl.
      destruct (Z.even old); exact H.
  - pose proof (flag_trace c Hw sched pre e post Htr) as H.
    unfold flag_before in H.
    destruct e as [| | | |t cl v m|t old new m| | |]; try exact I.
    + destruct t, cl; try contradiction.
      * apply in_rev, H.
      * split; [reflexivity|]. apply in_rev, H.
    + contradiction.
Qed.

Lemma C7_witness :
  waits_for_peer flag1 (EvSpinExit Responder Seq1 5 0)
    (firstn 30 (trace flag1 fair)).
Proof.
  apply (C7_waits_end_after_peer_write flag1 fair
           (firstn 30 (trace flag1 fair)) (EvSpinExit Responder Seq1 5 0)
           (skipn 31 (trace flag1 fair))).
  vm_compute. reflexivity.
Defined.

(** C8.  When the loops reach a pair and a pinning call made for it
    returns -1 (the main thread makes its call; the spawned thread
    makes its own if it runs), [pinThread] ends the process: the run
    does not return a matrix, the exit status is 1 and [stderr] holds
    [perror]'s line, which begins with the name of the failed call;
    the line stands there twice when both calls of the pair have
    failed and both contexts got to write it.  A call is made once;
    nothing is retried. *)
Theorem C8_pin_failure_is_fatal
    (e : env) (cpus : list Z) (nsamples : Z) (who : tid) (i j : nat) :
  reached e cpus (i, j) ->
  (who = Responder -> thread_runs e i j = true) ->
  sched_setaffinity e who i j
    (cpu_at cpus match who with Responder => i | Initiator => j end)
  = (-1)%Z ->
  pinThread e (-1) = Exited 1 (pin_line e) /\
  (exists err,
     main_loops e cpus nsamples = Exited 1 err /\
     (err = pin_line e \/ err = (pin_line e ++ pin_line e)%string)) /\
  (forall s, main_loops e cpus nsamples <> Returned s) /\
  (1 <> 0)%Z /\
  exists text, pin_line e = ("sched_setaffinity: " ++ text)%string.
Proof.
  intros (before & after & Hpairs & Hbefore) Hruns Hrc.
  assert (Hfail : pin_fails e cpus who (i, j) = true).
  { unfold pin_fails. simpl. rewrite Hrc. reflexivity. }
  assert (Hnot : returns e cpus (i, j) = false).
  { unfold returns, pair_ok. destruct who; rewrite Hfail; simpl;
      rewrite ?andb_false_r; reflexivity. }
  destruct (measure_pair_fails e cpus nsamples who i j Hfail Hruns)
    as (err & Hm & Herr).
  assert (Hloops : main_loops e cpus nsamples = Exited 1 err).
  { rewrite main_loops_pairs, Hpairs.
    rewrite (run_pairs_stop e cpus nsamples before (i, j) after _
               Hbefore Hnot).
    simpl. rewrite Hm. reflexivity. }
  split; [reflexivity|]. split; [eauto|].
  split; [intros s; rewrite Hloops; discriminate|].
  split; [lia|eexists; reflexivity].
Qed.

Lemma C8_witness :
  pinThread env3_unpinned (-1) = Exited 1 (pin_line env3_unpinned) /\
  (exists err,
     main_loops env3_unpinned cpus3 3 = Exited 1 err /\
     (err = pin_line env3_unpinned \/
      err = (pin_line env3_unpinned ++ pin_line env3_unpinned)%string)) /\
  (forall s, main_loops env3_unpinned cpus3 3 <> Returned s) /\
  (1 <> 0)%Z /\
  exists text,
    pin_line env3_unpinned = ("sched_setaffinity: " ++ text)%string.
Proof.
  apply (C8_pin_failure_is_fatal env3_unpinned cpus3 3 Initiator 0 2).
  - exists [(0, 1)], [(1, 2)]. split; reflexivity.
  - discriminate.
  - reflexivity.
Defined.

(** X1.  With [-H], under every schedule and in both protocols: each
    context warms up at most once, and exactly once when the measurement
    of the pair is complete; its warm-up has lasted at least 200 ms of
    the monotonic clock and is over before the first event of its own
    sample loop, with none of it after.  So the main thread's warm-up
    lies before its first start timestamp and in none of its timed
    windows.  In the compare-and-exchange protocol the readiness barrier
    extends this to the spawned thread: every start timestamp comes
    after the complete warm-up of both contexts. *)
Theorem X1_warmup_once_before_own_samples
    (c : config) (sched : schedule) (t : tid) :
  preheat c = true ->
  warm_shape t (warm_events t (trace c sched)) /\
  (main (run c sched) = MDone ->
   exists t0 t1,
     warm_events t (trace c sched) = [EvWarmStart t t0; EvWarmEnd t t1] /\
     (200000000 <= t1 - t0)%Z) /\
  (forall pre e post,
     trace c sched = pre ++ e :: post -> in_sample t e = true ->
     exists t0 t1,
       warm_events t pre = [EvWarmStart t t0; EvWarmEnd t t1] /\
       (200000000 <= t1 - t0)%Z /\ warm_events t post = []) /\
  (use_write c = true -> warmup_before_timing c sched).
Proof.
  intros Hheat. split; [apply warm_trace_shape|].
  split; [apply warm_complete, Hheat|]. split.
  - intros pre e post Htr Hs.
    exact (warm_before_sample c sched t pre e post Hheat Htr Hs).
  - intros Hcas [|] pre m ts post Htr.
    + destruct (warm_before_sample c sched Initiator pre _ post Hheat Htr
                  eq_refl) as (t0 & t1 & Hw & Hlen & _).
      eauto.
    + exact (thread_warm_before_ts1 c Hcas Hheat sched pre m ts post Htr).
Qed.

Lemma X1_witness :
  warm_shape Responder (warm_events Responder (trace cas1 fair)) /\
  (main (run cas1 fair) = MDone ->
   exists t0 t1,
     warm_events Responder (trace cas1 fair)
       = [EvWarmStart Responder t0; EvWarmEnd Responder t1] /\
     (200000000 <= t1 - t0)%Z) /\
  (forall pre e post,
     trace cas1 fair = pre ++ e :: post -> in_sample Responder e = true ->
     exists t0 t1,
       warm_events Responder pre
         = [EvWarmStart Responder t0; EvWarmEnd Responder t1] /\
       (200000000 <= t1 - t0)%Z /\ warm_events Responder post = []) /\
  (use_write cas1 = true -> warmup_before_timing cas1 fair).
Proof.
  apply (X1_warmup_once_before_own_samples cas1 fair Responder).
  reflexivity.
Defined.

(** C9.  The code at a run the claim excludes.  The flag exchange has no
    readiness barrier: in the run [late_thread] of one sample with [-H]
    the main thread reads the start timestamp of sample 0 at
    200000030 ns, when the spawned thread has only started its warm-up
    (at 50 ms); that warm-up ends at 250 ms, inside the timed window,
    whose elapsed time of 50005980 ns is reported as 250029 ns per hop.
    The same schedule in the compare-and-exchange protocol, behind its
    barrier, reports 10 ns. *)
Theorem C9_flag_warmup_overlaps_first_window :
  preheat flag1 = true /\
  (warmup_before_timing flag1 late_thread -> False) /\
  trace flag1 late_thread =
    firstn 7 (trace flag1 late_thread) ++ EvTs1 0 200000030 ::
    skipn 8 (trace flag1 late_thread) /\
  warm_events Responder (firstn 7 (trace flag1 late_thread))
    = [EvWarmStart Responder 50000000] /\
  warm_events Responder (skipn 8 (trace flag1 late_thread))
    = [EvWarmEnd Responder 250000000] /\
  observed flag1 late_thread = [50005980%Z] /\
  result (run flag1 late_thread) = 250029%Z /\
  main (run flag1 late_thread) = MDone /\
  result (run cas1 late_thread) = 10%Z.
Proof.
  assert (Hsplit : trace flag1 late_thread =
            firstn 7 (trace flag1 late_thread) ++ EvTs1 0 200000030 ::
            skipn 8 (trace flag1 late_thread))
    by (vm_compute; reflexivity).
  split; [reflexivity|]. split; [|split; [exact Hsplit|]].
  - intros Hall.
    destruct (Hall Responder _ _ _ _ Hsplit) as (t0 & t1 & Hw & _).
    vm_compute in Hw. discriminate Hw.
  - vm_compute. repeat split.
Qed.

(** C10.  With [nsamples <= 0] no sample is taken: the list of elapsed
    times is empty, [rtt] keeps its initial -1, and [(-1) / 2 / 100] is
    0, which is what both entries of the pair receive.  In the protocol
    neither context adds an event of a sample loop to the trace and the
    main thread derives 0. *)
Theorem C10_no_sample_stores_zero
    (e : env) (cpus : list Z) (nsamples : Z) (s : mstate) (i j : nat) :
  (nsamples <= 0)%Z ->
  main_loops e cpus nsamples = Returned s ->
  i < j < ncpus cpus ->
  elapsed_times (stamps e i j) nsamples = [] /\
  sample_loop (elapsed_times (stamps e i j) nsamples) = (-1)%Z /\
  per_hop (-1) = 0%Z /\
  entry cpus (data s) i j = Some 0%Z /\
  entry cpus (data s) j i = Some 0%Z /\
  (forall c sched,
     (Protocol.nsamples c <= 0)%Z ->
     rtt (run c sched) = (-1)%Z /\ result (run c sched) = 0%Z /\
     Forall (fun ev => in_sample Initiator ev = false /\
                       in_sample Responder ev = false) (trace c sched)).
Proof.
  intros Hn Hs Hij.
  pose proof (elapsed_times_none (stamps e i j) nsamples Hn) as Hnone.
  destruct (final_entries e cpus nsamples s Hs) as (_ & Hpair & _).
  destruct (Hpair i j Hij) as [Hup Hlow].
  unfold latency, pair_latency in Hup, Hlow. rewrite Hnone in Hup, Hlow.
  rewrite Hnone. repeat split; try assumption.
  - destruct (idle_inv_run c H sched) as (Hrtt & _). exact Hrtt.
  - destruct (idle_inv_run c H sched) as (Hrtt & _).
    unfold result. rewrite Hrtt. reflexivity.
  - destruct (idle_inv_run c H sched) as (_ & _ & _ & Hall).
    unfold trace. apply List.Forall_rev, Hall.
Qed.

Lemma C10_witness :
  elapsed_times (stamps env3 0 1) 0 = [] /\
  sample_loop (elapsed_times (stamps env3 0 1) 0) = (-1)%Z /\
  per_hop (-1) = 0%Z /\
  entry cpus3 (data final3_nosample) 0 1 = Some 0%Z /\
  entry cpus3 (data final3_nosample) 1 0 = Some 0%Z /\
  (forall c sched,
     (Protocol.nsamples c <= 0)%Z ->
     rtt (run c sched) = (-1)%Z /\ result (run c sched) = 0%Z /\
     Forall (fun ev => in_sample Initiator ev = false /\
                       in_sample Responder ev = false) (trace c sched)).
Proof.
  apply (C10_no_sample_stores_zero env3 cpus3 0 final3_nosample 0 1).
  - lia.
  - reflexivity.
  - vm_compute. lia.
Defined.

End Claims.

(* ================================================================== *)
(** * The steps of a pair measurement: counting and progress *)
(* ================================================================== *)

Module ProgressFacts.

Import Clock ClockFacts Sampler SamplerFacts Protocol Invariants.
Import ProtocolFacts CasFacts WarmFacts TimingFacts Progress.
Local Open Scope Z_scope.

(** The elapsed time stays folded in the proofs about the steps. *)
#[local] Opaque elapsed_ns elapsed_double.

Section Steps.

Variable c : config.

(** ** Indices and cells stay in range *)

Lemma cells_inv_init : cells_inv c init.
Proof. unfold cells_inv; simpl. lia. Qed.

Lemma cells_inv_step s x : cells_inv c s -> cells_inv c (step c s x).
Proof.
  destruct s as [a b clk mp tp t1 r lg]. unfold cells_inv; simpl.
  intros (Hm & Ht & Ha & Hb).
  destruct x as [[|] dt]; unfold step; simpl.
  - unfold main_step, main_enter; simpl.
    destruct mp; simpl in *; try (destruct tp; simpl in * );
      repeat (branch; simpl); tests; simpl; repeat split; auto;
      first [lia | tauto].
  - unfold thread_step, thread_enter; simpl.
    destruct tp; simpl in *;
      repeat (branch; simpl); tests; simpl; repeat split; auto; lia.
Qed.

Lemma cells_inv_run sched : cells_inv c (run c sched).
Proof.
  induction sched as [|x sched IH] using rev_ind.
  - apply cells_inv_init.
  - rewrite run_snoc. apply cells_inv_step, IH.
Qed.

(** ** Steps still to take *)

Lemma main_sample_pos : 0 < main_sample c.
Proof. unfold main_sample. destruct (use_write c); lia. Qed.

Lemma thread_sample_pos : 0 < thread_sample c.
Proof. unfold thread_sample. destruct (use_write c); lia. Qed.

Lemma main_from_pos m : 1 <= main_from c m.
Proof. unfold main_from. pose proof main_sample_pos. nia. Qed.

Lemma thread_from_nonneg m : 0 <= thread_from c m.
Proof. unfold thread_from. pose proof thread_sample_pos. nia. Qed.

Lemma main_todo_enter m :
  0 <= m -> main_todo c (main_enter c m) = main_from c m.
Proof.
  intros Hm. unfold main_enter, main_from.
  destruct (m <? nsamples c) eqn:E; tests; simpl; unfold main_from.
  - replace (Z.max 0 (nsamples c - m))
      with (Z.max 0 (nsamples c - (m + 1)) + 1) by lia.
    lia.
  - rewrite Z.max_l by lia. lia.
Qed.

Lemma thread_todo_enter m :
  0 <= m -> thread_todo c (thread_enter c m) = thread_from c m.
Proof.
  intros Hm. unfold thread_enter, thread_from, thread_sample.
  destruct (m <? nsamples c) eqn:E; tests.
  - replace (Z.max 0 (nsamples c - m))
      with (Z.max 0 (nsamples c - (m + 1)) + 1) by lia.
    destruct (use_write c) eqn:W; simpl;
      unfold thread_from, thread_sample; rewrite W; lia.
  - simpl. rewrite Z.max_l by lia. lia.
Qed.

Lemma main_todo_pos p : main_wf c p -> p <> MDone -> 1 <= main_todo c p.
Proof.
  intros Hwf Hp. pose proof main_sample_pos.
  destruct p; simpl in *;
    try pose proof (main_from_pos 0);
    try pose proof (main_from_pos (m + 1));
    repeat branch; try lia. congruence.
Qed.

Lemma thread_todo_nonneg p : thread_wf c p -> 0 <= thread_todo c p.
Proof.
  intros Hwf.
  destruct p; simpl in *;
    try pose proof (thread_from_nonneg 0);
    try pose proof (thread_from_nonneg (m + 1));
    repeat branch; lia.
Qed.

(** A step of the main thread either leaves everything as it is or adds
    one event and has one step less to take. *)
Lemma main_step_count s :
  main_wf c (main s) ->
  (main (main_step c s) = main s /\ log (main_step c s) = log s) \/
  (length (log (main_step c s)) = S (length (log s)) /\
   main_todo c (main (main_step c s)) + 1 = main_todo c (main s)).
Proof.
  destruct s as [a b clk mp tp t1 r lg]. unfold main_step; simpl.
  intros Hwf.
  destruct mp; simpl in *; try (destruct tp; simpl in * );
    unfold main_sample;
    repeat (branch; simpl); tests; auto; right; split; auto;
    rewrite ?main_todo_enter by lia; simpl; unfold main_sample;
    rewrite ?Heqb, ?Heqb0, ?Heqb1; try lia;
    destruct Hwf; congruence.
Qed.

Lemma thread_step_count s :
  thread_wf c (thread s) ->
  (thread (thread_step c s) = thread s /\
   log (thread_step c s) = log s) \/
  (length (log (thread_step c s)) = S (length (log s)) /\
   thread_todo c (thread (thread_step c s)) + 1 = thread_todo c (thread s)).
Proof.
  destruct s as [a b clk mp tp t1 r lg]. unfold thread_step; simpl.
  intros Hwf.
  destruct tp; simpl in *;
    repeat (branch; simpl); tests; auto; right; split; auto;
    rewrite ?thread_todo_enter by lia; simpl; try lia.
Qed.

Lemma count_inv_init : count_inv c init.
Proof.
  unfold count_inv, todo, complete_length; simpl.
  unfold main_from, thread_from. destruct (preheat c); lia.
Qed.

Lemma count_inv_step s x :
  cells_inv c s -> count_inv c s -> count_inv c (step c s x).
Proof.
  intros (Hm & Ht & _) H. unfold count_inv, todo in *.
  destruct x as [[|] dt]; unfold step; simpl.
  - rewrite main_step_thread.
    destruct (main_step_count (tick dt s) Hm) as [[-> ->]|[Hl Hr]].
    + exact H.
    + rewrite Hl. simpl in *. lia.
  - rewrite thread_step_main.
    destruct (thread_step_count (tick dt s) Ht) as [[-> ->]|[Hl Hr]].
    + exact H.
    + rewrite Hl. simpl in *. lia.
Qed.

Lemma count_inv_run sched : count_inv c (run c sched).
Proof.
  induction sched as [|x sched IH] using rev_ind.
  - apply count_inv_init.
  - rewrite run_snoc. apply count_inv_step; [apply cells_inv_run|exact IH].
Qed.

Lemma todo_nonneg sched : 0 <= todo c (run c sched).
Proof.
  destruct (cells_inv_run sched) as (Hm & Ht & _). unfold todo.
  pose proof (thread_todo_nonneg _ Ht).
  destruct (main (run c sched)) eqn:E;
    try (pose proof (main_todo_pos _ Hm ltac:(discriminate)); lia).
  simpl. lia.
Qed.

(** A step that moves has one step less to take. *)
Lemma moves_todo sched x :
  moves c (run c sched) x ->
  todo c (run c (sched ++ [x])) + 1 = todo c (run c sched).
Proof.
  unfold moves. intros H.
  pose proof (count_inv_run sched) as H1.
  pose proof (count_inv_run (sched ++ [x])) as H2.
  rewrite run_snoc in *. unfold count_inv in *. lia.
Qed.

(** ** The timed windows *)

Lemma windows_inv_init : windows_inv c init.
Proof. reflexivity. Qed.

Lemma windows_inv_step s x :
  cells_inv c s -> windows_inv c s -> windows_inv c (step c s x).
Proof.
  destruct s as [a b clk mp tp t1 r lg]. unfold cells_inv, windows_inv.
  simpl. intros (Hm & Ht & _) H.
  destruct x as [[|] dt]; unfold step; simpl.
  - unfold main_step, main_enter; simpl.
    destruct mp; simpl in *; try (destruct tp; simpl in * );
      repeat (branch; simpl); tests; simpl; lia.
  - unfold thread_step; simpl.
    destruct tp; simpl in *; repeat (branch; simpl); auto.
Qed.

Lemma windows_inv_run sched : windows_inv c (run c sched).
Proof.
  induction sched as [|x sched IH] using rev_ind.
  - apply windows_inv_init.
  - rewrite run_snoc.
    apply windows_inv_step; [apply cells_inv_run|exact IH].
Qed.

(** ** A context that can move *)

Lemma warm_after t0 now :
  warm (clock_gettime t0)
       (clock_gettime (now + Z.of_N (until_warm t0 now))) = true.
Proof.
  unfold warm, until_warm. rewrite elapsed_double_clock.
  apply Z.leb_le. lia.
Qed.

(** In its prologue the spawned thread can always move. *)
Lemma starting_moves s :
  thread_starting (thread s) -> thread_warm c (thread s) (log s) ->
  exists dt, moves c s (Responder, dt).
Proof.
  destruct s as [a b clk mp tp t1 r lg]. unfold moves, step; simpl.
  unfold thread_step; simpl.
  destruct tp; simpl; try contradiction; intros _ Hw.
  - exists 0%N. reflexivity.
  - exists 0%N. reflexivity.
  - destruct Hw as (_ & t0 & -> & _).
    exists (until_warm t0 clk). rewrite warm_after. reflexivity.
Qed.

(** So can the main thread in its own. *)
Lemma warming_moves s start :
  main s = MWarmPoll start -> warming c Initiator start (log s) ->
  exists x, moves c s x.
Proof.
  destruct s as [a b clk mp tp t1 r lg]. unfold moves, step; simpl.
  intros -> Hw. unfold main_step; simpl.
  destruct Hw as (_ & t0 & -> & _).
  exists (Initiator, until_warm t0 clk). simpl.
  rewrite warm_after. reflexivity.
Qed.

(** The spawned thread at the start of sample [m] or before it. *)
Lemma thread_at_moves s m :
  thread_at c m (thread s) -> thread_warm c (thread s) (log s) ->
  0 <= m < nsamples c ->
  (if use_write c then seq2 s = 0 else seq1 s = 0) ->
  exists x, moves c s x.
Proof.
  intros [[_ Hst]|Hp] Hw Hm Hcell.
  - destruct (starting_moves s Hst Hw) as [dt Hdt]. eauto.
  - destruct s as [a b clk mp tp t1 r lg]; simpl in *. subst tp.
    unfold thread_enter in *.
    destruct (m <? nsamples c) eqn:E; tests; [|lia].
    destruct (use_write c); subst.
    + exists (Responder, 0%N).
      unfold moves, step, thread_step; simpl. reflexivity.
    + exists (Responder, 0%N).
      unfold moves, step, thread_step; simpl. reflexivity.
Qed.

(** ** No deadlock *)

Lemma flag_progress sched :
  use_write c = false -> main (run c sched) <> MDone ->
  exists x, moves c (run c sched) x.
Proof.
  intros Hflag Hnot.
  pose proof (flag_inv_run c Hflag sched) as Hf.
  destruct (warm_inv_run c sched) as [Hwm Hwt].
  remember (run c sched) as s eqn:Hs. clear Hs.
  destruct (main s) eqn:Hmain.
  all: try (exact (warming_moves s _ Hmain Hwm)).
  all: unfold flag_inv in Hf; rewrite Hmain in Hf; cbv zeta in Hf.
  all: try contradiction.
  all: try (exists (Initiator, 0%N); unfold moves, step, main_step; simpl;
            rewrite Hmain; reflexivity).
  - (* MWait *)
    destruct Hf as (Hm & Hn & H1 & _ & [[Hne Hth]|[Heq _]]).
    + destruct Hth as [[-> Hat]|[Hp|Hp]].
      * eapply thread_at_moves; eauto. rewrite Hflag. exact H1.
      * exists (Responder, 0%N). unfold moves, step, thread_step; simpl.
        rewrite Hp, H1, Z.eqb_refl. reflexivity.
      * exists (Responder, 0%N). unfold moves, step, thread_step; simpl.
        rewrite Hp. reflexivity.
    + exists (Initiator, 0%N). unfold moves, step, main_step; simpl.
      rewrite Hmain, Heq, Z.eqb_refl. reflexivity.
  - (* MJoin *)
    destruct Hf as [[_ Hst]|Hp].
    + destruct (starting_moves s Hst Hwt) as [dt Hdt]. eauto.
    + exists (Initiator, 0%N). unfold moves, step, main_step; simpl.
      rewrite Hmain, Hp. reflexivity.
Qed.

Lemma cas_progress sched :
  use_write c = true -> main (run c sched) <> MDone ->
  exists x, moves c (run c sched) x.
Proof.
  intros Hcas Hnot.
  pose proof (cas_inv_run c Hcas sched) as [_ Hf].
  destruct (warm_inv_run c sched) as [Hwm Hwt].
  remember (run c sched) as s eqn:Hs. clear Hs.
  destruct (main s) eqn:Hmain.
  all: try (exact (warming_moves s _ Hmain Hwm)).
  all: try contradiction.
  all: try (exists (Initiator, 0%N); unfold moves, step, main_step; simpl;
            rewrite Hmain; reflexivity).
  - (* MReadyWait *)
    destruct Hf as (Hm & H1 & [(H2 & Hat & _)|[(H2 & Hp & _)|(H2 & _)]]).
    + eapply thread_at_moves; eauto. rewrite Hcas. exact H2.
    + exists (Responder, 0%N). unfold moves, step, thread_step; simpl.
      rewrite Hp. reflexivity.
    + exists (Initiator, 0%N). unfold moves, step, main_step; simpl.
      rewrite Hmain, H2. reflexivity.
  - (* MCas *)
    destruct Hf as (Hm & Hn & _ & _ & [[H1 _]|(_ & H1 & Hp)]).
    + exists (Initiator, 0%N). unfold moves, step, main_step; simpl.
      rewrite Hmain, H1, Z.eqb_refl. reflexivity.
    + exists (Responder, 0%N). unfold moves, step, thread_step; simpl.
      rewrite Hp, H1, Z.eqb_refl. reflexivity.
  - (* MLast *)
    destruct Hf as (Hm & _ & _ & [[H1 Hp]|[H1 _]]).
    + exists (Responder, 0%N). unfold moves, step, thread_step; simpl.
      rewrite Hp, H1. reflexivity.
    + exists (Initiator, 0%N). unfold moves, step, main_step; simpl.
      rewrite Hmain, H1. reflexivity.
  - (* MJoin *)
    destruct Hf as [[_ Hst]|Hp].
    + destruct (starting_moves s Hst Hwt) as [dt Hdt]. eauto.
    + exists (Initiator, 0%N). unfold moves, step, main_step; simpl.
      rewrite Hmain, Hp. reflexivity.
Qed.

Lemma progress sched :
  main (run c sched) <> MDone -> exists x, moves c (run c sched) x.
Proof.
  destruct (use_write c) eqn:W.
  - apply cas_progress, W.
  - apply flag_progress, W.
Qed.

(** ** Completion stays within reach *)

Lemma completes_within k : forall sched,
  todo c (run c sched) = Z.of_nat k ->
  exists more,
    length more = k /\ all_move c (run c sched) more /\
    main (run c (sched ++ more)) = MDone.
Proof.
  induction k as [|k IH]; intros sched Hk.
  - exists []. rewrite app_nil_r. repeat split.
    destruct (cells_inv_run sched) as (Hm & Ht & _).
    pose proof (thread_todo_nonneg _ Ht).
    pose proof (main_todo_pos _ Hm) as Hp. unfold todo in Hk.
    destruct (main (run c sched)); try reflexivity;
      specialize (Hp ltac:(discriminate)); lia.
  - assert (Hnot : main (run c sched) <> MDone).
    { intros E. pose proof (joined_inv_run c sched E) as E'.
      unfold todo in Hk. rewrite E, E' in Hk. simpl in Hk. lia. }
    destruct (progress sched Hnot) as [x Hx].
    pose proof (moves_todo sched x Hx) as Hdec.
    destruct (IH (sched ++ [x]) ltac:(lia)) as (more & Hlen & Hall & Hdone).
    exists (x :: more). rewrite <- app_assoc in Hdone. simpl in Hdone.
    rewrite run_snoc in Hall.
    repeat split; simpl; auto.
Qed.

(** ** After the join *)

Lemma done_step s x :
  main s = MDone -> thread s = TDone ->
  step c s x = tick x.2 s.
Proof.
  destruct s as [a b clk mp tp t1 r lg]. simpl. intros -> ->.
  destruct x as [[|] dt]; reflexivity.
Qed.

Lemma done_stays sched more :
  main (run c sched) = MDone ->
  let s := run c sched in
  let s' := run c (sched ++ more) in
  main s' = MDone /\ thread s' = TDone /\ log s' = log s /\
  seq1 s' = seq1 s /\ seq2 s' = seq2 s /\ rtt s' = rtt s.
Proof.
  intros Hdone. pose proof (joined_inv_run c sched Hdone) as Hret. simpl.
  induction more as [|x more IH] using rev_ind.
  - rewrite app_nil_r. repeat split; assumption.
  - rewrite app_assoc, run_snoc.
    destruct IH as (Hm & Ht & Hl & H1 & H2 & Hr).
    rewrite (done_step _ x Hm Ht). simpl.
    repeat split; assumption.
Qed.

End Steps.

End ProgressFacts.

(* ================================================================== *)
(** * Strings *)
(* ================================================================== *)

Module StringFacts.

Lemma append_cons (x : ascii) (a b : string) :
  (String x a ++ b)%string = String x (a ++ b).
Proof. reflexivity. Qed.

Lemma append_assoc (a b c : string) :
  ((a ++ b) ++ c = a ++ (b ++ c))%string.
Proof.
  induction a as [|x a IH]; [reflexivity|].
  rewrite !append_cons, IH. reflexivity.
Qed.

Lemma append_nil_r (a : string) : (a ++ EmptyString)%string = a.
Proof.
  induction a as [|x a IH]; [reflexivity|].
  rewrite append_cons, IH. reflexivity.
Qed.

Lemma length_append (a b : string) :
  String.length (a ++ b) = (String.length a + String.length b)%nat.
Proof.
  induction a as [|x a IH]; [reflexivity|].
  rewrite append_cons. simpl. rewrite IH. reflexivity.
Qed.

(** Joining with the empty separator. *)
Lemma concat_cons (a : string) (l : list string) :
  String.concat EmptyString (a :: l) =
  (a ++ String.concat EmptyString l)%string.
Proof. destruct l; simpl; [rewrite append_nil_r|]; reflexivity. Qed.

(** Appending the pieces one by one to what is already written. *)
Lemma fold_append {A : Type} (f : A -> string) (l : list A) : forall out,
  fold_left (fun out x => (out ++ f x)%string) l out =
  (out ++ String.concat EmptyString (map f l))%string.
Proof.
  induction l as [|x l IH]; intros out.
  - simpl. rewrite append_nil_r. reflexivity.
  - cbn [fold_left map]. rewrite IH, concat_cons, append_assoc. reflexivity.
Qed.

End StringFacts.

(* ================================================================== *)
(** * The command line *)
(* ================================================================== *)

Module CliFacts.

Import Builder Cli StringFacts.
Local Open Scope Z_scope.

Lemma known_cases a :
  known a = true ->
  a = "H"%char \/ a = "n"%char \/ a = "p"%char \/ a = "s"%char \/
  a = "t"%char \/ a = "w"%char.
Proof.
  destruct a as [[] [] [] [] [] [] [] []]; simpl; intros H;
    try discriminate H; tauto.
Qed.

Lemma switch_known cl o g : known (opt g) = false <-> switch cl o g = None.
Proof.
  unfold switch, known.
  destruct (opt g) as [[] [] [] [] [] [] [] []]; simpl;
    split; intros H; try reflexivity; discriminate H.
Qed.

(** The diagnostics of [getopt] up to the first call whose character
    the [switch] does not know, that call included. *)
Lemma getopt_loop_unknown cl gs : forall err o,
  existsb (fun g => negb (known (opt g))) gs = true ->
  exists diag, getopt_loop cl gs err o = Exited 1 (diag ++ usage).
Proof.
  induction gs as [|g gs IH]; intros err o H; [discriminate H|].
  simpl in *. destruct (switch cl o g) eqn:E.
  - apply IH. destruct (known (opt g)) eqn:K; [exact H|].
    apply (switch_known cl o) in K. congruence.
  - eauto.
Qed.

Lemma getopt_loop_exit cl gs : forall err o st text,
  getopt_loop cl gs err o = Exited st text ->
  st = 1 /\ exists diag, text = (diag ++ usage)%string.
Proof.
  induction gs as [|g gs IH]; intros err o st text; simpl.
  - destruct (optind cl =? argc cl); intros H; [discriminate H|].
    injection H as <- <-. eauto.
  - destruct (switch cl o g); [apply IH|].
    intros H. injection H as <- <-. eauto.
Qed.

Lemma last_cons {A : Type} (l : list A) : forall x d,
  List.last (x :: l) d = List.last l x.
Proof.
  induction l as [|y l IH]; intros x d; [reflexivity|].
  change (List.last (x :: y :: l) d) with (List.last (y :: l) d).
  rewrite !IH. reflexivity.
Qed.

Lemma last_arg_cons c g gs :
  last_arg c (g :: gs) =
  match last_arg c gs with
  | Some a => Some a
  | None => if returned c g then Some (optarg g) else None
  end.
Proof.
  unfold last_arg. simpl.
  destruct (returned c g); destruct (List.filter (returned c) gs);
    rewrite ?last_cons; reflexivity.
Qed.

Lemma after_nil cl o : after cl [] o = o.
Proof.
  destruct o. unfold after; simpl. rewrite !orb_false_r. reflexivity.
Qed.

Lemma after_cons cl g gs o o' :
  switch cl o g = Some o' -> after cl gs o' = after cl (g :: gs) o.
Proof.
  intros H.
  assert (K : known (opt g) = true).
  { destruct (known (opt g)) eqn:K; [reflexivity|].
    apply (switch_known cl o) in K. congruence. }
  unfold after. rewrite !last_arg_cons. unfold returned, switch in *.
  destruct g as [a arg d]. simpl in *.
  apply known_cases in K as [K|[K|[K|[K|[K|K]]]]]; subst a;
    injection H as <-; simpl;
    rewrite ?orb_true_r, ?orb_false_r, ?orb_true_l;
    destruct (last_arg "s" gs), (last_arg "n" gs); reflexivity.
Qed.

Lemma getopt_loop_known cl gs : forall err o,
  forallb (fun g => known (opt g)) gs = true ->
  getopt_loop cl gs err o =
  if optind cl =? argc cl then Returned (after cl gs o)
  else Exited 1 (err ++ String.concat EmptyString (map diagnostic gs)
                 ++ usage).
Proof.
  induction gs as [|g gs IH]; intros err o H; cbn [getopt_loop].
  - rewrite after_nil. reflexivity.
  - simpl in H. apply andb_prop in H as [K H].
    destruct (switch cl o g) as [o'|] eqn:E.
    + rewrite (IH _ _ H), (after_cons cl g gs o o' E).
      destruct (optind cl =? argc cl); [reflexivity|].
      cbn [map]. rewrite concat_cons, !append_assoc. reflexivity.
    + apply switch_known in E. congruence.
Qed.

End CliFacts.

(* ================================================================== *)
(** * The CPUs of the process *)
(* ================================================================== *)

Module AffinityFacts.

Import Builder Affinity.

(** Writing entry [ncpus - 1] of the array grown by one entry appends
    to it. *)
Lemma grow_append (l : list Z) (n : nat) (v : Z) :
  n = length l -> <[(S n - 1)%nat := v]> (realloc l (S n)) = l ++ [v].
Proof.
  intros ->. unfold realloc. rewrite resize_ge by lia.
  replace (S (length l) - length l) with 1 by lia.
  replace (S (length l) - 1) with (length l + 0) by lia.
  rewrite insert_app_r. reflexivity.
Qed.

Lemma enumerate_step_members set a i l :
  cpus a = map Z.of_nat l -> ncpus a = length l ->
  let more := if CPU_ISSET i set then [i] else [] in
  cpus (enumerate_step set a i) = map Z.of_nat (l ++ more) /\
  ncpus (enumerate_step set a i) = length (l ++ more).
Proof.
  intros Hc Hn. unfold enumerate_step.
  destruct (CPU_ISSET i set); cbv zeta; cbn [cpus ncpus].
  - rewrite grow_append by (rewrite Hc, length_map; exact Hn).
    rewrite Hc, Hn, map_app, length_app. simpl. split; [reflexivity|lia].
  - rewrite app_nil_r. auto.
Qed.

Lemma members_S size set :
  members (S size) set =
  members size set ++ (if CPU_ISSET size set then [size] else []).
Proof.
  unfold members. rewrite seq_S, List.filter_app. simpl.
  destruct (CPU_ISSET size set); reflexivity.
Qed.

(** The loop in closed form. *)
Lemma enumerate_upto_members size set :
  cpus (enumerate_upto size set) = map Z.of_nat (members size set) /\
  ncpus (enumerate_upto size set) = length (members size set).
Proof.
  unfold enumerate_upto. induction size as [|size [IHc IHn]].
  - split; reflexivity.
  - rewrite seq_S, fold_left_app, members_S. cbn [fold_left].
    apply enumerate_step_members; assumption.
Qed.

Lemma in_members size set i :
  In i (members size set) <-> i < size /\ CPU_ISSET i set = true.
Proof.
  unfold members. rewrite filter_In, in_seq. intuition lia.
Qed.

Lemma members_sorted size set : StronglySorted lt (members size set).
Proof.
  induction size as [|size IH]; [constructor|].
  rewrite members_S. apply StronglySorted_app_2; [|exact IH|].
  - intros x y Hx Hy. apply list_elem_of_In, in_members in Hx.
    destruct (CPU_ISSET size set); apply list_elem_of_In in Hy;
      simpl in Hy; intuition lia.
  - destruct (CPU_ISSET size set); repeat constructor.
Qed.

Lemma members_bound size set : length (members size set) <= size.
Proof.
  unfold members. etransitivity; [apply filter_length_le|].
  rewrite length_seq. reflexivity.
Qed.

End AffinityFacts.

(* ================================================================== *)
(** * The output *)
(* ================================================================== *)

Module ReportFacts.

Import Report StringFacts.
Local Open Scope Z_scope.

Lemma fold_left_agree {A B : Type} (f g : A -> B -> A) (l : list B) :
  (forall a x, In x l -> f a x = g a x) ->
  forall a, fold_left f l a = fold_left g l a.
Proof.
  induction l as [|x l IH]; intros H a; [reflexivity|].
  simpl. rewrite H by (left; reflexivity).
  apply IH. intros a' y Hy. apply H. right. exact Hy.
Qed.

(** Decide the comparisons of the goal. *)
Ltac compare_all :=
  repeat match goal with
  | |- context [?a <? ?b] => destruct (Z.ltb_spec a b)
  end.

Section Table.

Variable smt : bool.
Variable cpus : list Z.
Variable data : list Z.

Abbreviation n := (ncpus cpus).

Lemma in_positions k : In k (positions cpus) <-> 0 <= k < n.
Proof.
  unfold positions, ncpus. rewrite in_map_iff. split.
  - intros (i & <- & Hi). apply in_seq in Hi. lia.
  - intros Hk. exists (Z.to_nat k). rewrite in_seq. split; lia.
Qed.

Lemma positions_S k :
  map Z.of_nat (seq 0 (S k)) = map Z.of_nat (seq 0 k) ++ [Z.of_nat k].
Proof. rewrite seq_S, map_app. reflexivity. Qed.

(** ** The interleaving of line 272 *)

Lemma n_nonneg : 0 <= n.
Proof. unfold ncpus. lia. Qed.

Lemma interleave_div i :
  0 <= i -> interleave true cpus i = i / 2 + (i mod 2) * n / 2.
Proof.
  intros Hi. unfold interleave.
  rewrite Z.shiftr_div_pow2 by lia.
  change 1 with (Z.ones 1) at 2. rewrite Z.land_ones by lia.
  change (2 ^ 1) with 2.
  rewrite Z.quot_div_nonneg; [reflexivity| |lia].
  pose proof n_nonneg. pose proof (Z.mod_pos_bound i 2). nia.
Qed.

(** Positions [2k] and [2k + 1] of the table show positions [k] and
    [k + ncpus / 2] of [cpus]. *)
Lemma interleave_even k : 0 <= k -> interleave true cpus (2 * k) = k.
Proof.
  intros Hk. rewrite interleave_div by lia.
  replace (2 * k) with (k * 2) by lia.
  rewrite Z.div_mul, Z.mod_mul by lia.
  rewrite Z.mul_0_l. change (0 / 2) with 0. lia.
Qed.

Lemma interleave_odd k :
  0 <= k -> interleave true cpus (2 * k + 1) = k + n / 2.
Proof.
  intros Hk. rewrite interleave_div by lia.
  replace (2 * k + 1) with (1 + k * 2) by lia.
  rewrite Z.div_add, Z.mod_add by lia.
  change (1 / 2) with 0. change (1 mod 2) with 1.
  rewrite Z.mul_1_l. lia.
Qed.

(** Every position is written [2k] or [2k + 1]. *)
Lemma parity i : 0 <= i -> exists k, 0 <= k /\ (i = 2 * k \/ i = 2 * k + 1).
Proof.
  intros Hi. exists (i / 2).
  pose proof (Z.div_mod i 2 ltac:(lia)). pose proof (Z.mod_pos_bound i 2).
  lia.
Qed.

Lemma interleave_range_smt t i :
  0 <= i < n -> 0 <= interleave t cpus i < n.
Proof.
  intros Hi. destruct t; [|exact Hi].
  destruct (parity i ltac:(lia)) as (k & Hk & [->| ->]).
  - rewrite interleave_even by lia. lia.
  - rewrite interleave_odd by lia.
    pose proof (Z.div_mod n 2 ltac:(lia)). pose proof (Z.mod_pos_bound n 2).
    lia.
Qed.

(** With an even number of CPUs the interleaving is one-to-one and
    onto. *)
Lemma interleave_inj i j :
  Z.even n = true -> 0 <= i < n -> 0 <= j < n ->
  interleave true cpus i = interleave true cpus j -> i = j.
Proof.
  intros He Hi Hj. apply Z.even_spec in He as [h Hh].
  destruct (parity i ltac:(lia)) as (k & Hk & [->| ->]);
    destruct (parity j ltac:(lia)) as (k' & Hk' & [->| ->]);
    rewrite ?interleave_even, ?interleave_odd by lia;
    rewrite Hh in *; replace (2 * h) with (h * 2) by lia;
    rewrite ?Z.div_mul by lia; lia.
Qed.

Lemma interleave_onto k :
  Z.even n = true -> 0 <= k < n ->
  exists i, 0 <= i < n /\ interleave true cpus i = k.
Proof.
  intros He Hk. apply Z.even_spec in He as [h Hh].
  assert (Hdiv : n / 2 = h).
  { rewrite Hh. replace (2 * h) with (h * 2) by lia. apply Z.div_mul. lia. }
  destruct (Z.lt_ge_cases k h).
  - exists (2 * k). rewrite interleave_even by lia. lia.
  - exists (2 * (k - h) + 1). rewrite interleave_odd by lia. lia.
Qed.

Lemma NoDup_positions : NoDup (positions cpus).
Proof.
  unfold positions. apply (NoDup_fmap_2 Z.of_nat), NoDup_seq.
Qed.

Lemma shown_permutation :
  Z.even n = true -> shown true cpus ≡ₚ positions cpus.
Proof.
  intros He. apply NoDup_Permutation.
  - unfold shown. apply NoDup_fmap_2_strong; [|apply NoDup_positions].
    intros i j Hi Hj. apply list_elem_of_In, in_positions in Hi, Hj.
    apply interleave_inj; assumption.
  - apply NoDup_positions.
  - intros k. rewrite !list_elem_of_In. unfold shown.
    rewrite in_map_iff, in_positions. split.
    + intros (i & <- & Hi). apply in_positions in Hi.
      apply (interleave_range_smt true). exact Hi.
    + intros Hk. destruct (interleave_onto k He Hk) as (i & Hi & E).
      exists i. rewrite in_positions. auto.
Qed.

(** With an odd number of CPUs, three or more, the last position is
    never shown and the middle one is shown by positions 1 and
    [ncpus - 1]. *)
Lemma interleave_odd_count i :
  Z.odd n = true -> 3 <= n -> 0 <= i < n ->
  interleave true cpus i < n - 1 /\
  interleave true cpus 1 = n / 2 /\
  interleave true cpus (n - 1) = n / 2.
Proof.
  intros Ho Hn Hi. apply Z.odd_spec in Ho as [h Hh].
  assert (Hdiv : n / 2 = h).
  { rewrite Hh. replace (2 * h + 1) with (1 + h * 2) by lia.
    rewrite Z.div_add by lia. reflexivity. }
  repeat split.
  - destruct (parity i ltac:(lia)) as (k & Hk & [->| ->]);
      rewrite ?interleave_even, ?interleave_odd by lia; lia.
  - change 1 with (2 * 0 + 1) at 1. rewrite interleave_odd by lia. lia.
  - replace (n - 1) with (2 * h) by lia.
    rewrite interleave_even by lia. lia.
Qed.

(** ** The search of lines 281-287 *)

Hypothesis Hnodup : NoDup cpus.

Lemma cpu_inj a b :
  0 <= a < n -> 0 <= b < n -> cpu cpus a = cpu cpus b -> a = b.
Proof.
  unfold cpu, ncpus. intros Ha Hb E.
  apply NoDup_ListNoDup in Hnodup.
  apply (proj1 (List.NoDup_nth cpus 0) Hnodup) in E; lia.
Qed.

Lemma search_upto c0 c1 k :
  0 <= c0 < n -> 0 <= c1 < n -> (k <= length cpus)%nat ->
  fold_left (search_step cpus c0 c1) (map Z.of_nat (seq 0 k)) (-1, -1) =
  (if c0 <? Z.of_nat k then c0 else -1, if c1 <? Z.of_nat k then c1 else -1).
Proof.
  intros H0 H1. induction k as [|k IH]; intros Hk.
  - simpl. compare_all; try reflexivity; lia.
  - rewrite positions_S, fold_left_app, IH by lia.
    cbn [fold_left]. unfold search_step; cbn [fst snd].
    unfold ncpus in *. f_equal.
    + destruct (Z.eqb_spec (cpu cpus (Z.of_nat k)) (cpu cpus c0)) as [E|E].
      * apply cpu_inj in E; unfold ncpus; try lia.
        subst c0. compare_all; lia.
      * assert (c0 <> Z.of_nat k) by (intros ->; apply E; reflexivity).
        compare_all; lia.
    + destruct (Z.eqb_spec (cpu cpus (Z.of_nat k)) (cpu cpus c1)) as [E|E].
      * apply cpu_inj in E; unfold ncpus; try lia.
        subst c1. compare_all; lia.
      * assert (c1 <> Z.of_nat k) by (intros ->; apply E; reflexivity).
        compare_all; lia.
Qed.

(** Among CPU numbers that are all different the search finds the two
    positions it was given. *)
Lemma search_found c0 c1 :
  0 <= c0 < n -> 0 <= c1 < n -> search cpus c0 c1 = (c0, c1).
Proof.
  intros H0 H1. unfold search, positions.
  rewrite search_upto by (auto; lia). unfold ncpus in *.
  compare_all; try reflexivity; lia.
Qed.

(** ** The table, line by line *)

Lemma print_cell_found c0 out j :
  0 <= c0 < n -> In j (positions cpus) ->
  print_cell smt cpus data c0 out j =
  (out ++ " " ++ fmt4 (datum data (c0 * n + interleave smt cpus j)))%string.
Proof.
  intros H0 Hj. unfold print_cell. cbv zeta.
  rewrite search_found; [reflexivity|exact H0|].
  apply interleave_range_smt, in_positions, Hj.
Qed.

Lemma cells_map {A : Type} (g : A -> Z) (l : list A) :
  cells (map g l) =
  String.concat EmptyString (map (fun x => (" " ++ fmt4 (g x))%string) l).
Proof. unfold cells. rewrite List.map_map. reflexivity. Qed.

Lemma print_row_line out i :
  In i (positions cpus) ->
  print_row smt cpus data out i =
  (out ++ row_line (cpu cpus (interleave smt cpus i))
            (map (fun k => datum data (interleave smt cpus i * n + k))
                 (shown smt cpus)))%string.
Proof.
  intros Hi. unfold print_row. cbv zeta.
  rewrite (fold_left_agree _
             (fun out j => (out ++ " " ++ fmt4
                (datum data (interleave smt cpus i * n
                             + interleave smt cpus j)))%string)).
  - rewrite (fold_append
               (fun j => (" " ++ fmt4 (datum data
                  (interleave smt cpus i * n
                   + interleave smt cpus j)))%string)).
    unfold row_line, line, shown. rewrite List.map_map, cells_map.
    rewrite !append_assoc. reflexivity.
  - intros a j Hj. apply print_cell_found; [|exact Hj].
    apply interleave_range_smt, in_positions, Hi.
Qed.

(** What [print_table] appends to the output: the lines of the table
    that shows the positions [shown smt cpus]. *)
Lemma print_table_lines out :
  print_table smt cpus data out =
  (out ++ text (lines_at cpus data (shown smt cpus)))%string.
Proof.
  unfold print_table. cbv zeta.
  rewrite (fold_left_agree _
             (fun out i => (out ++ row_line (cpu cpus (interleave smt cpus i))
                (map (fun k => datum data (interleave smt cpus i * n + k))
                     (shown smt cpus)))%string))
    by (intros; apply print_row_line; assumption).
  rewrite (fold_append
             (fun i => row_line (cpu cpus (interleave smt cpus i))
                (map (fun k => datum data (interleave smt cpus i * n + k))
                     (shown smt cpus)))).
  unfold print_head.
  rewrite (fold_append
             (fun i =>
                (" " ++ fmt4 (cpu cpus (interleave smt cpus i)))%string)).
  unfold text, lines_at. rewrite concat_cons.
  unfold header_line, line, shown. rewrite !List.map_map, cells_map.
  rewrite !append_assoc. reflexivity.
Qed.

End Table.

(** ** Without [-t] *)

Lemma nth_take_drop (l : list Z) a k j :
  (j < k)%nat -> (a + k <= length l)%nat ->
  nth j (take k (drop a l)) 0 = nth (a + j) l 0.
Proof.
  intros Hj Hl. rewrite !nth_lookup, lookup_take_lt, lookup_drop by lia.
  reflexivity.
Qed.

Lemma nth_map_seq (f : nat -> Z) k j :
  (j < k)%nat -> nth j (map f (seq 0 k)) 0 = f j.
Proof.
  intros Hj.
  rewrite (nth_indep _ 0 (f 0%nat)) by (rewrite length_map, length_seq; lia).
  rewrite map_nth, seq_nth by lia. reflexivity.
Qed.

Lemma map_nth_all (l : list Z) :
  map (fun i => nth i l 0) (seq 0 (length l)) = l.
Proof.
  apply (nth_ext _ _ 0 0).
  - rewrite length_map, length_seq. reflexivity.
  - intros j Hj. rewrite length_map, length_seq in Hj.
    rewrite nth_map_seq by lia. reflexivity.
Qed.

(** The lines over the positions in their own order are the rows of
    the matrix. *)
Lemma lines_at_positions cpus data :
  length data = (length cpus * length cpus)%nat ->
  lines_at cpus data (positions cpus) = table_lines cpus data.
Proof.
  intros Hlen. unfold lines_at, table_lines, positions. f_equal.
  - f_equal. rewrite List.map_map. unfold cpu.
    rewrite <- (map_nth_all cpus) at 2.
    apply map_ext. intros i. rewrite Nat2Z.id. reflexivity.
  - rewrite List.map_map. apply map_ext_in. intros i Hi. apply in_seq in Hi.
    unfold cpu. rewrite Nat2Z.id. f_equal.
    unfold matrix_row, datum, ncpus.
    apply (nth_ext _ _ 0 0).
    + rewrite !length_map, length_seq, length_take, length_drop. nia.
    + intros j Hj. rewrite !length_map, length_seq in Hj.
      rewrite List.map_map, nth_map_seq by lia.
      rewrite nth_take_drop by nia. f_equal. lia.
Qed.

(** ** Field widths *)

Lemma length_spaces k : String.length (spaces k) = k.
Proof.
  induction k as [|k IH]; simpl; [reflexivity|]. rewrite IH. reflexivity.
Qed.

Lemma length_pad w s :
  String.length (pad w s) = Nat.max w (String.length s).
Proof. unfold pad. rewrite length_append, length_spaces. lia. Qed.

Lemma length_pretty_N_go k : forall x s,
  (x < 10 ^ N.of_nat k)%N ->
  (String.length (pretty_N_go x s) <= String.length s + k)%nat.
Proof.
  induction k as [|k IH]; intros x s Hx.
  - assert (x = 0%N) as -> by (change (10 ^ N.of_nat 0)%N with 1%N in Hx; lia).
    rewrite pretty_N_go_0. lia.
  - destruct (N.eq_dec x 0%N) as [->|Hne].
    + rewrite pretty_N_go_0. lia.
    + rewrite pretty_N_go_step by lia.
      etransitivity; [apply IH|simpl; lia].
      rewrite Nat2N.inj_succ, N.pow_succ_r' in Hx.
      apply N.Div0.div_lt_upper_bound. exact Hx.
Qed.

Lemma length_pretty_small v :
  0 <= v < 10000 -> (String.length (pretty v) <= 4)%nat.
Proof.
  intros Hv. destruct v as [|p|p]; [simpl; lia| |lia].
  unfold pretty, pretty_Z, pretty, pretty_positive, pretty, pretty_N.
  destruct (decide (N.pos p = 0%N)); [discriminate|].
  apply (length_pretty_N_go 4 (N.pos p) EmptyString).
  change (10 ^ N.of_nat 4)%N with 10000%N. lia.
Qed.

(** A value of at most four digits fills its field exactly. *)
Lemma length_fmt4 v : 0 <= v < 10000 -> String.length (fmt4 v) = 4%nat.
Proof.
  intros Hv. unfold fmt4. rewrite length_pad.
  pose proof (length_pretty_small v Hv). lia.
Qed.

Lemma length_cells vs :
  Forall (fun v => 0 <= v < 10000) vs ->
  String.length (cells vs) = (5 * length vs)%nat.
Proof.
  unfold cells. induction 1 as [|v vs Hv _ IH]; [reflexivity|].
  cbn [map]. rewrite concat_cons, !length_append, IH, length_fmt4 by exact Hv.
  simpl. lia.
Qed.

Lemma length_line s : String.length (line s) = S (String.length s).
Proof. unfold line. rewrite length_append. simpl. lia. Qed.

Lemma Forall_matrix_row (P : Z -> Prop) k data i :
  Forall P data -> Forall P (matrix_row k data i).
Proof. intros H. unfold matrix_row. apply Forall_take, Forall_drop, H. Qed.

Lemma length_matrix_row k data i :
  (i < k)%nat -> length data = (k * k)%nat ->
  length (matrix_row k data i) = k.
Proof.
  intros Hi Hlen. unfold matrix_row. rewrite length_take, length_drop. nia.
Qed.

End ReportFacts.

(* ================================================================== *)
(** * The whole program *)
(* ================================================================== *)

Module IclFacts.

Import Builder BuilderFacts StringFacts.
Local Open Scope Z_scope.

Lemma enumerated_members set :
  Affinity.cpus (Affinity.enumerate set) =
  map Z.of_nat (Affinity.members Affinity.CPU_SETSIZE set).
Proof.
  exact (proj1 (AffinityFacts.enumerate_upto_members
                  Affinity.CPU_SETSIZE set)).
Qed.

Lemma NoDup_members size set :
  NoDup (map Z.of_nat (Affinity.members size set)).
Proof.
  apply (NoDup_fmap_2 Z.of_nat), NoDup_ListNoDup.
  unfold Affinity.members. apply List.NoDup_filter, List.seq_NoDup.
Qed.

Lemma NoDup_enumerated set : NoDup (Affinity.cpus (Affinity.enumerate set)).
Proof. rewrite enumerated_members. apply NoDup_members. Qed.

(** [report] as text: the table between the two blocks of gnuplot
    commands when [-p] is given. *)
Lemma report_lines o cpus data :
  NoDup cpus ->
  Report.report o cpus data =
  ((if Cli.plot o
    then Report.preamble (Cli.name o) (Cli.use_write o)
    else EmptyString) ++
   Report.text (Report.lines_at cpus data (Report.shown (Cli.smt o) cpus)) ++
   (if Cli.plot o then Report.epilogue else EmptyString))%string.
Proof.
  intros Hnodup. unfold Report.report. cbv zeta.
  rewrite ReportFacts.print_table_lines by exact Hnodup.
  destruct (Cli.plot o).
  - rewrite append_assoc. reflexivity.
  - rewrite append_nil_r. reflexivity.
Qed.

(** [main] in closed form. *)
Lemma main_decide p :
  Icl.main p =
  match Cli.parse_options (Icl.command p) with
  | Exited st err => Exited st err
  | Returned o =>
      if Icl.getaffinity_rc p =? -1
      then Exited 1 (perror (Icl.machine p) "sched_getaffinity")
      else
        let cpus := Affinity.cpus (Affinity.enumerate (Icl.affinity p)) in
        match main_loops (Icl.machine p) cpus (Cli.nsamples o) with
        | Exited st err => Exited st err
        | Hangs => Hangs
        | Returned s => Returned (Report.report o cpus (data s))
        end
  | Hangs => Hangs
  end.
Proof.
  unfold Icl.main, Affinity.get_affinity.
  destruct (Cli.parse_options (Icl.command p)); [|reflexivity..].
  cbn [mbind outcome_bind].
  destruct (Icl.getaffinity_rc p =? -1); reflexivity.
Qed.

End IclFacts.

(* ================================================================== *)
(** * The timed window of the flag exchange *)
(* ================================================================== *)

Module ExchangeFacts.

Import Clock Sampler Protocol Invariants ProtocolFacts Exchange.
Local Open Scope Z_scope.

(** The elapsed time stays folded in the proofs about the steps. *)
#[local] Opaque elapsed_ns elapsed_double.

Lemma flag_log_succ m k :
  0 <= k -> flag_log m (k + 1) = flag_ev m k :: flag_log m k.
Proof.
  intros Hk. unfold flag_log.
  rewrite Z2Nat.inj_add by lia. rewrite Nat.add_comm.
  simpl. rewrite Z2Nat.id by assumption. reflexivity.
Qed.

Lemma flag_ev_at m n r :
  0 <= r < 4 ->
  flag_ev m (4 * n + r) =
  match r with
  | 0 => EvStore Initiator Seq1 n m
  | 1 => EvSpinExit Responder Seq1 n m
  | 2 => EvStore Responder Seq2 n m
  | _ => EvSpinExit Initiator Seq2 n m
  end.
Proof.
  intros Hr. unfold flag_ev.
  replace (4 * n + r) with (r + n * 4) by lia.
  rewrite Z.div_add, Z.mod_add by lia.
  rewrite Z.div_small, Z.mod_small by lia. reflexivity.
Qed.

Lemma rev_flag_log_400 m : rev (flag_log m 400) = flag_chain m.
Proof. reflexivity. Qed.

(** ** Extending the trace *)

Lemma none_of_cons m e lg :
  in_exchange m e = false -> none_of m lg -> none_of m (e :: lg).
Proof. unfold none_of. simpl. intros -> H. exact H. Qed.

Lemma later_none_cons m e lg :
  (forall m', m < m' -> in_exchange m' e = false) ->
  later_none m lg -> later_none m (e :: lg).
Proof. intros He H m' Hm. apply none_of_cons; auto. Qed.

Lemma later_none_weaken m m' lg :
  m <= m' -> later_none m lg -> later_none m' lg.
Proof. intros Hm H k Hk. apply H. lia. Qed.

(** The start timestamp opens the window. *)
Lemma window_open m t lg :
  none_of m lg -> window m 0 (EvTs1 m t :: lg).
Proof.
  intros H. exists t, [], lg. repeat split; auto.
Qed.

(** An event of the prologue of the spawned thread leaves the window
    as it is. *)
Lemma window_prologue m k e lg :
  in_prologue e = true -> in_exchange m e = false ->
  window m k lg -> window m k (e :: lg).
Proof.
  intros Hp He (t1 & mid & rest & -> & Hf & Hall & Hrest).
  exists t1, (e :: mid), rest. repeat split; auto.
  simpl. rewrite He. exact Hf.
Qed.

(** The next event of the exchange extends it. *)
Lemma window_next m k k' e lg :
  0 <= k -> k' = k + 1 -> e = flag_ev m k -> in_exchange m e = true ->
  window m k lg -> window m k' (e :: lg).
Proof.
  intros Hk -> -> He (t1 & mid & rest & -> & Hf & Hall & Hrest).
  exists t1, (flag_ev m k :: mid), rest. repeat split; auto.
  simpl. rewrite He, Hf, flag_log_succ by exact Hk. reflexivity.
Qed.

Lemma window_eq m k k' lg : k = k' -> window m k lg -> window m k' lg.
Proof. intros ->. auto. Qed.

Lemma in_exchange_store t cl n m :
  0 <= n -> in_exchange m (EvStore t cl n m) = true.
Proof.
  intros Hn. simpl. rewrite Z.eqb_refl. apply Z.leb_le, Hn.
Qed.

Lemma in_exchange_exit t cl v m : in_exchange m (EvSpinExit t cl v m) = true.
Proof. apply Z.eqb_refl. Qed.

(** An event is not of the exchange of sample [m']. *)
Ltac notin :=
  simpl;
  first [ reflexivity
        | apply Z.eqb_neq; lia
        | apply andb_false_iff; left; apply Z.eqb_neq; lia
        | apply andb_false_iff; right; apply Z.leb_gt; lia ].

(** No event of a later sample is added. *)
Ltac later :=
  apply later_none_cons;
  [ intros ? ?; notin
  | first [ assumption
          | eapply later_none_weaken; [|eassumption]; lia ] ].

Section Window.

Variable c : config.
Hypothesis Hflag : use_write c = false.

Lemma window_inv_init : window_inv init.
Proof. intros m' _. reflexivity. Qed.

Lemma window_inv_main s dt :
  flag_inv c s -> window_inv s -> window_inv (main_step c (tick dt s)).
Proof.
  destruct s as [a b clk mp tp t1 r lg].
  unfold flag_inv, window_inv, main_step, main_enter, phase; simpl.
  intros Hf Hw.
  destruct mp; simpl in *; rewrite ?Hflag in *; try contradiction.
  - (* MPin *) repeat (branch; simpl); try exact I; later.
  - (* MWarmStart *) later.
  - (* MWarmPoll *)
    repeat (branch; simpl); try exact I; try exact Hw; later.
  - (* MReset1 *) later.
  - (* MReset2 *) later.
  - (* MTs1 *)
    split; [|later]. apply window_open. apply Hw. lia.
  - (* MStore *)
    destruct Hw as [Hw Hl]. split; [|later].
    destruct Hf as (Hm & Hn & _ & Hb & Hth).
    assert (Hphase : (if b =? n then 3
                      else match tp with TAck _ _ => 2 | _ => 1 end) = 1).
    { destruct (Z.eqb_spec b n); [lia|].
      destruct Hth as [[_ [[_ Hst]|Hp]]|Hp]; subst; try reflexivity.
      - destruct tp; try reflexivity; contradiction.
      - unfold thread_enter. repeat branch; reflexivity. }
    rewrite Hphase.
    apply (window_next m (4 * n)); auto; try lia.
    + rewrite <- (Z.add_0_r (4 * n)). rewrite flag_ev_at by lia. reflexivity.
    + apply in_exchange_store. lia.
  - (* MWait *)
    destruct Hw as [Hw Hl].
    destruct (Z.eqb_spec b n) as [Hb|Hb]; simpl;
      [|rewrite (proj2 (Z.eqb_neq b n) Hb); split; assumption].
    destruct Hf as (Hm & Hn & _).
    assert (Hnext : window m (4 * n + 3 + 1)
                      (EvSpinExit Initiator Seq2 n m :: lg)).
    { apply (window_next m (4 * n + 3)); auto; try lia.
      - rewrite flag_ev_at by lia. reflexivity.
      - apply in_exchange_exit. }
    repeat (branch; simpl); tests; (split; [|later]).
    + eapply window_eq; [|exact Hnext]. lia.
    + eapply window_eq; [|exact Hnext]. lia.
  - (* MTs2 *)
    destruct Hw as [Hw Hl]. repeat (branch; simpl); try exact I. later.
  - (* MJoin *) destruct tp; exact I.
  - (* MDone *) exact I.
Qed.

Lemma prologue_not_exchange m e :
  in_prologue e = true -> in_exchange m e = false.
Proof. destruct e; simpl; try discriminate; reflexivity. Qed.

(** A step of the prologue of the spawned thread. *)
Lemma window_inv_prologue s e p :
  in_prologue e = true ->
  match thread s with TAck _ _ => False | _ => True end ->
  match p with TAck _ _ => False | _ => True end ->
  window_inv s -> window_inv (emit e (thread_goto p s)).
Proof.
  destruct s as [a b clk mp tp t1 r lg].
  unfold window_inv, phase; simpl. intros He Htp Hp Hw.
  assert (Hlater : forall m, later_none m lg -> later_none m (e :: lg)).
  { intros m H. apply later_none_cons; [|exact H].
    intros. apply prologue_not_exchange, He. }
  assert (Hwin : forall m k, window m k lg -> window m k (e :: lg)).
  { intros m k H. apply window_prologue; auto.
    apply prologue_not_exchange, He. }
  destruct mp; simpl in *; auto.
  - destruct Hw; auto.
  - destruct Hw as [Hw Hl]. split; [|auto].
    destruct tp; try contradiction; destruct p; try contradiction; auto.
  - destruct Hw; auto.
Qed.

Lemma window_inv_thread s dt :
  flag_inv c s -> window_inv s -> window_inv (thread_step c (tick dt s)).
Proof.
  destruct s as [a b clk mp tp t1 r lg].
  unfold thread_step; simpl. intros Hf Hw.
  destruct tp.
  - (* TPin *)
    apply (window_inv_prologue _ (EvPin Responder)); simpl; auto.
    unfold thread_enter. repeat branch; exact I.
  - (* TWarmStart *)
    apply (window_inv_prologue _ (EvWarmStart Responder _)); simpl; auto.
  - (* TWarmPoll *)
    branch; [|exact Hw].
    apply (window_inv_prologue _ (EvWarmEnd Responder _)); simpl; auto.
    unfold thread_enter. repeat branch; exact I.
  - (* TWait *)
    destruct (Z.eqb_spec a n) as [Ha|Ha]; [|exact Hw].
    unfold flag_inv, window_inv, phase, thread_at, thread_next,
      thread_enter in *; simpl in *. rewrite ?Hflag in *.
    destruct mp; simpl in *; try contradiction.
    all: try (exfalso; unpack; tests; simplify_eq; simpl in *;
              try lia; try contradiction; fail).
    assert (E : m = m0 /\ n = n0 /\ b <> n0 /\ 0 <= n0).
    { clear Hw. unpack; tests; simplify_eq; simpl in *;
        repeat split; try lia; try congruence. }
    destruct E as (-> & -> & Hb & Hn).
    rewrite (proj2 (Z.eqb_neq _ _) Hb) in *.
    destruct Hw as [Hw Hl]. split; [|later].
    apply (window_next m0 (4 * n0 + 1)); auto; try lia.
    + rewrite flag_ev_at by lia. reflexivity.
    + apply in_exchange_exit.
  - (* TAck *)
    unfold flag_inv, window_inv, phase, thread_at, thread_next,
      thread_enter in *; simpl in *. rewrite ?Hflag in *.
    destruct mp; simpl in *; try contradiction.
    all: try (exfalso; unpack; tests; simplify_eq; simpl in *;
              try lia; try contradiction; fail).
    assert (E : m = m0 /\ n = n0 /\ b <> n0 /\ 0 <= n0).
    { clear Hw. unpack; tests; simplify_eq; simpl in *;
        repeat split; try lia; try congruence. }
    destruct E as (-> & -> & Hb & Hn).
    rewrite (proj2 (Z.eqb_neq _ _) Hb) in *. rewrite Z.eqb_refl.
    destruct Hw as [Hw Hl]. split; [|later].
    apply (window_next m0 (4 * n0 + 2)); auto; try lia.
    + rewrite flag_ev_at by lia. reflexivity.
    + apply in_exchange_store. lia.
  - (* TReadyWait *)
    exfalso. unfold flag_inv, thread_at, thread_next, thread_enter in Hf.
    simpl in Hf. rewrite ?Hflag in Hf.
    destruct mp; simpl in *; unpack; simplify_eq; auto.
  - exfalso. unfold flag_inv, thread_at, thread_next, thread_enter in Hf.
    simpl in Hf. rewrite ?Hflag in Hf.
    destruct mp; simpl in *; unpack; simplify_eq; auto.
  - exfalso. unfold flag_inv, thread_at, thread_next, thread_enter in Hf.
    simpl in Hf. rewrite ?Hflag in Hf.
    destruct mp; simpl in *; unpack; simplify_eq; auto.
  - exact Hw.
Qed.

Lemma window_inv_run sched : window_inv (run c sched).
Proof.
  induction sched as [|x sched IH] using rev_ind.
  - apply window_inv_init.
  - rewrite run_snoc. pose proof (flag_inv_run c Hflag sched) as Hf.
    destruct x as [[|] dt]; unfold step; simpl.
    + apply window_inv_main; assumption.
    + apply window_inv_thread; assumption.
Qed.

(** The step that reads the end timestamp of sample [m] finds the
    window of that sample complete. *)
Lemma flag_ts2_emitted s x m t2 :
  flag_inv c s -> window_inv s ->
  log (step c s x) = EvTs2 m t2 :: log s -> window m 400 (log s).
Proof.
  intros Hf Hw Hstep.
  destruct s as [a b clk mp tp t1 r lg].
  unfold window_inv in Hw.
  destruct x as [[|] dt]; unfold step in Hstep; simpl in *.
  - unfold main_step in Hstep; simpl in Hstep.
    destruct mp; simpl in *;
      try (destruct tp; simpl in *; impossible Hstep);
      repeat (branch_in Hstep; simpl in Hstep); try impossible Hstep.
    injection Hstep as -> _. tauto.
  - unfold thread_step in Hstep; simpl in Hstep.
    destruct tp; simpl in *;
      repeat (branch_in Hstep; simpl in Hstep); impossible Hstep.
Qed.

(** Up to its end timestamp a sample of the flag exchange is: the
    start timestamp, then the 100 round trips in order, with nothing
    among them but events of the prologue of the spawned thread. *)
Lemma flag_sample_trace sched pre post m t2 :
  trace c sched = pre ++ EvTs2 m t2 :: post ->
  exists before t1 inside,
    pre = before ++ EvTs1 m t1 :: inside /\
    List.filter (in_exchange m) inside = flag_chain m /\
    Forall (fun e => in_exchange m e = true \/ in_prologue e = true)
           inside /\
    List.filter (in_exchange m) before = [].
Proof.
  intros Htr. apply emitted_by_step in Htr as (sched1 & x & Hlog & Hstep).
  rewrite <- Hlog in Hstep.
  apply flag_ts2_emitted in Hstep;
    [|apply flag_inv_run, Hflag|apply window_inv_run].
  rewrite Hlog in Hstep.
  destruct Hstep as (t1 & mid & rest & Hpre & Hf & Hall & Hrest).
  exists (rev rest), t1, (rev mid). repeat split.
  - rewrite <- (rev_involutive pre), Hpre, rev_app_distr. simpl.
    rewrite <- app_assoc. reflexivity.
  - rewrite <- rev_flag_log_400, <- Hf. apply filter_rev.
  - apply List.Forall_rev, Hall.
  - unfold none_of in Hrest. rewrite filter_rev, Hrest. reflexivity.
Qed.

End Window.

End ExchangeFacts.

(* ================================================================== *)
(** * The timestamps of a pair measurement *)
(* ================================================================== *)

Module StampsFacts.

Import Clock Sampler Protocol ProtocolFacts Progress ProgressFacts Stamps.
Local Open Scope Z_scope.

(** The elapsed time stays folded in the proofs about the steps. *)
#[local] Opaque elapsed_ns elapsed_double.

Lemma kinds_upto_succ k :
  0 <= k ->
  kinds_upto (Z.to_nat (k + 1)) =
  (true, k) :: (false, k) :: kinds_upto (Z.to_nat k).
Proof.
  intros Hk. rewrite Z2Nat.inj_add by lia. rewrite Nat.add_comm.
  simpl. rewrite Z2Nat.id by exact Hk. reflexivity.
Qed.

Lemma kinds_upto_last m ns :
  0 <= m < ns -> ns <= m + 1 ->
  kinds_upto (Z.to_nat (Z.max 0 ns)) =
  (true, m) :: (false, m) :: kinds_upto (Z.to_nat m).
Proof.
  intros Hm Hns. replace (Z.max 0 ns) with (m + 1) by lia.
  apply kinds_upto_succ. lia.
Qed.

Lemma rev_kinds_upto k : rev (kinds_upto k) = kinds_in_order k.
Proof.
  unfold kinds_in_order. induction k as [|k IH]; [reflexivity|].
  rewrite seq_S, flat_map_app. simpl. rewrite IH, <- app_assoc.
  reflexivity.
Qed.

Lemma not_after_later now now' xs :
  now <= now' -> not_after now xs -> not_after now' xs.
Proof.
  destruct xs as [|x xs]; simpl; [auto|].
  intros H [H1 H2]. split; [lia|auto].
Qed.

Lemma stamps_of_rev lg : stamps_of (rev lg) = rev (stamps_of lg).
Proof.
  assert (Happ : forall l1 l2,
            stamps_of (l1 ++ l2) = stamps_of l1 ++ stamps_of l2).
  { induction l1 as [|e l1 IH]; intros l2; [reflexivity|].
    destruct e; simpl; rewrite ?IH; reflexivity. }
  induction lg as [|e lg IH]; [reflexivity|].
  simpl rev. rewrite Happ, IH.
  destruct e; simpl; rewrite ?app_nil_r; reflexivity.
Qed.

Lemma sorted_snoc (l : list Z) (t : Z) :
  StronglySorted Z.le l -> Forall (fun u => u <= t) l ->
  StronglySorted Z.le (l ++ [t]).
Proof.
  induction 1 as [|u l Hs IH Hu]; intros Hall; simpl.
  - constructor; constructor.
  - apply Forall_cons_1 in Hall. destruct Hall as [Hut Hall].
    constructor; [exact (IH Hall)|].
    apply Forall_app. split; [exact Hu|]. constructor; [exact Hut|constructor].
Qed.

Lemma not_after_sorted now xs :
  not_after now xs ->
  StronglySorted Z.le (map reading (rev xs)) /\
  Forall (fun u => u <= now) (map reading (rev xs)).
Proof.
  revert now. induction xs as [|x xs IH]; intros now; simpl.
  - intros _. split; constructor.
  - intros [Hx Hxs]. destruct (IH _ Hxs) as [Hs Hall].
    rewrite map_app. simpl. split.
    + apply sorted_snoc; assumption.
    + apply Forall_app. split.
      * apply List.Forall_forall. intros u Hu.
        pose proof (proj1 (List.Forall_forall _ _) Hall u Hu). simpl in *.
        lia.
      * constructor; [exact Hx|constructor].
Qed.

Section Stamps.

Variable c : config.

Lemma stamps_inv_init : stamps_inv c init.
Proof. split; [reflexivity|exact I]. Qed.

(** Decide the next test of the code, whatever the program point it
    leads to. *)
Ltac cond :=
  match goal with
  | |- context [if ?b then _ else _] =>
      lazymatch b with
      | timing _ => fail
      | _ => destruct b eqn:?
      end
  end.

Lemma stamps_inv_step s x :
  cells_inv c s -> stamps_inv c s -> stamps_inv c (step c s x).
Proof.
  destruct s as [a b clk mp tp t1 r lg]. unfold cells_inv, stamps_inv.
  simpl. intros (Hm & Ht & _) [Hk Hn].
  assert (Hn' : forall dt, not_after (clk + Z.of_N dt) (stamps_of lg))
    by (intros dt; eapply not_after_later; [|exact Hn]; lia).
  destruct x as [[|] dt]; unfold step; simpl.
  - unfold main_step, main_enter; simpl.
    destruct mp; simpl in *; try destruct tp; simpl.
    all: repeat (cond; simpl); tests.
    all: first
      [ split; [exact Hk|apply Hn']
      | rewrite Z.max_l in * by lia; split; [exact Hk|apply Hn']
      | rewrite Z.max_l by lia; split; [exact Hk|apply Hn']
      | rewrite Hk; split; [|split; [lia|apply Hn']];
        first [ reflexivity
              | symmetry; apply kinds_upto_succ; lia
              | symmetry; apply kinds_upto_last; lia ] ].
  - unfold thread_step; simpl.
    destruct tp; simpl in *; repeat (cond; simpl);
      split; first [exact Hk | apply Hn'].
Qed.

Lemma stamps_inv_run sched : stamps_inv c (run c sched).
Proof.
  induction sched as [|x sched IH] using rev_ind.
  - apply stamps_inv_init.
  - rewrite run_snoc.
    apply stamps_inv_step; [apply cells_inv_run|exact IH].
Qed.

(** The timestamps of a trace, first event first. *)
Lemma stamps_of_trace sched :
  map kind (stamps_of (trace c sched)) =
  kinds_in_order (Z.to_nat (completed c (main (run c sched)))) ++
  (if timing (main (run c sched))
   then [(false, completed c (main (run c sched)))] else []) /\
  StronglySorted Z.le (map reading (stamps_of (trace c sched))).
Proof.
  destruct (stamps_inv_run sched) as [Hk Hn].
  unfold trace. rewrite stamps_of_rev. split.
  - rewrite map_rev, Hk, rev_app_distr, rev_kinds_upto.
    destruct (timing (main (run c sched))); reflexivity.
  - apply (not_after_sorted _ _ Hn).
Qed.

End Stamps.

End StampsFacts.

(* ================================================================== *)
(** * Further properties of the code *)
(* ================================================================== *)

Module Extras.

Import Clock ClockFacts Sampler SamplerFacts Builder BuilderFacts.
Import StringFacts.
Import Protocol Invariants ProtocolFacts WarmFacts TimingFacts.
Import Progress ProgressFacts Exchange ExchangeFacts Scenario Inputs.
Import Stamps StampsFacts.

(** ** Helpers *)

Lemma forallb_false {A : Type} (f : A -> bool) (l : list A) :
  forallb f l = false -> exists x, In x l /\ f x = false.
Proof.
  induction l as [|x l IH]; simpl; intros H; [discriminate H|].
  destruct (f x) eqn:E.
  - destruct (IH H) as (y & Hy & Ey). eauto.
  - eauto.
Qed.

Lemma existsb_negb_false {A : Type} (f : A -> bool) (l : list A) :
  existsb (fun x => negb (f x)) l = false -> forallb f l = true.
Proof.
  induction l as [|x l IH]; simpl; intros H; [reflexivity|].
  apply orb_false_elim in H as [H1 H2].
  apply negb_false_iff in H1. rewrite H1, (IH H2). reflexivity.
Qed.

Lemma members_small size set :
  (Z.of_nat size <= 10000)%Z ->
  Forall (fun v => (0 <= v < 10000)%Z)
         (map Z.of_nat (Affinity.members size set)).
Proof.
  intros Hsize. apply List.Forall_forall.
  intros z Hz. apply in_map_iff in Hz as (i & <- & Hi).
  apply AffinityFacts.in_members in Hi as [Hi _]. lia.
Qed.

Lemma setsize_small : (Z.of_nat Affinity.CPU_SETSIZE <= 10000)%Z.
Proof. vm_compute. discriminate. Qed.

Lemma enumerated_small set :
  Forall (fun v => (0 <= v < 10000)%Z)
         (Affinity.cpus (Affinity.enumerate set)).
Proof.
  rewrite IclFacts.enumerated_members.
  apply members_small, setsize_small.
Qed.

Lemma enumerate_upto_spec size set :
  let a := Affinity.enumerate_upto size set in
  Affinity.ncpus a = length (Affinity.cpus a) /\
  Affinity.ncpus a <= size /\
  StronglySorted Z.lt (Affinity.cpus a) /\
  NoDup (Affinity.cpus a) /\
  forall z, In z (Affinity.cpus a) <->
    exists i, z = Z.of_nat i /\ i < size /\
              Affinity.CPU_ISSET i set = true.
Proof.
  cbv zeta.
  pose proof (AffinityFacts.enumerate_upto_members size set) as [Hc Hn].
  rewrite Hc, Hn. repeat split.
  - rewrite length_map. reflexivity.
  - apply AffinityFacts.members_bound.
  - apply (StronglySorted_fmap Z.of_nat lt Z.lt).
    + intros x y Hxy. lia.
    + apply AffinityFacts.members_sorted.
  - apply IclFacts.NoDup_members.
  - intros Hz. apply in_map_iff in Hz as (i & <- & Hi).
    apply AffinityFacts.in_members in Hi. eauto.
  - intros (i & -> & Hi). apply in_map.
    apply AffinityFacts.in_members. exact Hi.
Qed.

Lemma table_lines_aligned (cpus data : list Z) :
  Forall (fun v => (0 <= v < 10000)%Z) cpus ->
  Forall (fun v => (0 <= v < 10000)%Z) data ->
  length data = length cpus * length cpus ->
  Forall (fun l => String.length l = 5 * length cpus + 5)
         (Report.table_lines cpus data).
Proof.
  intros Hcpus Hdata Hlen.
  unfold Report.table_lines. constructor.
  - unfold Report.header_line.
    rewrite ReportFacts.length_line, length_append,
      ReportFacts.length_pad, ReportFacts.length_cells by exact Hcpus.
    change (String.length "CPU") with 3. lia.
  - apply List.Forall_forall. intros l Hl.
    apply in_map_iff in Hl as (i & <- & Hi). apply in_seq in Hi.
    unfold Report.row_line.
    rewrite ReportFacts.length_line, length_append.
    rewrite ReportFacts.length_cells
      by (apply ReportFacts.Forall_matrix_row, Hdata).
    rewrite ReportFacts.length_matrix_row by (lia || exact Hlen).
    rewrite ReportFacts.length_fmt4; [lia|].
    rewrite List.Forall_forall in Hcpus. apply Hcpus, nth_In. lia.
Qed.

(** The loops exit only through a failed pinning call of a pair they
    have reached. *)
Lemma main_loops_exit e cpus nsamples st err :
  main_loops e cpus nsamples = Exited st err ->
  st = 1%Z /\
  exists i j,
    i < j < ncpus cpus /\ reached e cpus (i, j) /\
    pair_ok e cpus (i, j) = false /\
    (err = pin_line e \/
     err = (pin_line e ++ pin_line e)%string /\
     pin_fails e cpus Responder (i, j) = true /\
     pin_fails e cpus Initiator (i, j) = true).
Proof.
  destruct (main_loops_decide e cpus nsamples)
    as [[_ H]|(before & [i j] & after & Hp & Hb & Hok & H)];
    rewrite H; [discriminate|].
  simpl. destruct (measure_pair e cpus nsamples i j) as [r|st' err'|] eqn:E;
    try discriminate.
  intros Heq. injection Heq as <- <-.
  apply measure_pair_exited in E as (-> & Hpok & Herr).
  split; [reflexivity|]. exists i, j. split.
  { apply in_all_pairs. rewrite Hp. apply in_elt. }
  split; [exists before, after; auto|]. split; [exact Hpok|].
  destruct Herr as [->|(-> & H1 & H2 & _)]; auto.
Qed.


(** What a run that gets through its prologue returns, for the array
    of CPUs the enumeration has left. *)
Lemma main_prints p o cpus :
  Cli.parse_options (Icl.command p) = Returned o ->
  Icl.getaffinity_rc p <> (-1)%Z ->
  pins_succeed (Icl.machine p) ->
  measurements_end (Icl.machine p) ->
  Affinity.cpus (Affinity.enumerate (Icl.affinity p)) = cpus ->
  NoDup cpus ->
  exists s,
    main_loops (Icl.machine p) cpus (Cli.nsamples o) = Returned s /\
    length (data s) = length cpus * length cpus /\
    Icl.main p =
    Returned
      ((if Cli.plot o
        then Report.preamble (Cli.name o) (Cli.use_write o)
        else EmptyString) ++
       Report.text
         (Report.lines_at cpus (data s) (Report.shown (Cli.smt o) cpus)) ++
       (if Cli.plot o then Report.epilogue else EmptyString))%string /\
    (Cli.smt o = false ->
     Report.lines_at cpus (data s) (Report.shown (Cli.smt o) cpus)
     = Report.table_lines cpus (data s)).
Proof.
  intros Hopt Hrc Hpins Hends Hcpus Hnodup.
  pose proof (main_loops_total (Icl.machine p) cpus (Cli.nsamples o)
                Hpins Hends) as Hloops.
  eexists. split; [exact Hloops|].
  destruct (final_entries _ _ _ _ Hloops) as (Hlen & _).
  split; [exact Hlen|]. split.
  - rewrite IclFacts.main_decide, Hopt.
    destruct (Z.eqb_spec (Icl.getaffinity_rc p) (-1)); [contradiction|].
    cbv zeta. rewrite Hcpus, Hloops. f_equal.
    apply IclFacts.report_lines, Hnodup.
  - intros Hsmt. rewrite Hsmt.
    unfold Report.shown, Report.interleave. rewrite map_id.
    apply ReportFacts.lines_at_positions, Hlen.
Qed.

(** No line of a table is the line that ends the data block. *)
Lemma lines_not_terminator cpus data order :
  Forall (fun l => l <> Report.line "EOD")
         (Report.lines_at cpus data order).
Proof.
  assert (Hshort : forall s,
            4 <= String.length s -> Report.line s <> Report.line "EOD").
  { intros s Hs E. apply (f_equal String.length) in E.
    rewrite !ReportFacts.length_line in E.
    change (String.length "EOD") with 3 in E. lia. }
  unfold Report.lines_at. constructor.
  - apply Hshort. rewrite length_append, ReportFacts.length_pad. lia.
  - apply List.Forall_forall. intros l Hl.
    apply in_map_iff in Hl as (i & <- & _).
    apply Hshort. unfold Report.fmt4.
    rewrite length_append, ReportFacts.length_pad. lia.
Qed.

(** Without [-H] the trace of either context holds no warm-up. *)
Lemma no_preheat_no_warm c sched t :
  preheat c = false -> warm_events t (trace c sched) = [].
Proof.
  intros Hheat. destruct (warm_inv_run c sched) as [Hm Ht].
  unfold warm_events, trace. rewrite filter_rev.
  assert (H : List.filter (is_warm t) (log (run c sched)) = []).
  { destruct t.
    - unfold main_warm, warming, warmed, fresh in Hm.
      rewrite Hheat in Hm.
      destruct (main (run c sched)); try tauto;
        destruct Hm as [Hm _]; discriminate Hm.
    - unfold thread_warm, warming, warmed, fresh in Ht.
      rewrite Hheat in Ht.
      destruct (thread (run c sched)); try tauto;
        destruct Ht as [Ht _]; discriminate Ht. }
  rewrite H. reflexivity.
Qed.

(** ** The CPUs of the process *)

(** X2.  The enumeration of lines 157-165 leaves in [cpus] exactly the
    CPU numbers below [CPU_SETSIZE] that are set in the affinity mask,
    each once and in strictly increasing order; [ncpus] is the number
    of entries of the array. *)
Theorem X2_enumeration_lists_mask_in_order (set : N) :
  let a := Affinity.enumerate set in
  Affinity.ncpus a = length (Affinity.cpus a) /\
  Affinity.ncpus a <= Affinity.CPU_SETSIZE /\
  StronglySorted Z.lt (Affinity.cpus a) /\
  NoDup (Affinity.cpus a) /\
  forall z, In z (Affinity.cpus a) <->
    exists i, z = Z.of_nat i /\ i < Affinity.CPU_SETSIZE /\
              Affinity.CPU_ISSET i set = true.
Proof. exact (enumerate_upto_spec Affinity.CPU_SETSIZE set). Qed.

(** ** The command line *)

(** X3.  When [getopt] returns a character the [switch] has no case
    for (['?'] for an unknown option or a missing argument), or when
    arguments are left after the options, the process writes the usage
    text to [stderr], after whatever [getopt] has written there, and
    exits with status 1: nothing is measured and nothing is printed. *)
Theorem X3_bad_command_line_prints_usage (p : Icl.process) :
  existsb (fun g => negb (Cli.known (Cli.opt g)))
          (Cli.calls (Icl.command p)) = true \/
  Cli.optind (Icl.command p) <> Cli.argc (Icl.command p) ->
  exists diag,
    Cli.parse_options (Icl.command p) = Exited 1 (diag ++ Cli.usage) /\
    Icl.main p = Exited 1 (diag ++ Cli.usage).
Proof.
  intros H.
  assert (Hexit : exists diag,
            Cli.parse_options (Icl.command p)
            = Exited 1 (diag ++ Cli.usage)).
  { unfold Cli.parse_options.
    destruct (existsb (fun g => negb (Cli.known (Cli.opt g)))
                (Cli.calls (Icl.command p))) eqn:E.
    - apply CliFacts.getopt_loop_unknown, E.
    - destruct H as [H|H]; [discriminate H|].
      rewrite CliFacts.getopt_loop_known
        by (apply existsb_negb_false, E).
      destruct (Z.eqb_spec (Cli.optind (Icl.command p))
                  (Cli.argc (Icl.command p))); [contradiction|].
      eexists. reflexivity. }
  destruct Hexit as [diag E]. exists diag. split; [exact E|].
  rewrite IclFacts.main_decide, E. reflexivity.
Qed.

Lemma X3_witness :
  exists diag,
    Cli.parse_options (Icl.command process_unknown)
    = Exited 1 (diag ++ Cli.usage) /\
    Icl.main process_unknown = Exited 1 (diag ++ Cli.usage).
Proof.
  apply (X3_bad_command_line_prints_usage process_unknown).
  left. vm_compute. reflexivity.
Defined.

(** X4.  When every character [getopt] returns is one of [H n p s t w]
    and no argument is left, the options are: each of the four flags
    set exactly when its character was returned at least once; the
    name given with the last [-n], or none; the number of samples the
    [atoi] of the argument of the last [-s], or 1000. *)
Theorem X4_options_defaults_and_last_wins (cl : Cli.command_line) :
  forallb (fun g => Cli.known (Cli.opt g)) (Cli.calls cl) = true ->
  Cli.optind cl = Cli.argc cl ->
  exists o,
    Cli.parse_options cl = Returned o /\
    Cli.preheat o = existsb (Cli.returned "H") (Cli.calls cl) /\
    Cli.plot o = existsb (Cli.returned "p") (Cli.calls cl) /\
    Cli.smt o = existsb (Cli.returned "t") (Cli.calls cl) /\
    Cli.use_write o = existsb (Cli.returned "w") (Cli.calls cl) /\
    Cli.name o = Cli.last_arg "n" (Cli.calls cl) /\
    Cli.nsamples o = match Cli.last_arg "s" (Cli.calls cl) with
                     | Some a => Cli.atoi cl a
                     | None => 1000%Z
                     end.
Proof.
  intros Hknown Hind. unfold Cli.parse_options.
  rewrite CliFacts.getopt_loop_known by exact Hknown.
  rewrite Hind, Z.eqb_refl. eexists. split; [reflexivity|].
  unfold Cli.after; simpl.
  destruct (Cli.last_arg "n" (Cli.calls cl)); repeat split.
Qed.

Lemma X4_witness :
  exists o,
    Cli.parse_options cl_options = Returned o /\
    Cli.preheat o = existsb (Cli.returned "H") (Cli.calls cl_options) /\
    Cli.plot o = existsb (Cli.returned "p") (Cli.calls cl_options) /\
    Cli.smt o = existsb (Cli.returned "t") (Cli.calls cl_options) /\
    Cli.use_write o = existsb (Cli.returned "w") (Cli.calls cl_options) /\
    Cli.name o = Cli.last_arg "n" (Cli.calls cl_options) /\
    Cli.nsamples o = match Cli.last_arg "s" (Cli.calls cl_options) with
                     | Some a => Cli.atoi cl_options a
                     | None => 1000%Z
                     end.
Proof.
  apply (X4_options_defaults_and_last_wins cl_options); reflexivity.
Defined.

(** ** The output *)

(** X5.  The position [smt ? (i >> 1) + (i & 1) * ncpus / 2 : i]
    computed for a row or column of the table is a position of [cpus],
    with and without [-t]; and since the CPU numbers are all different
    the search of lines 281-287 ends with [idx0] and [idx1] equal to
    the two positions it was given, so that the entry printed is
    [data[c0 * ncpus + c1]], inside the matrix. *)
Theorem X5_search_finds_the_positions
    (smt : bool) (cpus : list Z) (i j : Z) :
  NoDup cpus ->
  (0 <= i < Report.ncpus cpus)%Z -> (0 <= j < Report.ncpus cpus)%Z ->
  let c0 := Report.interleave smt cpus i in
  let c1 := Report.interleave smt cpus j in
  (0 <= c0 < Report.ncpus cpus)%Z /\ (0 <= c1 < Report.ncpus cpus)%Z /\
  Report.search cpus c0 c1 = (c0, c1) /\
  (0 <= c0 * Report.ncpus cpus + c1
   < Report.ncpus cpus * Report.ncpus cpus)%Z.
Proof.
  intros Hnodup Hi Hj c0 c1.
  pose proof (ReportFacts.interleave_range_smt cpus smt i Hi) as H0.
  pose proof (ReportFacts.interleave_range_smt cpus smt j Hj) as H1.
  fold c0 in H0. fold c1 in H1.
  split; [exact H0|]. split; [exact H1|]. split.
  - apply ReportFacts.search_found; assumption.
  - nia.
Qed.

Lemma X5_witness :
  (0 <= Report.interleave true cpus4 1 < Report.ncpus cpus4)%Z /\
  (0 <= Report.interleave true cpus4 2 < Report.ncpus cpus4)%Z /\
  Report.search cpus4 (Report.interleave true cpus4 1)
                      (Report.interleave true cpus4 2)
  = (Report.interleave true cpus4 1, Report.interleave true cpus4 2) /\
  (0 <= Report.interleave true cpus4 1 * Report.ncpus cpus4
        + Report.interleave true cpus4 2
   < Report.ncpus cpus4 * Report.ncpus cpus4)%Z.
Proof.
  apply (X5_search_finds_the_positions true cpus4 1 2).
  - apply NoDup_ListNoDup. repeat constructor; simpl; intuition lia.
  - vm_compute. split; [discriminate|reflexivity].
  - vm_compute. split; [discriminate|reflexivity].
Defined.

(** X6.  With [-t] and an even number of CPUs the positions shown are
    a rearrangement of all positions: rows [2k] and [2k + 1] of the
    table show positions [k] and [k + ncpus / 2] of [cpus], so every
    CPU appears exactly once. *)
Theorem X6_interleave_even_is_permutation (cpus : list Z) :
  Z.even (Report.ncpus cpus) = true ->
  Permutation (Report.shown true cpus) (Report.positions cpus) /\
  Permutation (map (Report.cpu cpus) (Report.shown true cpus)) cpus /\
  forall k, (0 <= k)%Z ->
    Report.interleave true cpus (2 * k) = k /\
    Report.interleave true cpus (2 * k + 1)
    = (k + Report.ncpus cpus / 2)%Z.
Proof.
  intros He.
  pose proof (ReportFacts.shown_permutation cpus He) as Hp.
  split; [exact Hp|]. split.
  - rewrite (Permutation_map (Report.cpu cpus) Hp).
    unfold Report.positions, Report.cpu. rewrite List.map_map.
    rewrite <- (ReportFacts.map_nth_all cpus) at 2.
    apply Permutation_refl'. apply map_ext. intros i.
    rewrite Nat2Z.id. reflexivity.
  - intros k Hk. split.
    + apply ReportFacts.interleave_even, Hk.
    + apply ReportFacts.interleave_odd, Hk.
Qed.

Lemma X6_witness :
  Permutation (Report.shown true cpus4) (Report.positions cpus4) /\
  Permutation (map (Report.cpu cpus4) (Report.shown true cpus4)) cpus4 /\
  forall k, (0 <= k)%Z ->
    Report.interleave true cpus4 (2 * k) = k /\
    Report.interleave true cpus4 (2 * k + 1)
    = (k + Report.ncpus cpus4 / 2)%Z.
Proof.
  apply (X6_interleave_even_is_permutation cpus4). reflexivity.
Defined.

(** X7.  With [-t] and an odd number of CPUs, three or more, the
    interleaving is not a rearrangement: the last position of [cpus]
    is shown by no row or column, and the middle position
    [ncpus / 2] is shown twice, by rows 1 and [ncpus - 1]. *)
Theorem X7_interleave_odd_hides_last (cpus : list Z) :
  Z.odd (Report.ncpus cpus) = true -> (3 <= Report.ncpus cpus)%Z ->
  ~ In (Report.ncpus cpus - 1)%Z (Report.shown true cpus) /\
  Report.interleave true cpus 1 = (Report.ncpus cpus / 2)%Z /\
  Report.interleave true cpus (Report.ncpus cpus - 1)
  = (Report.ncpus cpus / 2)%Z /\
  (1 <> Report.ncpus cpus - 1)%Z.
Proof.
  intros Ho Hn. split; [|split; [|split]].
  - unfold Report.shown. rewrite in_map_iff. intros (i & E & Hi).
    apply ReportFacts.in_positions in Hi.
    destruct (ReportFacts.interleave_odd_count cpus i Ho Hn Hi) as [H _].
    lia.
  - apply (ReportFacts.interleave_odd_count cpus 0 Ho Hn). lia.
  - apply (ReportFacts.interleave_odd_count cpus 0 Ho Hn). lia.
  - lia.
Qed.

Lemma X7_witness :
  ~ In (Report.ncpus cpus3 - 1)%Z (Report.shown true cpus3) /\
  Report.interleave true cpus3 1 = (Report.ncpus cpus3 / 2)%Z /\
  Report.interleave true cpus3 (Report.ncpus cpus3 - 1)
  = (Report.ncpus cpus3 / 2)%Z /\
  (1 <> Report.ncpus cpus3 - 1)%Z.
Proof.
  apply (X7_interleave_odd_hides_last cpus3).
  - reflexivity.
  - vm_compute. discriminate.
Defined.

(** X8.  What lines 270-291 write is the table read line by line: a
    header with the CPU numbers of the positions shown, then one line
    per position shown with its CPU number and the entries of its row
    of the matrix at the positions shown, every field right-aligned in
    four columns after a space.  Without [-t] line [i + 1] holds
    [cpus[i]] and row [i] of [data]. *)
Theorem X8_table_shows_matrix_rows
    (smt : bool) (cpus data : list Z) (out : string) :
  NoDup cpus ->
  Report.print_table smt cpus data out
  = (out ++ Report.text
              (Report.lines_at cpus data (Report.shown smt cpus)))%string /\
  (smt = false -> length data = length cpus * length cpus ->
   Report.print_table smt cpus data out
   = (out ++ Report.text (Report.table_lines cpus data))%string).
Proof.
  intros Hnodup. split.
  - apply ReportFacts.print_table_lines, Hnodup.
  - intros -> Hlen. rewrite ReportFacts.print_table_lines by exact Hnodup.
    unfold Report.shown, Report.interleave. rewrite map_id.
    rewrite ReportFacts.lines_at_positions by exact Hlen. reflexivity.
Qed.

Lemma X8_witness :
  Report.print_table false cpus3 (data final3) EmptyString
  = (EmptyString ++ Report.text
       (Report.lines_at cpus3 (data final3)
          (Report.shown false cpus3)))%string /\
  (false = false -> length (data final3) = length cpus3 * length cpus3 ->
   Report.print_table false cpus3 (data final3) EmptyString
   = (EmptyString
      ++ Report.text (Report.table_lines cpus3 (data final3)))%string).
Proof.
  apply (X8_table_shows_matrix_rows false cpus3 (data final3) EmptyString).
  apply NoDup_ListNoDup. repeat constructor; simpl; intuition lia.
Defined.

(** X9.  The CPU numbers of the enumeration always fit their fields,
    and when every entry of the matrix is below 10000 all lines of the
    table, the header included, have the same length of
    [5 * ncpus + 5] characters with the newline: the columns line
    up. *)
Theorem X9_table_columns_align (set : N) (data : list Z) :
  let cpus := Affinity.cpus (Affinity.enumerate set) in
  Forall (fun v => (0 <= v < 10000)%Z) data ->
  length data = length cpus * length cpus ->
  Forall (fun l => String.length l = 5 * length cpus + 5)
         (Report.table_lines cpus data).
Proof.
  intros cpus Hdata Hlen.
  apply table_lines_aligned; [apply enumerated_small|exact Hdata|exact Hlen].
Qed.

Lemma X9_witness :
  Forall (fun l => String.length l
                   = 5 * length (Affinity.cpus (Affinity.enumerate 7)) + 5)
         (Report.table_lines (Affinity.cpus (Affinity.enumerate 7))
            (data final3)).
Proof.
  apply (X9_table_columns_align 7 (data final3)).
  - repeat constructor; lia.
  - vm_compute. reflexivity.
Defined.

(** ** The whole program *)

(** X10.  Whenever [main] exits instead of returning, the status is 1
    and [stderr] tells the cause: the usage text for a bad command
    line, [perror]'s line for [sched_getaffinity] when that call
    returned -1, or [perror]'s line for [sched_setaffinity] when a
    pinning call failed for a pair the loops had reached; that line
    stands there twice only if both calls of the pair failed. *)
Theorem X10_exit_status_and_cause
    (p : Icl.process) (st : Z) (err : string) :
  Icl.main p = Exited st err ->
  st = 1%Z /\
  ((exists diag,
      err = (diag ++ Cli.usage)%string /\
      Cli.parse_options (Icl.command p) = Exited 1 err) \/
   (Icl.getaffinity_rc p = (-1)%Z /\
    err = perror (Icl.machine p) "sched_getaffinity") \/
   (exists i j,
      i < j < ncpus (Affinity.cpus (Affinity.enumerate (Icl.affinity p))) /\
      reached (Icl.machine p)
        (Affinity.cpus (Affinity.enumerate (Icl.affinity p))) (i, j) /\
      pair_ok (Icl.machine p)
        (Affinity.cpus (Affinity.enumerate (Icl.affinity p))) (i, j)
      = false /\
      (err = pin_line (Icl.machine p) \/
       err = (pin_line (Icl.machine p) ++ pin_line (Icl.machine p))%string
       /\
       pin_fails (Icl.machine p)
         (Affinity.cpus (Affinity.enumerate (Icl.affinity p)))
         Responder (i, j) = true /\
       pin_fails (Icl.machine p)
         (Affinity.cpus (Affinity.enumerate (Icl.affinity p)))
         Initiator (i, j) = true))).
Proof.
  rewrite IclFacts.main_decide.
  destruct (Cli.parse_options (Icl.command p)) as [o|st' err'|] eqn:Ep.
  - destruct (Z.eqb_spec (Icl.getaffinity_rc p) (-1)) as [Hrc|Hrc].
    + intros H. injection H as <- <-. auto.
    + cbv zeta.
      destruct (main_loops _ _ _) as [s|st' err'|] eqn:El;
        try discriminate.
      intros H. injection H as <- <-.
      apply main_loops_exit in El as (-> & Hpair). auto.
  - intros H. injection H as <- <-.
    unfold Cli.parse_options in Ep.
    apply CliFacts.getopt_loop_exit in Ep as Hex.
    destruct Hex as (-> & diag & ->).
    split; [reflexivity|]. left. eauto.
  - discriminate.
Qed.

Lemma X10_witness :
  1%Z = 1%Z /\
  ((exists diag,
      (pin_line env3_both_unpinned ++ pin_line env3_both_unpinned)%string
      = (diag ++ Cli.usage)%string /\
      Cli.parse_options (Icl.command process3_both_unpinned)
      = Exited 1
          (pin_line env3_both_unpinned ++ pin_line env3_both_unpinned)) \/
   (Icl.getaffinity_rc process3_both_unpinned = (-1)%Z /\
    (pin_line env3_both_unpinned ++ pin_line env3_both_unpinned)%string
    = perror (Icl.machine process3_both_unpinned) "sched_getaffinity") \/
   (exists i j,
      i < j < ncpus (Affinity.cpus
                       (Affinity.enumerate
                          (Icl.affinity process3_both_unpinned))) /\
      reached (Icl.machine process3_both_unpinned)
        (Affinity.cpus
           (Affinity.enumerate (Icl.affinity process3_both_unpinned)))
        (i, j) /\
      pair_ok (Icl.machine process3_both_unpinned)
        (Affinity.cpus
           (Affinity.enumerate (Icl.affinity process3_both_unpinned)))
        (i, j) = false /\
      ((pin_line env3_both_unpinned ++ pin_line env3_both_unpinned)%string
       = pin_line (Icl.machine process3_both_unpinned) \/
       (pin_line env3_both_unpinned ++ pin_line env3_both_unpinned)%string
       = (pin_line (Icl.machine process3_both_unpinned)
          ++ pin_line (Icl.machine process3_both_unpinned))%string /\
       pin_fails (Icl.machine process3_both_unpinned)
         (Affinity.cpus
            (Affinity.enumerate (Icl.affinity process3_both_unpinned)))
         Responder (i, j) = true /\
       pin_fails (Icl.machine process3_both_unpinned)
         (Affinity.cpus
            (Affinity.enumerate (Icl.affinity process3_both_unpinned)))
         Initiator (i, j) = true))).
Proof.
  apply (X10_exit_status_and_cause process3_both_unpinned 1
           (pin_line env3_both_unpinned ++ pin_line env3_both_unpinned)).
  vm_compute. reflexivity.
Defined.

(** X11.  With a good command line, a successful [sched_getaffinity],
    pinning that succeeds and measurements that all come to their end
    (every thread runs, every wait ends), [main] returns, and what it
    has written to [stdout] is the table of the matrix the loops have
    filled, over the CPUs of the affinity mask in increasing order,
    between the two blocks of gnuplot commands when [-p] is given.
    Without [-t] the table holds the rows of the matrix in order. *)
Theorem X11_run_prints_measured_matrix
    (p : Icl.process) (o : Cli.options) :
  Cli.parse_options (Icl.command p) = Returned o ->
  Icl.getaffinity_rc p <> (-1)%Z ->
  pins_succeed (Icl.machine p) ->
  measurements_end (Icl.machine p) ->
  let cpus :=
    map Z.of_nat (Affinity.members Affinity.CPU_SETSIZE (Icl.affinity p)) in
  exists s,
    main_loops (Icl.machine p) cpus (Cli.nsamples o) = Returned s /\
    length (data s) = length cpus * length cpus /\
    Icl.main p =
    Returned
      ((if Cli.plot o
        then Report.preamble (Cli.name o) (Cli.use_write o)
        else EmptyString) ++
       Report.text
         (Report.lines_at cpus (data s) (Report.shown (Cli.smt o) cpus)) ++
       (if Cli.plot o then Report.epilogue else EmptyString))%string /\
    (Cli.smt o = false ->
     Report.lines_at cpus (data s) (Report.shown (Cli.smt o) cpus)
     = Report.table_lines cpus (data s)).
Proof.
  intros Hopt Hrc Hpins Hends cpus. subst cpus.
  apply main_prints; try assumption.
  - apply IclFacts.enumerated_members.
  - apply IclFacts.NoDup_members.
Qed.

Lemma X11_witness :
  exists s,
    main_loops (Icl.machine process3)
      (map Z.of_nat
         (Affinity.members Affinity.CPU_SETSIZE (Icl.affinity process3)))
      (Cli.nsamples options_three) = Returned s /\
    length (data s)
    = length (map Z.of_nat
                (Affinity.members Affinity.CPU_SETSIZE
                   (Icl.affinity process3)))
      * length (map Z.of_nat
                  (Affinity.members Affinity.CPU_SETSIZE
                     (Icl.affinity process3))) /\
    Icl.main process3 =
    Returned
      ((if Cli.plot options_three
        then Report.preamble (Cli.name options_three)
               (Cli.use_write options_three)
        else EmptyString) ++
       Report.text
         (Report.lines_at
            (map Z.of_nat
               (Affinity.members Affinity.CPU_SETSIZE
                  (Icl.affinity process3)))
            (data s)
            (Report.shown (Cli.smt options_three)
               (map Z.of_nat
                  (Affinity.members Affinity.CPU_SETSIZE
                     (Icl.affinity process3))))) ++
       (if Cli.plot options_three then Report.epilogue
        else EmptyString))%string /\
    (Cli.smt options_three = false ->
     Report.lines_at
       (map Z.of_nat
          (Affinity.members Affinity.CPU_SETSIZE (Icl.affinity process3)))
       (data s)
       (Report.shown (Cli.smt options_three)
          (map Z.of_nat
             (Affinity.members Affinity.CPU_SETSIZE
                (Icl.affinity process3))))
     = Report.table_lines
         (map Z.of_nat
            (Affinity.members Affinity.CPU_SETSIZE (Icl.affinity process3)))
         (data s)).
Proof.
  apply (X11_run_prints_measured_matrix process3 options_three).
  - vm_compute. reflexivity.
  - simpl. lia.
  - intros who i j cpu. simpl. lia.
  - intros i j. split; reflexivity.
Defined.

(** X12.  With fewer than two CPUs the loops of lines 169-170 have no
    pair to visit: no thread is created and nothing is pinned, so the
    run returns whatever [sched_setaffinity] would do, with the matrix
    as [calloc] left it. *)
Theorem X12_fewer_than_two_cpus_measure_nothing
    (e : env) (cpus : list Z) (nsamples : Z) :
  length cpus < 2 ->
  main_loops e cpus nsamples
  = Returned {| data := replicate (length cpus * length cpus) 0%Z;
                measured := [] |}.
Proof.
  intros Hlen. destruct cpus as [|a [|b cpus]]; [reflexivity|reflexivity|].
  simpl in Hlen. lia.
Qed.

Lemma X12_witness :
  main_loops env3_unpinned [5%Z] 3
  = Returned {| data := replicate (length [5%Z] * length [5%Z]) 0%Z;
                measured := [] |}.
Proof.
  apply (X12_fewer_than_two_cpus_measure_nothing env3_unpinned [5%Z] 3).
  simpl. lia.
Defined.

(** ** The two contexts of a pair measurement *)

(** X13.  No deadlock: in every state a pair measurement can reach,
    under any schedule and in both protocols, as long as the main
    thread has not returned from [pthread_join] one of the two
    contexts can take a step that does something, at once or, while it
    polls the clock of its warm-up, once the clock has advanced. *)
Theorem X13_no_deadlock (c : config) (sched : schedule) :
  main (run c sched) <> MDone -> exists x, moves c (run c sched) x.
Proof. apply progress. Qed.

Lemma X13_witness : exists x, moves flag1 (run flag1 under_way) x.
Proof.
  apply (X13_no_deadlock flag1 under_way). vm_compute. discriminate.
Defined.

(** X14.  The work of a pair measurement is fixed and completion stays
    within reach: from every state a run can reach there is a
    continuation in which every step does something and which ends
    with the main thread joined; its length is the number of steps
    still to take, and with the events already in the trace it adds up
    to the same total for every schedule. *)
Theorem X14_completion_stays_within_reach (c : config) (sched : schedule) :
  exists more,
    all_move c (run c sched) more /\
    main (run c (sched ++ more)) = MDone /\
    Z.of_nat (length more) = todo c (run c sched) /\
    (Z.of_nat (length (trace c sched)) + Z.of_nat (length more)
     = complete_length c)%Z.
Proof.
  pose proof (todo_nonneg c sched) as Hpos.
  destruct (completes_within c (Z.to_nat (todo c (run c sched))) sched)
    as (more & Hlen & Hall & Hdone); [lia|].
  exists more. split; [exact Hall|]. split; [exact Hdone|].
  split; [lia|].
  pose proof (count_inv_run c sched) as Hcount. unfold count_inv in Hcount.
  unfold trace. rewrite length_rev. lia.
Qed.

(** X15.  When the measurement of a pair is complete its trace has
    404 events per sample in the flag exchange and 210 in the
    compare-and-exchange protocol, plus the two pinnings and the join
    and, with [-H], the four events of the two warm-ups, whatever the
    schedule; the main thread has timed exactly [nsamples] windows,
    and if the clock has stayed below 2^53 ns, up to where the elapsed
    times are computed exactly, the value it stores is [rtt / 2 / 100]
    of the sample loop over these windows. *)
Theorem X15_complete_run_counts (c : config) (sched : schedule) :
  main (run c sched) = MDone ->
  Z.of_nat (length (trace c sched))
  = (Z.max 0 (nsamples c) * (if use_write c then 210 else 404)
     + (if preheat c then 7 else 3))%Z /\
  length (observed c sched) = Z.to_nat (nsamples c) /\
  ((clock (run c sched) < 2 ^ 53)%Z ->
   result (run c sched) = per_hop (sample_loop (observed c sched))).
Proof.
  intros Hdone. split; [|split].
  - pose proof (count_inv_run c sched) as Hcount.
    pose proof (joined_inv_run c sched Hdone) as Hret.
    unfold count_inv, todo, complete_length in Hcount.
    rewrite Hdone, Hret in Hcount. simpl in Hcount.
    unfold trace. rewrite length_rev.
    unfold main_sample, thread_sample in Hcount.
    destruct (use_write c), (preheat c); lia.
  - pose proof (windows_inv_run c sched) as Hwin.
    unfold windows_inv in Hwin. rewrite Hdone in Hwin. simpl in Hwin.
    unfold observed. rewrite length_rev. lia.
  - intros Hb. unfold result.
    destruct (rtt_observed c sched) as [_ Hrtt]. rewrite (Hrtt Hb).
    reflexivity.
Qed.

Lemma X15_witness :
  Z.of_nat (length (trace cas1 fair))
  = (Z.max 0 (nsamples cas1) * (if use_write cas1 then 210 else 404)
     + (if preheat cas1 then 7 else 3))%Z /\
  length (observed cas1 fair) = Z.to_nat (nsamples cas1) /\
  ((clock (run cas1 fair) < 2 ^ 53)%Z ->
   result (run cas1 fair) = per_hop (sample_loop (observed cas1 fair))).
Proof.
  apply (X15_complete_run_counts cas1 fair). vm_compute. reflexivity.
Defined.

(** X16.  Under every schedule the loop indices a context carries stay
    within their loops (the sample index below [nsamples], the step
    index below 100) and the two cells only ever hold values the loops
    can store: [seq1] between -1 and 199, [seq2] between -1 and 99. *)
Theorem X16_cells_stay_in_range (c : config) (sched : schedule) :
  main_wf c (main (run c sched)) /\
  thread_wf c (thread (run c sched)) /\
  (-1 <= seq1 (run c sched) <= 199)%Z /\
  (-1 <= seq2 (run c sched) <= 99)%Z.
Proof. apply cells_inv_run. Qed.

(** X17.  The main thread returns from [pthread_join] only when
    [thread_func] has returned, and from then on no step of either
    context changes the cells, [rtt] or the trace: the cells, which
    live in the block of the loop body, are not used after it. *)
Theorem X17_after_join_nothing_moves
    (c : config) (sched more : schedule) :
  main (run c sched) = MDone ->
  thread (run c sched) = TDone /\
  main (run c (sched ++ more)) = MDone /\
  thread (run c (sched ++ more)) = TDone /\
  trace c (sched ++ more) = trace c sched /\
  seq1 (run c (sched ++ more)) = seq1 (run c sched) /\
  seq2 (run c (sched ++ more)) = seq2 (run c sched) /\
  result (run c (sched ++ more)) = result (run c sched).
Proof.
  intros Hdone.
  destruct (done_stays c sched more Hdone) as (Hm & Ht & Hl & H1 & H2 & Hr).
  split; [apply (joined_inv_run c sched Hdone)|].
  repeat split; try assumption.
  - unfold trace. rewrite Hl. reflexivity.
  - unfold result. rewrite Hr. reflexivity.
Qed.

Lemma X17_witness :
  thread (run flag1 fair) = TDone /\
  main (run flag1 (fair ++ late_thread)) = MDone /\
  thread (run flag1 (fair ++ late_thread)) = TDone /\
  trace flag1 (fair ++ late_thread) = trace flag1 fair /\
  seq1 (run flag1 (fair ++ late_thread)) = seq1 (run flag1 fair) /\
  seq2 (run flag1 (fair ++ late_thread)) = seq2 (run flag1 fair) /\
  result (run flag1 (fair ++ late_thread)) = result (run flag1 fair).
Proof.
  apply (X17_after_join_nothing_moves flag1 fair late_thread).
  vm_compute. reflexivity.
Defined.

(** X18.  In the flag exchange, what the trace holds before the end
    timestamp of a sample is: the start timestamp of that sample and,
    after it, the 100 round trips in order (the main thread stores
    [n] into [seq1], the spawned thread sees it and stores [n] into
    [seq2], the main thread sees that, for [n] from 0 to 99), with
    nothing between them but steps of the prologue of the spawned
    thread; no step of the exchange comes before the start
    timestamp. *)
Theorem X18_flag_sample_is_100_round_trips
    (c : config) (sched : schedule)
    (pre : list event) (m t2 : Z) (post : list event) :
  use_write c = false ->
  trace c sched = pre ++ EvTs2 m t2 :: post ->
  exists before t1 inside,
    pre = before ++ EvTs1 m t1 :: inside /\
    List.filter (in_exchange m) inside = flag_chain m /\
    length (flag_chain m) = 400 /\
    Forall (fun e => in_exchange m e = true \/ in_prologue e = true)
           inside /\
    List.filter (in_exchange m) before = [].
Proof.
  intros Hflag Htr.
  destruct (flag_sample_trace c Hflag sched pre post m t2 Htr)
    as (before & t1 & inside & Hpre & Hchain & Hall & Hnone).
  exists before, t1, inside. repeat split; assumption || reflexivity.
Qed.

Lemma X18_witness :
  exists before t1 inside,
    firstn 409 (trace flag1 late_thread)
    = before ++ EvTs1 0 t1 :: inside /\
    List.filter (in_exchange 0) inside = flag_chain 0 /\
    length (flag_chain 0) = 400 /\
    Forall (fun e => in_exchange 0 e = true \/ in_prologue e = true)
           inside /\
    List.filter (in_exchange 0) before = [].
Proof.
  apply (X18_flag_sample_is_100_round_trips flag1 late_thread
           (firstn 409 (trace flag1 late_thread)) 0 250006010
           (skipn 410 (trace flag1 late_thread))).
  - reflexivity.
  - vm_compute. reflexivity.
Defined.

(** X19.  With [-p] the table stands between the line
    [$data << EOD], which ends the first block of gnuplot commands,
    and the line [EOD], which begins the second; no line of the table
    is that terminator, whatever the matrix holds. *)
Theorem X19_plot_wraps_table (o : Cli.options) (cpus data : list Z) :
  NoDup cpus -> Cli.plot o = true ->
  exists head tail,
    Report.report o cpus data
    = ((head ++ Report.line "$data << EOD") ++
       Report.text
         (Report.lines_at cpus data (Report.shown (Cli.smt o) cpus)) ++
       Report.line "EOD" ++ tail)%string /\
    Forall (fun l => l <> Report.line "EOD")
           (Report.lines_at cpus data (Report.shown (Cli.smt o) cpus)).
Proof.
  intros Hnodup Hplot.
  rewrite IclFacts.report_lines by exact Hnodup. rewrite Hplot.
  exists (Report.settings (Cli.name o) (Cli.use_write o)), Report.plotting.
  split; [reflexivity|apply lines_not_terminator].
Qed.

Lemma X19_witness :
  exists head tail,
    Report.report options_plot cpus3 (data final3)
    = ((head ++ Report.line "$data << EOD") ++
       Report.text
         (Report.lines_at cpus3 (data final3)
            (Report.shown (Cli.smt options_plot) cpus3)) ++
       Report.line "EOD" ++ tail)%string /\
    Forall (fun l => l <> Report.line "EOD")
           (Report.lines_at cpus3 (data final3)
              (Report.shown (Cli.smt options_plot) cpus3)).
Proof.
  apply (X19_plot_wraps_table options_plot cpus3 (data final3)).
  - apply NoDup_ListNoDup. repeat constructor; simpl; intuition lia.
  - reflexivity.
Defined.

(** X20.  Without [-H] neither context ever enters the warm-up loop:
    under every schedule the trace holds no warm-up event of either
    context. *)
Theorem X20_no_preheat_no_warmup
    (c : config) (sched : schedule) (t : tid) :
  preheat c = false ->
  warm_events t (trace c sched) = [] /\
  Forall (fun e => is_warm t e = false) (trace c sched).
Proof.
  intros Hheat. pose proof (no_preheat_no_warm c sched t Hheat) as H.
  split; [exact H|].
  unfold warm_events in H. apply List.Forall_forall. intros e He.
  destruct (is_warm t e) eqn:E; [|reflexivity].
  assert (Hin : In e (List.filter (is_warm t) (trace c sched)))
    by (apply filter_In; auto).
  rewrite H in Hin. destruct Hin.
Qed.

Lemma X20_witness :
  warm_events Responder (trace cold1 fair) = [] /\
  Forall (fun e => is_warm Responder e = false) (trace cold1 fair).
Proof.
  apply (X20_no_preheat_no_warmup cold1 fair Responder). reflexivity.
Defined.

(** X21.  The main thread reads the clock in a fixed order, whatever
    the schedule: the timestamps of a trace are the start and the end
    of sample 0, then of sample 1, and so on, for the samples completed
    so far, followed by the start of the next sample when the main
    thread is inside its timed window; no sample is timed twice and
    none beyond [nsamples]; the readings never decrease along the
    trace; when the measurement of the pair is complete the trace
    holds exactly the start and the end of each of the [nsamples]
    samples. *)
Theorem X21_timestamps_in_sample_order (c : config) (sched : schedule) :
  exists k : nat,
    (Z.of_nat k <= Z.max 0 (nsamples c))%Z /\
    (map kind (stamps_of (trace c sched)) = kinds_in_order k \/
     (Z.of_nat k < nsamples c)%Z /\
     map kind (stamps_of (trace c sched))
     = kinds_in_order k ++ [(false, Z.of_nat k)]) /\
    StronglySorted Z.le (map reading (stamps_of (trace c sched))) /\
    (main (run c sched) = MDone -> k = Z.to_nat (nsamples c)).
Proof.
  destruct (stamps_of_trace c sched) as [Hk Hs].
  destruct (cells_inv_run c sched) as (Hwf & _).
  exists (Z.to_nat (completed c (main (run c sched)))).
  destruct (main (run c sched)) eqn:Hp; simpl in Hk, Hwf |- *.
  all: rewrite ?app_nil_r in Hk.
  all: split; [lia|]; split; [|split; [exact Hs|]].
  all: try (left; exact Hk).
  all: try (right; split; [lia|]; rewrite Z2Nat.id by lia; exact Hk).
  all: try discriminate.
  intros _. lia.
Qed.

Lemma X21_witness :
  map kind (stamps_of (trace cas1 fair))
  = kinds_in_order (Z.to_nat (nsamples cas1)) /\
  StronglySorted Z.le (map reading (stamps_of (trace cas1 fair))).
Proof.
  destruct (X21_timestamps_in_sample_order cas1 fair)
    as (k & _ & Hk & Hs & Hd).
  assert (Hdone : main (run cas1 fair) = MDone) by (vm_compute; reflexivity).
  specialize (Hd Hdone). subst k.
  split; [|exact Hs].
  destruct Hk as [Hk|[Hlt _]]; [exact Hk|lia].
Defined.



End Extras.
